(** * fwupd: the Parade LSPCON and Goodix fingerprint device plugins

    A shallow embedding of [fu-parade-lspcon-device.c] and
    [fu-goodixfp-device.c].  The C code talks to its hardware through
    fallible library calls and reports failure the GLib way: a [gboolean]
    (or pointer) return value plus a [GError] slot that is written at most
    once.  Both are kept here: a computation threads a [World] holding the
    device fields, the error slot, the log of calls issued so far, and the
    script of answers the environment will give to the calls still to come. *)

From Stdlib Require Import ZArith List String Bool Lia.
Import ListNotations.
Open Scope Z_scope.

(** ** GLib errors *)

Inductive ErrorCode :=
| FWUPD_ERROR_INTERNAL
| FWUPD_ERROR_NOT_SUPPORTED
| FWUPD_ERROR_WRITE
| G_IO_ERROR_TIMED_OUT
| LIBRARY_ERROR.              (* whatever a failing library call reports *)

Inductive Message :=
| Literal (text : string)                       (* g_set_error_literal *)
| Format (fmt : string) (args : list Z)         (* g_set_error, integer arguments *)
| FormatString (fmt : string) (arg : string)    (* g_set_error, a string argument *)
| FormatMessage (fmt : string) (inner : Message)(* a %s filled with another error's message *)
| Prefixed (prefix : string) (args : list Z) (inner : Message)  (* g_prefix_error *)
| LibraryText.                                  (* text chosen by the failing library call *)

Record GError := mkGError { code : ErrorCode; message : Message }.

(** ** The environment *)

(** One answer of the environment to one library call. *)
Inductive Reply :=
| RFail                                   (* the call fails and sets its error *)
| RDone                                   (* an ioctl, a write, an open: done *)
| RBytes (bs : list Z)                    (* a read delivered these bytes *)
| RElapsed (usec : Z)                     (* g_timer_elapsed, in microseconds *)
| RCount (n : nat)                        (* g_udev_enumerator_execute: devices found *)
| RBulk (actual_len : Z) (buf : list Z).  (* a bulk transfer: bytes moved, buffer after *)

Inductive FwupdStatus :=
| FWUPD_STATUS_DEVICE_ERASE
| FWUPD_STATUS_DEVICE_WRITE
| FWUPD_STATUS_DEVICE_VERIFY
| FWUPD_STATUS_DEVICE_RESTART.

Inductive DeviceFlag := FWUPD_DEVICE_FLAG_WAIT_FOR_REPLUG.

Inductive Version :=
| VersionPair (major minor : Z)           (* "%d.%d" *)
| VersionPlain (text : list Z).           (* a C string, as its bytes *)

(** What the code did to the outside, in the order it did it. *)
Inductive Event :=
| EvIoctl (address : Z) (ok : bool)       (* ioctl (I2C_SLAVE, address) and whether it succeeded *)
| EvI2cWrite (bs : list Z)                (* fu_i2c_device_write, _write_full *)
| EvI2cRead (n : Z)                       (* fu_i2c_device_read, _read_full *)
| EvSleep (usec : Z)                      (* g_usleep *)
| EvStatus (s : FwupdStatus)              (* fu_device_set_status *)
| EvProgress (current total : Z)          (* fu_device_set_progress_full *)
| EvDebugFlashErase (base_address : Z)    (* g_debug ("flash erase block at %#x") *)
| EvDebugFlashWrite (data : list Z) (base_address : Z)
                                          (* g_debug ("flash write %zu bytes at %#x"):
                                             the buffer whose size is printed, and the address *)
| EvDebug (text : string)                 (* any other g_debug line *)
| EvWarning (m : Message)                 (* g_warning *)
| EvCritical                              (* a failed g_return_val_if_fail *)
| EvEnumerate                             (* g_udev_enumerator_execute *)
| EvOpen                                  (* an open, a claim, a lock of a device *)
| EvPread (offset n : Z)                  (* fu_udev_device_pread_full *)
| EvBulkOut (bs : list Z)                 (* bulk transfer to GX_USB_BULK_EP_OUT *)
| EvBulkIn (n : Z).                       (* bulk transfer from GX_USB_BULK_EP_IN *)

Record World := mkWorld {
  script : list Reply;            (* answers to the calls still to come *)
  trace : list Event;             (* calls issued so far, oldest first *)
  gerror : option GError;         (* the GError slot passed as [error] *)
  i2c_addr : Z;                   (* slave address bound to the i2c-dev handle *)
  active_partition : Z;           (* FuParadeLspconDevice.active_partition *)
  aux_device_name : option string;(* FuParadeLspconDevice.aux_device_name *)
  version : option Version;       (* fu_device_set_version *)
  flags : list DeviceFlag         (* fu_device_add_flag *)
}.

Definition set_script (s : list Reply) (w : World) : World :=
  mkWorld s (trace w) (gerror w) (i2c_addr w) (active_partition w)
          (aux_device_name w) (version w) (flags w).
Definition set_trace (t : list Event) (w : World) : World :=
  mkWorld (script w) t (gerror w) (i2c_addr w) (active_partition w)
          (aux_device_name w) (version w) (flags w).
Definition set_gerror (e : option GError) (w : World) : World :=
  mkWorld (script w) (trace w) e (i2c_addr w) (active_partition w)
          (aux_device_name w) (version w) (flags w).
Definition set_i2c_addr (a : Z) (w : World) : World :=
  mkWorld (script w) (trace w) (gerror w) a (active_partition w)
          (aux_device_name w) (version w) (flags w).
Definition set_active_partition (p : Z) (w : World) : World :=
  mkWorld (script w) (trace w) (gerror w) (i2c_addr w) p
          (aux_device_name w) (version w) (flags w).
Definition set_version (v : option Version) (w : World) : World :=
  mkWorld (script w) (trace w) (gerror w) (i2c_addr w) (active_partition w)
          (aux_device_name w) v (flags w).
Definition set_flags (f : list DeviceFlag) (w : World) : World :=
  mkWorld (script w) (trace w) (gerror w) (i2c_addr w) (active_partition w)
          (aux_device_name w) (version w) f.

(** ** The monad of the C functions *)

(** The return value of a C function that reports failure through it:
    [TRUE a] for TRUE (or a non-NULL pointer) with the values it produced,
    [FALSE] for FALSE (or NULL). *)
Inductive ret (A : Type) :=
| TRUE (a : A)
| FALSE.
Arguments TRUE {A} a.
Arguments FALSE {A}.

(** [None] means the model assigns no result to the run: the script has no
    (fitting) answer for the next call, a loop ran past its bound, or the C
    behaviour is undefined. *)
Definition M (A : Type) : Type := World -> option (ret A * World).

Definition mret {A} (a : A) : M A := fun w => Some (TRUE a, w).

Definition bind {A B} (m : M A) (k : A -> M B) : M B := fun w =>
  match m w with
  | None => None
  | Some (TRUE a, w') => k a w'
  | Some (FALSE, w') => Some (FALSE, w')
  end.

(** [return FALSE] (or NULL) *)
Definition return_FALSE {A} : M A := fun w => Some (FALSE, w).

(** Undefined behaviour, or a script that does not fit. *)
Definition undefined {A} : M A := fun _ => None.

Declare Scope fu_scope.
Delimit Scope fu_scope with fu.
Notation "x <- m ;; k" := (bind m (fun x => k))
  (at level 100, m at next level, right associativity) : fu_scope.
Notation "m ;; k" := (bind m (fun _ => k))
  (at level 100, right associativity) : fu_scope.
Open Scope fu_scope.

(** Run [m] and look at its return value instead of leaving on FALSE. *)
Definition attempt {A} (m : M A) : M (ret A) := fun w =>
  match m w with
  | None => None
  | Some (r, w') => Some (TRUE r, w')
  end.

(** [if (!m) { h; return FALSE; }] *)
Definition on_failure {A} (m : M A) (h : M unit) : M A :=
  r <- attempt m ;;
  match r with
  | TRUE a => mret a
  | FALSE => h ;; return_FALSE
  end.

(** Call [m] with [NULL] for its [error] argument: errors it sets are lost. *)
Definition with_error_NULL {A} (m : M A) : M A := fun w =>
  match m (set_gerror None w) with
  | None => None
  | Some (r, w') => Some (r, set_gerror (gerror w) w')
  end.

(** Call [m] with the address of a fresh, empty [error_local]; hand back its
    return value and what it left in [error_local]. *)
Definition with_error_local {A} (m : M A) : M (ret A * option GError) := fun w =>
  match m (set_gerror None w) with
  | None => None
  | Some (r, w') => Some (TRUE (r, gerror w'), set_gerror (gerror w) w')
  end.

Definition emit (ev : Event) : M unit := fun w =>
  Some (TRUE tt, set_trace (trace w ++ [ev]) w).

(** The next answer of the environment. *)
Definition reply : M Reply := fun w =>
  match script w with
  | [] => None
  | r :: rest => Some (TRUE r, set_script rest w)
  end.

(** [g_set_error]: the slot keeps the first error; setting it again only
    logs a warning. *)
Definition g_set_error (c : ErrorCode) (m : Message) : M unit := fun w =>
  match gerror w with
  | None => Some (TRUE tt, set_gerror (Some (mkGError c m)) w)
  | Some _ => Some (TRUE tt, set_trace (trace w ++ [EvWarning m]) w)
  end.

Definition g_prefix_error (prefix : string) (args : list Z) : M unit := fun w =>
  match gerror w with
  | None => Some (TRUE tt, w)
  | Some e =>
      Some (TRUE tt,
            set_gerror (Some (mkGError (code e) (Prefixed prefix args (message e)))) w)
  end.

Definition g_return_val_if_fail (cond : bool) : M unit :=
  if cond then mret tt else (emit EvCritical ;; return_FALSE).

(** A double quote, for the messages that carry one. *)
Definition dquote : string := String (Ascii.ascii_of_nat 34) EmptyString.

(** A library call whose only answer is success or failure.  The call is
    followed whatever the error slot holds: a call with an error pending is
    against the convention of GError, and what the library does with one is
    not part of these sources. *)
Definition library_call (ev : Event) : M unit :=
  emit ev ;;
  r <- reply ;;
  match r with
  | RDone => mret tt
  | RFail => g_set_error LIBRARY_ERROR LibraryText ;; return_FALSE
  | _ => undefined
  end.

Definition byteb (b : Z) : bool := (0 <=? b) && (b <? 256).

(** A library call that fills a buffer of [n] bytes. *)
Definition library_read (ev : Event) (n : Z) : M (list Z) :=
  emit ev ;;
  r <- reply ;;
  match r with
  | RBytes bs =>
      if (Z.of_nat (List.length bs) =? n) && forallb byteb bs
      then mret bs else undefined
  | RFail => g_set_error LIBRARY_ERROR LibraryText ;; return_FALSE
  | _ => undefined
  end.

(** Conversion to [guint8] and [guint32]. *)
Definition u8 (z : Z) : Z := z mod 256.
Definition u32 (z : Z) : Z := z mod 4294967296.

Definition fu_device_set_status (s : FwupdStatus) : M unit := emit (EvStatus s).
Definition fu_device_set_progress_full (current total : Z) : M unit :=
  emit (EvProgress current total).
Definition fu_device_set_version (v : Version) : M unit := fun w =>
  Some (TRUE tt, set_version (Some v) w).
Definition fu_device_add_flag (f : DeviceFlag) : M unit := fun w =>
  Some (TRUE tt, set_flags (f :: flags w) w).
Definition g_usleep (usec : Z) : M unit := emit (EvSleep usec).

(** [g_timer_elapsed] of a timer started at the head of the loop that asks. *)
Definition g_timer_elapsed : M Z :=
  r <- reply ;;
  match r with
  | RElapsed usec => if 0 <=? usec then mret usec else undefined
  | _ => undefined
  end.

(** [g_timer_elapsed (timer, NULL) <= 10.0], on the microsecond count the
    double is computed from. *)
Definition within_10_seconds (usec : Z) : bool := usec <=? 10000000.

(** A [FuFirmware], as far as these plugins look at it: the blob that
    [fu_firmware_get_bytes] or [fu_firmware_get_image_default_bytes] hands
    out, if it hands one out. *)
Record FuFirmware := mkFirmware { blob : option (list Z) }.

Definition fu_firmware_get_bytes (firmware : FuFirmware) : M (list Z) :=
  match blob firmware with
  | Some b => mret b
  | None => g_set_error LIBRARY_ERROR LibraryText ;; return_FALSE
  end.

Definition fu_firmware_get_image_default_bytes (firmware : FuFirmware) : M (list Z) :=
  match blob firmware with
  | Some b => mret b
  | None => g_set_error LIBRARY_ERROR LibraryText ;; return_FALSE
  end.

(** ** fu-parade-lspcon-device.c *)

Module ParadeLspcon.

Definition I2C_ADDR_PAGE2 : Z := 0x4a.
Definition REG_ADDR_CLT2SPI : Z := 0x82.
Definition REG_ADDR_FLASH_ADDR_LO : Z := 0x8e.
Definition REG_ADDR_FLASH_ADDR_HI : Z := 0x8f.
Definition REG_ADDR_WR_FIFO : Z := 0x90.
Definition REG_ADDR_RD_FIFO : Z := 0x91.
Definition REG_ADDR_SPI_LEN : Z := 0x92.
Definition REG_ADDR_SPI_CTL : Z := 0x93.
Definition SPI_CTL_NOREAD : Z := 0x04.
Definition SPI_CTL_TRIGGER : Z := 0x01.
Definition REG_ADDR_SPI_STATUS : Z := 0x9e.
Definition SPI_STATUS_BP_MASK : Z := 0x03.
Definition SPI_STATUS_SE_MASK : Z := 0x0c.
Definition SPI_STATUS_CE_MASK : Z := 0x30.
Definition REG_ADDR_WR_PROTECT : Z := 0xb3.
Definition WR_PROTECT_DISABLE : Z := 0x10.
Definition REG_ADDR_MPU : Z := 0xbc.
Definition REG_ADDR_MAP_WRITE : Z := 0xda.
Definition I2C_ADDR_PAGE5 : Z := 0x4d.
Definition REG_ADDR_ACTIVE_PARTITION : Z := 0x0e.
Definition I2C_ADDR_PAGE7 : Z := 0x4f.
Definition FLASH_BLOCK_SIZE : Z := 0x10000.

(** [fu_udev_device_ioctl (I2C_SLAVE, address)]: the handle is rebound only
    when the ioctl succeeds. *)
Definition fu_udev_device_ioctl_I2C_SLAVE (address : Z) : M unit :=
  r <- reply ;;
  match r with
  | RDone => emit (EvIoctl address true) ;;
             fun w => Some (TRUE tt, set_i2c_addr address w)
  | RFail => emit (EvIoctl address false) ;;
             g_set_error LIBRARY_ERROR LibraryText ;; return_FALSE
  | _ => undefined
  end.

Definition ensure_i2c_address (address : Z) : M unit :=
  on_failure (fu_udev_device_ioctl_I2C_SLAVE address)
    (g_prefix_error "failed to set I2C slave address: " []).

(** [FuI2cDevice->open] is outside this file; what the override adds is the
    selection of page 2. *)
Definition fu_parade_lspcon_device_open : M unit :=
  library_call EvOpen ;;
  ensure_i2c_address I2C_ADDR_PAGE2.

Inductive I2cAddressGuard := Guard.

Definition i2c_address_guard_new (new_address : Z) : M I2cAddressGuard :=
  ensure_i2c_address new_address ;;
  mret Guard.

Definition i2c_address_guard_dispose (guard : I2cAddressGuard) : M unit :=
  _ <- attempt (with_error_NULL (ensure_i2c_address I2C_ADDR_PAGE2)) ;;
  mret tt.

(** The cleanup that [g_autoptr] attaches to a variable: when the scope is
    left, by whichever exit, a non-NULL pointer is handed to the dispose
    function and a NULL one is left alone. *)
Definition g_autoptr_scope {A} (guard : ret I2cAddressGuard) (body : M A) : M A :=
  r <- attempt body ;;
  match guard with
  | TRUE g => i2c_address_guard_dispose g
  | FALSE => mret tt
  end ;;
  match r with
  | TRUE a => mret a
  | FALSE => return_FALSE
  end.

Definition fu_i2c_device_write_full (bs : list Z) : M unit :=
  library_call (EvI2cWrite bs).
Definition fu_i2c_device_write (b : Z) : M unit :=
  library_call (EvI2cWrite [b]).
Definition fu_i2c_device_read_full (n : Z) : M (list Z) :=
  library_read (EvI2cRead n) n.
Definition fu_i2c_device_read : M Z :=
  bs <- library_read (EvI2cRead 1) 1 ;;
  mret (hd 0 bs).

Definition lspcon_write_register (register_addr value : Z) : M unit :=
  fu_i2c_device_write_full [register_addr; value].

Definition lspcon_read_register (register_addr : Z) : M Z :=
  fu_i2c_device_write register_addr ;;
  fu_i2c_device_read.

Definition lspcon_map_page (address : Z) : M unit :=
  lspcon_write_register REG_ADDR_FLASH_ADDR_HI (u8 (Z.shiftr address 16)) ;;
  lspcon_write_register REG_ADDR_FLASH_ADDR_LO (u8 (Z.shiftr address 8)).

(** The do-while of [lspcon_poll_register]; [bound] limits the number of
    rounds the model follows. *)
Fixpoint lspcon_poll_register_loop (bound : nat) (register_address mask expected : Z)
  : M unit :=
  match bound with
  | O => undefined
  | S bound' =>
      value <- lspcon_read_register register_address ;;
      if Z.land value mask =? expected then mret tt
      else
        elapsed <- g_timer_elapsed ;;
        if within_10_seconds elapsed
        then lspcon_poll_register_loop bound' register_address mask expected
        else
          g_set_error G_IO_ERROR_TIMED_OUT
            (Format "register %x did not read %x (mask %x) within 10 seconds: read %x"
                    [register_address; expected; mask; value]) ;;
          return_FALSE
  end.

Definition lspcon_poll_register (bound : nat) (register_address mask expected : Z)
  : M unit :=
  lspcon_poll_register_loop bound register_address mask expected.

(** The while loop of [flash_read]; every round takes at least one byte, so
    [len] rounds are enough.  [data] is what has been copied out so far. *)
Fixpoint flash_read_loop (rounds : nat) (target_len base_address len : Z)
                         (data : list Z) : M (list Z) :=
  if len <=? 0 then mret data else
  match rounds with
  | O => undefined
  | S rounds' =>
      let page_data_start := Z.land base_address 0xFF in
      let page_data_take := Z.min len (256 - page_data_start) in
      lspcon_map_page base_address ;;
      page_data <-
        (guard <- i2c_address_guard_new I2C_ADDR_PAGE7 ;;
         g_autoptr_scope (TRUE guard) (fu_i2c_device_read_full 256)) ;;
      let data := data ++ firstn (Z.to_nat page_data_take)
                                 (skipn (Z.to_nat page_data_start) page_data) in
      let base_address := u32 (base_address + page_data_take) in
      let len := len - page_data_take in
      fu_device_set_progress_full (target_len - len) target_len ;;
      flash_read_loop rounds' target_len base_address len data
  end.

Definition flash_read (base_address len : Z) : M (list Z) :=
  flash_read_loop (Z.to_nat len) len base_address len [].

Fixpoint write_fifo (command : list Z) : M unit :=
  match command with
  | [] => mret tt
  | b :: rest => lspcon_write_register REG_ADDR_WR_FIFO b ;; write_fifo rest
  end.

Definition flash_transmit_command (command : list Z) : M unit :=
  let command_len := Z.of_nat (List.length command) in
  g_return_val_if_fail ((0 <? command_len) && (command_len <=? 16)) ;;
  write_fifo command ;;
  lspcon_write_register REG_ADDR_SPI_LEN (u8 (command_len - 1)) ;;
  lspcon_write_register REG_ADDR_SPI_CTL (Z.lor SPI_CTL_NOREAD SPI_CTL_TRIGGER).

Definition flash_enable_write : M unit :=
  flash_transmit_command [0x06].

Definition flash_read_status (bound : nat) : M Z :=
  lspcon_write_register REG_ADDR_WR_FIFO 0x05 ;;
  lspcon_write_register REG_ADDR_SPI_LEN 0 ;;
  lspcon_write_register REG_ADDR_SPI_CTL SPI_CTL_TRIGGER ;;
  lspcon_poll_register bound REG_ADDR_SPI_CTL SPI_CTL_TRIGGER 0 ;;
  lspcon_read_register REG_ADDR_RD_FIFO.

Fixpoint flash_wait_ready_loop (bound inner : nat) : M unit :=
  match bound with
  | O => undefined
  | S bound' =>
      status_register <- flash_read_status inner ;;
      if Z.land status_register 1 =? 0 then mret tt
      else
        g_usleep 1000 ;;
        elapsed <- g_timer_elapsed ;;
        if within_10_seconds elapsed
        then flash_wait_ready_loop bound' inner
        else
          g_set_error G_IO_ERROR_TIMED_OUT
            (Literal "flash did not become ready within 10 seconds") ;;
          return_FALSE
  end.

Definition flash_wait_ready (bound : nat) : M unit :=
  flash_wait_ready_loop bound bound.

(** [fu_memcpy_safe] of libfwupdplugin, as [flash_write] calls it: [n] bytes
    from [src] at [src_offset] to offset [dst_offset] of a buffer of
    [dst_sz] bytes; it refuses a copy that leaves either buffer.  The result
    is the destination from [dst_offset] on.  Like every library call it is
    followed whatever the error slot holds. *)
Definition fu_memcpy_safe (dst_sz dst_offset : Z) (src : list Z) (src_offset n : Z)
  : M (list Z) :=
  let src_sz := Z.of_nat (List.length src) in
  if n =? 0 then mret []
  else if (src_sz <? n) || (src_sz <? n + src_offset)
          || (dst_sz <? n) || (dst_sz <? n + dst_offset)
  then g_set_error LIBRARY_ERROR LibraryText ;; return_FALSE
  else mret (firstn (Z.to_nat n) (skipn (Z.to_nat src_offset) src)).

Definition unlock_writes : list Z := [0xaa; 0x55; 0x50; 0x41; 0x52; 0x44].

Fixpoint write_map_write (values : list Z) : M unit :=
  match values with
  | [] => mret tt
  | v :: rest => lspcon_write_register REG_ADDR_MAP_WRITE v ;; write_map_write rest
  end.

(** The for loop of [flash_write]: one round per 256 bytes of [data]. *)
Fixpoint flash_write_loop (rounds : nat) (base_address : Z) (data : list Z)
                          (bytes_written : Z) : M unit :=
  let data_len := Z.of_nat (List.length data) in
  if data_len <=? bytes_written then mret tt else
  match rounds with
  | O => undefined
  | S rounds' =>
      let address := u32 (base_address + bytes_written) in
      let chunk_size := Z.min (data_len - bytes_written) 256 in
      lspcon_map_page address ;;
      (* the guard is not tested against NULL here *)
      (guard <- attempt (i2c_address_guard_new I2C_ADDR_PAGE7) ;;
       g_autoptr_scope guard
         (chunk <- fu_memcpy_safe 257 1 data bytes_written chunk_size ;;
          let write_data := 0 :: chunk in
          fu_i2c_device_write_full write_data)) ;;
      fu_device_set_progress_full bytes_written data_len ;;
      flash_write_loop rounds' base_address data (bytes_written + 256)
  end.

Definition flash_write (base_address : Z) (data : list Z) : M unit :=
  g_return_val_if_fail (Z.land base_address 0xFF =? 0) ;;
  emit (EvDebugFlashWrite data base_address) ;;
  write_map_write unlock_writes ;;
  lspcon_write_register REG_ADDR_CLT2SPI 0x20 ;;
  g_usleep (100 * 1000) ;;
  lspcon_write_register REG_ADDR_CLT2SPI 0 ;;
  flash_write_loop (List.length data) base_address data 0 ;;
  lspcon_write_register REG_ADDR_MAP_WRITE 0.

Definition flash_erase_block (bound : nat) (base_address size : Z) : M unit :=
  let block_erase := [0xd8;
                      u8 (Z.shiftr base_address 16);
                      u8 (Z.shiftr base_address 8);
                      u8 base_address] in
  g_return_val_if_fail (Z.land base_address (FLASH_BLOCK_SIZE - 1) =? 0) ;;
  g_return_val_if_fail (size =? FLASH_BLOCK_SIZE) ;;
  emit (EvDebugFlashErase base_address) ;;
  flash_enable_write ;;
  flash_transmit_command block_erase ;;
  lspcon_poll_register bound REG_ADDR_SPI_STATUS SPI_STATUS_SE_MASK 0 ;;
  flash_wait_ready bound.

Definition probe_active_flash_partition : M Z :=
  guard <- i2c_address_guard_new I2C_ADDR_PAGE5 ;;
  g_autoptr_scope (TRUE guard)
    (lspcon_read_register REG_ADDR_ACTIVE_PARTITION).

(** The calls [reload] makes on the DP aux device. *)
Definition g_udev_enumerator_execute : M nat :=
  emit EvEnumerate ;;
  r <- reply ;;
  match r with
  | RCount n => mret n
  | _ => undefined
  end.
Definition fu_udev_device_set_physical_id : M unit := library_call EvOpen.
Definition fu_device_locker_new : M unit := library_call EvOpen.
Definition fu_udev_device_pread_full (offset n : Z) : M (list Z) :=
  library_read (EvPread offset n) n.

Definition fu_parade_lspcon_device_reload : M unit :=
  partition <- probe_active_flash_partition ;;
  (fun w => Some (TRUE tt, set_active_partition partition w)) ;;
  emit (EvDebug "device reports running from partition %d") ;;
  if (partition <? 1) || (3 <? partition) then
    g_set_error FWUPD_ERROR_NOT_SUPPORTED
      (Format "unexpected active flash partition: %d" [partition]) ;;
    return_FALSE
  else
  name <- (fun w => Some (TRUE (aux_device_name w), w)) ;;
  match name with
  | None =>
      g_set_error FWUPD_ERROR_NOT_SUPPORTED
        (Literal "no DP aux device specified, unable to query LSPCON") ;;
      return_FALSE
  | Some name =>
      aux_devices <- g_udev_enumerator_execute ;;
      match aux_devices with
      | O =>
          g_set_error FWUPD_ERROR_NOT_SUPPORTED
            (FormatString ("failed to locate a DP aux device named "
                           ++ dquote ++ "%s" ++ dquote) name) ;;
          return_FALSE
      | S (S _) =>
          g_set_error FWUPD_ERROR_NOT_SUPPORTED
            (FormatString ("found multiple DP aux devices with name "
                           ++ dquote ++ "%s" ++ dquote) name) ;;
          return_FALSE
      | S O =>
          emit (EvDebug "using aux dev %s") ;;
          fu_udev_device_set_physical_id ;;
          fu_device_locker_new ;;
          (* DPCD address 00500-00502: device OUI *)
          oui_bytes <- fu_udev_device_pread_full 0x500 3 ;;
          let oui := nth 0 oui_bytes 0 * 65536 + nth 1 oui_bytes 0 * 256
                     + nth 2 oui_bytes 0 in
          if negb (oui =? 0x001CF8) then
            g_set_error FWUPD_ERROR_NOT_SUPPORTED
              (Format "device OUI %06X does not match expected value for Paradetech"
                      [oui]) ;;
            return_FALSE
          else
          (* DPCD address 0x50A, 0x50B: firmware major and minor revision *)
          version_buf <- fu_udev_device_pread_full 0x50a 2 ;;
          fu_device_set_version
            (VersionPair (nth 0 version_buf 0) (nth 1 version_buf 0))
      end
  end.

Definition set_mpu_running (running : bool) : M unit :=
  lspcon_write_register REG_ADDR_MPU 0xc0 ;;
  lspcon_write_register REG_ADDR_MPU (if running then 0 else 0x40).

Definition fu_parade_lspcon_device_detach : M unit := set_mpu_running false.
Definition fu_parade_lspcon_device_attach : M unit := set_mpu_running true.

Definition write_sr_volatile : list Z := [0x50].
Definition write_sr_disable_bp : list Z := [0x01; 0x80; 0x00].
Definition write_sr_enable_bp : list Z := [0x01; 0x8c; 0x00].

Definition target_partition_of (active_partition : Z) : Z :=
  if active_partition =? 1 then 2 else 1.
Definition target_address_of (target_partition : Z) : Z :=
  u32 (Z.shiftl target_partition 16).
Definition flag_data_of (target_partition : Z) : list Z :=
  [0x55; 0xaa; target_partition; u8 (1 - target_partition)].

Fixpoint bytes_eqb (a b : list Z) : bool :=
  match a, b with
  | [], [] => true
  | x :: a', y :: b' => (x =? y) && bytes_eqb a' b'
  | _, _ => false
  end.

(** [memcmp (a, b, n) != 0] *)
Definition memcmp_differs (a b : list Z) (n : Z) : bool :=
  negb (bytes_eqb (firstn (Z.to_nat n) a) (firstn (Z.to_nat n) b)).

(** [fu_parade_lspcon_device_write_firmware] from the deassertion of /WP to
    the end of the image write. *)
Definition write_firmware_program (bound : nat) (target_partition target_address : Z)
                                  (blob_fw : list Z) : M unit :=
  let firmware_size := Z.of_nat (List.length blob_fw) in
  (* deassert flash /WP *)
  lspcon_write_register REG_ADDR_WR_PROTECT WR_PROTECT_DISABLE ;;
  (* disable flash protection until next power-off *)
  flash_transmit_command write_sr_volatile ;;
  flash_transmit_command write_sr_disable_bp ;;
  (* wait for SR write to complete *)
  flash_wait_ready bound ;;
  (* erase entire target partition (one flash block) *)
  fu_device_set_status FWUPD_STATUS_DEVICE_ERASE ;;
  on_failure (flash_erase_block bound target_address firmware_size)
    (g_prefix_error "failed to erase flash partition %d: " [target_partition]) ;;
  (* write image *)
  fu_device_set_status FWUPD_STATUS_DEVICE_WRITE ;;
  on_failure (flash_write target_address blob_fw)
    (g_prefix_error "failed to write firmware to partition %d: " [target_partition]).

(** ... the read back of the image ... *)
Definition write_firmware_readback (target_address firmware_size : Z) : M (list Z) :=
  fu_device_set_status FWUPD_STATUS_DEVICE_VERIFY ;;
  flash_read target_address firmware_size.

(** ... the flag partition ... *)
Definition write_firmware_commit (bound : nat) (flag_data : list Z) : M unit :=
  let sizeof_flag_data := Z.of_nat (List.length flag_data) in
  (* erase flag partition *)
  fu_device_set_status FWUPD_STATUS_DEVICE_ERASE ;;
  flash_erase_block bound 0 FLASH_BLOCK_SIZE ;;
  (* write flag indicating device should boot the target partition *)
  fu_device_set_status FWUPD_STATUS_DEVICE_WRITE ;;
  flash_write 0 flag_data ;;
  (* verify flag partition *)
  fu_device_set_status FWUPD_STATUS_DEVICE_VERIFY ;;
  readback_buf <- flash_read 0 sizeof_flag_data ;;
  if memcmp_differs flag_data readback_buf sizeof_flag_data then
    g_set_error FWUPD_ERROR_WRITE
      (Literal "flag partition contents do not match written data") ;;
    return_FALSE
  else mret tt.

(** ... and the restoring of the flash protection. *)
Definition write_firmware_relock : M unit :=
  flash_transmit_command write_sr_volatile ;;
  flash_transmit_command write_sr_enable_bp ;;
  (* reassert /WP to flash *)
  lspcon_write_register REG_ADDR_WR_PROTECT 0.

Definition fu_parade_lspcon_device_write_firmware (bound : nat) (firmware : FuFirmware)
  : M unit :=
  active <- (fun w => Some (TRUE (active_partition w), w)) ;;
  let target_partition := target_partition_of active in
  let target_address := target_address_of target_partition in
  let flag_data := flag_data_of target_partition in
  blob_fw <- fu_firmware_get_bytes firmware ;;
  let firmware_buf := blob_fw in
  let firmware_size := Z.of_nat (List.length blob_fw) in
  if negb (firmware_size =? FLASH_BLOCK_SIZE) then
    g_set_error FWUPD_ERROR_NOT_SUPPORTED
      (Format "invalid image size %#zx, expected %#x" [firmware_size; FLASH_BLOCK_SIZE]) ;;
    return_FALSE
  else
  write_firmware_program bound target_partition target_address blob_fw ;;
  (* read back written image to verify *)
  readback_buf <- write_firmware_readback target_address firmware_size ;;
  if memcmp_differs firmware_buf readback_buf firmware_size then
    g_set_error FWUPD_ERROR_WRITE
      (Literal "flash contents do not match written data") ;;
    return_FALSE
  else
  write_firmware_commit bound flag_data ;;
  (* re-enable flash protection *)
  write_firmware_relock.

Definition fu_parade_lspcon_device_dump_firmware : M (list Z) :=
  active <- (fun w => Some (TRUE (active_partition w), w)) ;;
  flash_read (u32 (active * FLASH_BLOCK_SIZE)) FLASH_BLOCK_SIZE.

End ParadeLspcon.

(** ** fu-goodixfp-device.c *)

Module GoodixFp.

Definition GX_USB_BULK_EP_SIZE : Z := 64.
Definition GX_USB_DATAIN_TIMEOUT : Z := 2000.
Definition GX_USB_DATAOUT_TIMEOUT : Z := 2000.
Definition GX_FLASH_TRANSFER_BLOCK_SIZE : Z := 1000.

(** Modelled from the spec: the [pack_header] of fu-goodixfp-common.h, which
    is not among the sources.  The spec lists its fields: payload length,
    two command bytes and the end-of-package flag. *)
Record pack_header := mkHeader {
  len : Z;
  cmd0 : Z;
  cmd1 : Z;
  pkg_eop : Z
}.

(** What fu-goodixfp-common.[ch] provides and this file calls: the response
    type with the two fields read here, the command codes, and the functions
    that lay out and parse a package.  The arguments are those of the C
    calls; a buffer is passed as the bytes from the pointer to the end of its
    allocation. *)
Class GxProto := {
  gxfp_cmd_response_t : Type;
  reponse_zero : gxfp_cmd_response_t;                  (* = {0, } *)
  result : gxfp_cmd_response_t -> Z;
  fwversion : gxfp_cmd_response_t -> list Z;           (* version_info.fwversion *)
  PACKAGE_HEADER_SIZE : Z;
  GX_CMD_ACK : Z;
  GX_CMD_VERSION : Z;
  GX_CMD_RESET : Z;
  GX_CMD_UPGRADE : Z;
  GX_CMD_UPGRADE_INIT : Z;
  GX_CMD_UPGRADE_DATA : Z;
  GX_CMD1_DEFAULT : Z;
  (* init_pack_header (&header, len, cmd0, cmd1, pkg_eop): the header's bytes *)
  init_pack_header : Z -> Z -> Z -> Z -> list Z;
  (* gx_proto_crc32_calc (buf, len, &crc), on the [len] bytes it reads *)
  gx_proto_crc32_calc : list Z -> Z;
  (* gx_proto_parse_header (buf, bufsz, &header) *)
  gx_proto_parse_header : list Z -> Z -> option pack_header;
  (* gx_proto_parse_body (cmd, buf, bufsz, presponse): the response after it *)
  gx_proto_parse_body :
    Z -> list Z -> Z -> gxfp_cmd_response_t -> option gxfp_cmd_response_t
}.

(** [fu_byte_array_append_uint32 (buf, v, G_LITTLE_ENDIAN)] *)
Definition uint32_le (v : Z) : list Z :=
  [Z.land v 0xFF; Z.land (Z.shiftr v 8) 0xFF;
   Z.land (Z.shiftr v 16) 0xFF; Z.land (Z.shiftr v 24) 0xFF].

(** [GUINT32_FROM_LE ( *(guint32 * ) p)] *)
Definition uint32_from_le (p : list Z) : Z :=
  nth 0 p 0 + Z.shiftl (nth 1 p 0) 8 + Z.shiftl (nth 2 p 0) 16
  + Z.shiftl (nth 3 p 0) 24.

(** [g_usb_device_bulk_transfer] to the OUT endpoint.  With a NULL
    [actual_length] the answer is only success or failure. *)
Definition bulk_transfer_out_zlp : M unit := library_call (EvBulkOut []).

Definition bulk_transfer_out (data : list Z) : M Z :=
  emit (EvBulkOut data) ;;
  r <- reply ;;
  match r with
  | RBulk actual_len _ =>
      if (0 <=? actual_len) && (actual_len <=? Z.of_nat (List.length data))
      then mret actual_len else undefined
  | RFail => g_set_error LIBRARY_ERROR LibraryText ;; return_FALSE
  | _ => undefined
  end.

(** [g_usb_device_bulk_transfer] from the IN endpoint into a buffer of
    [size] bytes: the count of bytes received and the buffer after the
    transfer (what lies behind the received bytes is whatever the fresh
    allocation held). *)
Definition bulk_transfer_in (size : Z) : M (Z * list Z) :=
  emit (EvBulkIn size) ;;
  r <- reply ;;
  match r with
  | RBulk actual_len buf =>
      if (0 <=? actual_len) && (actual_len <=? size)
         && (Z.of_nat (List.length buf) =? size) && forallb byteb buf
      then mret (actual_len, buf) else undefined
  | RFail => g_set_error LIBRARY_ERROR LibraryText ;; return_FALSE
  | _ => undefined
  end.

Section Protocol.
Context {P : GxProto}.

(** The package [goodixfp_device_cmd_send] puts on the wire.  The dump under
    FWUPD_GOODIXFP_VERBOSE only prints and is left out. *)
Definition build_package (cmd0 cmd1 pkg_eop : Z) (request : list Z) : list Z :=
  let request_len := Z.of_nat (List.length request) in
  let buf := init_pack_header request_len cmd0 cmd1 pkg_eop ++ request in
  let crc_calc :=
    u32 (gx_proto_crc32_calc
           (firstn (Z.to_nat (PACKAGE_HEADER_SIZE + request_len)) buf)) in
  buf ++ uint32_le crc_calc.

Definition goodixfp_device_cmd_send (cmd0 cmd1 pkg_eop : Z) (request : list Z)
  : M unit :=
  let buf := build_package cmd0 cmd1 pkg_eop request in
  (* send zero length package *)
  on_failure bulk_transfer_out_zlp (g_prefix_error "failed to request: " []) ;;
  (* send data *)
  actual_len <- on_failure (bulk_transfer_out buf)
                  (g_prefix_error "failed to request: " []) ;;
  if negb (actual_len =? Z.of_nat (List.length buf)) then
    g_set_error FWUPD_ERROR_INTERNAL (Literal "Invalid length") ;;
    return_FALSE
  else mret tt.

(** The [while (1)] of [goodixfp_device_cmd_recv]; [bound] limits the number
    of reads the model follows.  [presponse] is the response structure as
    the earlier rounds left it. *)
Fixpoint goodixfp_device_cmd_recv_loop (bound : nat)
           (presponse : gxfp_cmd_response_t) (data_reply : bool)
  : M gxfp_cmd_response_t :=
  match bound with
  | O => undefined
  | S bound' =>
      r <- on_failure (bulk_transfer_in GX_FLASH_TRANSFER_BLOCK_SIZE)
             (g_prefix_error "failed to reply: " []) ;;
      let (actual_len, reply_data) := r in
      if actual_len =? 0 then
        (* receive zero length package *)
        goodixfp_device_cmd_recv_loop bound' presponse data_reply
      else
      (* parse package header *)
      match gx_proto_parse_header reply_data actual_len with
      | None =>
          g_set_error FWUPD_ERROR_INTERNAL (Literal "Invalid value") ;;
          return_FALSE
      | Some header =>
          let covered := PACKAGE_HEADER_SIZE + len header in
          (* reads behind the allocation are undefined *)
          if negb ((0 <=? PACKAGE_HEADER_SIZE) && (0 <=? len header)
                   && (covered + 4 <=? GX_FLASH_TRANSFER_BLOCK_SIZE))
          then undefined else
          let crc32_calc :=
            u32 (gx_proto_crc32_calc (firstn (Z.to_nat covered) reply_data)) in
          if negb (crc32_calc
                   =? uint32_from_le (skipn (Z.to_nat covered) reply_data)) then
            g_set_error FWUPD_ERROR_INTERNAL (Literal "Invalid checksum") ;;
            return_FALSE
          else
          (* parse package data *)
          match gx_proto_parse_body (cmd0 header)
                  (skipn (Z.to_nat PACKAGE_HEADER_SIZE) reply_data)
                  (len header) presponse with
          | None =>
              g_set_error FWUPD_ERROR_INTERNAL (Literal "Invalid value") ;;
              return_FALSE
          | Some presponse' =>
              if (cmd0 header =? GX_CMD_ACK) && data_reply
              then goodixfp_device_cmd_recv_loop bound' presponse' data_reply
              else mret presponse'
          end
      end
  end.

Definition goodixfp_device_cmd_recv (bound : nat) (presponse : gxfp_cmd_response_t)
                                    (data_reply : bool) : M gxfp_cmd_response_t :=
  goodixfp_device_cmd_recv_loop bound presponse data_reply.

Definition fu_goodixfp_device_cmd_xfer (bound : nat) (cmd0 cmd1 pkg_eop : Z)
             (request : list Z) (presponse : gxfp_cmd_response_t)
             (data_reply : bool) : M gxfp_cmd_response_t :=
  goodixfp_device_cmd_send cmd0 cmd1 pkg_eop request ;;
  goodixfp_device_cmd_recv bound presponse data_reply.

(** [g_strdup] of a NUL-terminated buffer. *)
Fixpoint g_strdup (buf : list Z) : list Z :=
  match buf with
  | [] => []
  | b :: rest => if b =? 0 then [] else b :: g_strdup rest
  end.

Definition fu_goodixfp_device_get_version (bound : nat) : M Version :=
  let dummy := 0 in
  let request := [dummy] in
  reponse <- fu_goodixfp_device_cmd_xfer bound GX_CMD_VERSION GX_CMD1_DEFAULT 0
               request reponse_zero true ;;
  let ver := firstn 8 (fwversion reponse) ++ [0] in
  mret (VersionPlain (g_strdup ver)).

Definition fu_goodixfp_device_update_init (bound : nat) : M unit :=
  let request := [] in
  reponse <- fu_goodixfp_device_cmd_xfer bound GX_CMD_UPGRADE GX_CMD_UPGRADE_INIT 0
               request reponse_zero true ;;
  if result reponse =? 0 then mret tt else return_FALSE.

Definition fu_goodixfp_device_attach (bound : nat) : M unit :=
  let request := [] in
  fu_device_set_status FWUPD_STATUS_DEVICE_RESTART ;;
  (* reset device *)
  reponse <- fu_goodixfp_device_cmd_xfer bound GX_CMD_RESET 0x03 0
               request reponse_zero false ;;
  if negb (result reponse =? 0) then return_FALSE else
  fu_device_add_flag FWUPD_DEVICE_FLAG_WAIT_FOR_REPLUG.

Definition fu_goodixfp_device_open : M unit := library_call EvOpen.

Definition fu_goodixfp_device_setup (bound : nat) : M unit :=
  r <- with_error_local (fu_goodixfp_device_get_version bound) ;;
  match r with
  | (TRUE version, _) =>
      emit (EvDebug "obtained fwver using API '%s'") ;;
      fu_device_set_version version
  | (FALSE, Some error_local) =>
      emit (EvWarning (FormatMessage "failed to get firmware version: %s"
                                     (message error_local)))
  | (FALSE, None) => undefined    (* error_local->message through NULL *)
  end ;;
  (* success *)
  mret tt.

(** A [FuChunk] of fu-chunk.h. *)
Record FuChunk := mkChunk {
  idx : Z;
  address : Z;
  data : list Z
}.
Definition data_sz (chk : FuChunk) : Z := Z.of_nat (List.length (data chk)).

Fixpoint fu_chunk_array_loop (rounds : nat) (idx address : Z) (rest : list Z)
                             (packet_sz : nat) : list FuChunk :=
  match rounds, rest with
  | S rounds', _ :: _ =>
      let piece := firstn packet_sz rest in
      mkChunk idx address piece
      :: fu_chunk_array_loop rounds' (idx + 1)
           (address + Z.of_nat (List.length piece)) (skipn packet_sz rest) packet_sz
  | _, _ => []
  end.

(** Modelled from the spec: [fu_chunk_array_new_from_bytes] of fu-chunk.c,
    which is not among the sources, without pages (page_sz 0).  The spec's
    chunker "produces ceil(len/chunk_size) chunks covering [0, len), final
    chunk shorter if not evenly divisible", in ascending contiguous order. *)
Definition fu_chunk_array_new_from_bytes (fw : list Z) (addr_start packet_sz : Z)
  : list FuChunk :=
  fu_chunk_array_loop (List.length fw) 0 addr_start fw (Z.to_nat packet_sz).

(** The for loop of [fu_goodixfp_device_write_firmware] from round [i] on:
    [chunks] are the chunks still to send, [chunks_len] is [chunks->len],
    and [wait_data_reply], [pkg_eop] and [reponse] are the variables of the
    function as the earlier rounds left them. *)
Fixpoint write_firmware_loop (bound : nat) (chunks : list FuChunk) (chunks_len i : Z)
           (wait_data_reply : bool) (pkg_eop : Z) (reponse : gxfp_cmd_response_t)
  : M unit :=
  match chunks with
  | [] => mret tt
  | chk :: chunks' =>
      let request := data chk in
      let last := i =? u32 (chunks_len - 1) in   (* the last chunk *)
      let wait_data_reply := if last then true else wait_data_reply in
      let pkg_eop := if last then 0 else pkg_eop in
      r <- with_error_local
             (fu_goodixfp_device_cmd_xfer bound GX_CMD_UPGRADE GX_CMD_UPGRADE_DATA
                pkg_eop request reponse wait_data_reply) ;;
      match r with
      | (FALSE, Some error_local) =>
          g_set_error FWUPD_ERROR_WRITE
            (FormatMessage "failed to write: %s" (message error_local)) ;;
          return_FALSE
      | (FALSE, None) => undefined    (* error_local->message through NULL *)
      | (TRUE reponse', _) =>
          (* update progress *)
          fu_device_set_progress_full i chunks_len ;;
          write_firmware_loop bound chunks' chunks_len (i + 1)
                              wait_data_reply pkg_eop reponse'
      end
  end.

Definition fu_goodixfp_device_write_firmware (bound : nat)
             (firmware : FuFirmware) : M unit :=
  let wait_data_reply := false in
  let pkg_eop := 0x80 in
  (* get default image *)
  fw <- fu_firmware_get_image_default_bytes firmware ;;
  (* build packets *)
  let chunks := fu_chunk_array_new_from_bytes fw 0 GX_FLASH_TRANSFER_BLOCK_SIZE in
  (* don't auto-boot firmware *)
  fu_device_set_status FWUPD_STATUS_DEVICE_WRITE ;;
  r <- with_error_local (fu_goodixfp_device_update_init bound) ;;
  match r with
  | (FALSE, Some error_local) =>
      g_set_error FWUPD_ERROR_WRITE
        (FormatMessage "failed to init update: %s" (message error_local)) ;;
      return_FALSE
  | (FALSE, None) => undefined        (* error_local->message through NULL *)
  | (TRUE _, _) =>
      (* write each block *)
      write_firmware_loop bound chunks (Z.of_nat (List.length chunks)) 0
                          wait_data_reply pkg_eop reponse_zero
  end.

End Protocol.

End GoodixFp.

(** ** Vocabulary of the statements *)

(** Every run of [m] relates the world it starts in to the world it ends in
    by [R], whatever it returns. *)
Definition steps (R : World -> World -> Prop) {A} (m : M A) : Prop :=
  forall w r w', m w = Some (r, w') -> R w w'.

(** Events that neither select a bus address nor announce a flash
    operation. *)
Definition quiet (ev : Event) : bool :=
  match ev with
  | EvIoctl _ _ | EvDebugFlashErase _ | EvDebugFlashWrite _ _ => false
  | _ => true
  end.

(** The fields of the device are the same in both worlds. *)
Definition same_device (w w' : World) : Prop :=
  i2c_addr w' = i2c_addr w /\ active_partition w' = active_partition w /\
  aux_device_name w' = aux_device_name w /\ version w' = version w /\
  flags w' = flags w.

(** A relation between worlds that composes and looks neither at the script
    nor at the error slot nor at the events that [q] selects ... *)
Record Walk (q : Event -> bool) (R : World -> World -> Prop) : Prop := mkWalk {
  walk_same : forall w w', trace w' = trace w -> same_device w w' -> R w w';
  walk_trans : forall a b c, R a b -> R b c -> R a c;
  walk_quiet : forall w w' ev,
    trace w' = trace w ++ [ev] -> same_device w w' -> q ev = true -> R w w'
}.

(** ... nor at the fields of the device other than the bus address ... *)
Record WalkDevice (R : World -> World -> Prop) : Prop := mkWalkDevice {
  walk_device : forall w w',
    trace w' = trace w -> i2c_addr w' = i2c_addr w -> R w w'
}.

(** ... nor at the selection of a bus address ... *)
Record WalkIoctl (R : World -> World -> Prop) : Prop := mkWalkIoctl {
  walk_ioctl : forall w w' address ok,
    trace w' = trace w ++ [EvIoctl address ok] -> R w w';
  walk_addr : forall w w', trace w' = trace w -> R w w'
}.

(** ... nor at the announcement of a flash operation. *)
Record WalkFlash (R : World -> World -> Prop) : Prop := mkWalkFlash {
  walk_flash : forall w w' ev,
    trace w' = trace w ++ [ev] -> i2c_addr w' = i2c_addr w ->
    quiet ev = false -> (forall a ok, ev <> EvIoctl a ok) -> R w w'
}.

(** The run added events to the log, all of them in [P]. *)
Definition Emits (P : Event -> Prop) (w w' : World) : Prop :=
  exists evs, trace w' = trace w ++ evs /\ Forall P evs.

(** The log only grows. *)
Definition Grows (w w' : World) : Prop :=
  exists evs, trace w' = trace w ++ evs.

(** Every run of [m] that returns TRUE has logged [ev]. *)
Definition must_emit (ev : Event) {A} (m : M A) : Prop :=
  forall w a w', m w = Some (TRUE a, w') ->
    exists before after, trace w' = trace w ++ before ++ ev :: after.

(** The world a run ends in ([w0] when the model assigns it none). *)
Definition world_after {A} (run : option (ret A * World)) (w0 : World) : World :=
  match run with
  | Some (_, w) => w
  | None => w0
  end.

(** Whether a run returned TRUE, and the value it returned then ([a0]
    otherwise). *)
Definition succeeded {A} (run : option (ret A * World)) : bool :=
  match run with
  | Some (TRUE _, _) => true
  | _ => false
  end.
Definition value_after {A} (run : option (ret A * World)) (a0 : A) : A :=
  match run with
  | Some (TRUE a, _) => a
  | _ => a0
  end.

(** What a run returned and the world it ended in, cut down to what
    [observe] shows of it. *)
Definition observed {A B} (observe : World -> B) (run : option (ret A * World))
  : option (ret A * B) :=
  match run with
  | Some (r, w) => Some (r, observe w)
  | None => None
  end.

Definition is_warning (ev : Event) : bool :=
  match ev with
  | EvWarning _ => true
  | _ => false
  end.

(** [l] is an initial segment of [L]. *)
Definition prefix {X} (l L : list X) : Prop := exists rest, L = l ++ rest.

(** Events that [keep] does not select. *)
Definition unkept (keep : Event -> bool) (ev : Event) : Prop := keep ev = false.

(** The events of a run that [keep] selects are, in order, those of [L]
    when the run returns TRUE, and an initial segment of [L] when it returns
    FALSE. *)
Definition proto (keep : Event -> bool) (L : list Event) {A} (m : M A) : Prop :=
  forall w r w', m w = Some (r, w') ->
    exists evs, trace w' = trace w ++ evs /\
      match r with
      | TRUE _ => filter keep evs = L
      | FALSE => prefix (filter keep evs) L
      end.

Module ParadeVocabulary.
Import ParadeLspcon.

(** The announcements of flash operations: erase of a block, write of a
    buffer. *)
Definition is_flash_op (ev : Event) : bool :=
  match ev with
  | EvDebugFlashErase _ | EvDebugFlashWrite _ _ => true
  | _ => false
  end.

Definition flash_ops (evs : list Event) : list Event := filter is_flash_op evs.

(** The run announced no flash operation. *)
Abbreviation Silent := (Emits (unkept is_flash_op)).

(** The bus address is the default one, or the log shows a failed attempt to
    select the default one. *)
Definition page2_or_failed (w : World) : Prop :=
  i2c_addr w = I2C_ADDR_PAGE2 \/ In (EvIoctl I2C_ADDR_PAGE2 false) (trace w).

Definition KeepsPage2 (w w' : World) : Prop :=
  page2_or_failed w -> page2_or_failed w'.

(** The bus address is left alone. *)
Definition SameAddress (w w' : World) : Prop :=
  i2c_addr w' = i2c_addr w /\ Grows w w'.

(** The flash operations of a complete update of partition
    [target_partition] with [blob_fw]. *)
Definition flash_plan (target_partition : Z) (blob_fw : list Z) : list Event :=
  [EvDebugFlashErase (target_address_of target_partition);
   EvDebugFlashWrite blob_fw (target_address_of target_partition);
   EvDebugFlashErase 0;
   EvDebugFlashWrite (flag_data_of target_partition) 0].

(** The error of a failed verification. *)
Definition verification_error : GError :=
  mkGError FWUPD_ERROR_WRITE (Literal "flash contents do not match written data").

(** A device just opened: nothing logged, no error pending, page 2 selected. *)
Definition opened (replies : list Reply) (active : Z) : World :=
  mkWorld replies [] None I2C_ADDR_PAGE2 active (Some "DPDDC-B"%string) None [].

(** One round of [lspcon_poll_register] that does not end it: the register
    is read as [value], then the timer shows [elapsed] microseconds. *)
Definition answers_poll_round (round : Z * Z) : list Reply :=
  [RDone; RBytes [fst round]; RElapsed (snd round)].

(** Such a round reads a byte that does not match, within the ten seconds. *)
Definition misses (mask expected : Z) (round : Z * Z) : Prop :=
  byteb (fst round) = true /\ Z.land (fst round) mask <> expected /\
  0 <= snd round <= 10000000.

(** The error of a poll that ran out of time. *)
Definition poll_timed_out (register_address mask expected value : Z) : GError :=
  mkGError G_IO_ERROR_TIMED_OUT
    (Format "register %x did not read %x (mask %x) within 10 seconds: read %x"
            [register_address; expected; mask; value]).

(** *** Scripts of a device that answers as the plugin expects *)

Definition answers_register_read (value : Z) : list Reply := [RDone; RBytes [value]].
Definition answers_transmit_command (command_len : nat) : list Reply :=
  repeat RDone (command_len + 2).
Definition answers_wait_ready : list Reply :=
  [RDone; RDone; RDone] ++ answers_register_read 0 ++ answers_register_read 0.
Definition answers_unlock : list Reply :=
  [RDone] ++ answers_transmit_command 1 ++ answers_transmit_command 3
  ++ answers_wait_ready.
Definition answers_erase : list Reply :=
  answers_transmit_command 1 ++ answers_transmit_command 4
  ++ answers_register_read 0 ++ answers_wait_ready.
(** one page: both page-select registers, the guard, the window, the guard's
    release *)
Definition answers_write_page : list Reply := [RDone; RDone; RDone; RDone; RDone].
Definition answers_write (pages : nat) : list Reply :=
  repeat RDone 8 ++ List.concat (repeat answers_write_page pages) ++ [RDone].
Definition answers_read_page (page_data : list Z) : list Reply :=
  [RDone; RDone; RDone; RBytes page_data; RDone].
Definition answers_read (pages : list (list Z)) : list Reply :=
  List.concat (map answers_read_page pages).
Definition answers_relock : list Reply :=
  answers_transmit_command 1 ++ answers_transmit_command 3 ++ [RDone].

(** An image of the expected size, and the flash pages that hold it. *)
Definition image : list Z := repeat 0xA5 (Z.to_nat FLASH_BLOCK_SIZE).
Definition image_pages : list (list Z) := repeat (repeat 0xA5 256%nat) 256.
(** The pages of an erased block. *)
Definition blank_pages : list (list Z) := repeat (repeat 0xFF 256%nat) 256.
Definition flag_page (target_partition : Z) : list Z :=
  flag_data_of target_partition ++ repeat 0xFF 252.

(** A complete update, answered as expected throughout. *)
Definition answers_update (target_partition : Z) : list Reply :=
  answers_unlock ++ answers_erase ++ answers_write 256 ++ answers_read image_pages
  ++ answers_erase ++ answers_write 1 ++ answers_read [flag_page target_partition]
  ++ answers_relock.

(** A reload up to, and without, the read of the firmware revision: the
    probe of the active partition, one aux device found and opened, the OUI
    of Parade. *)
Definition answers_reload_until_version (partition : Z) : list Reply :=
  [RDone; RDone; RBytes [partition]; RDone;
   RCount 1; RDone; RDone; RBytes [0x00; 0x1C; 0xF8]].

(** A read of one byte during which the release of the guard fails. *)
Definition answers_read_release_fails : list Reply :=
  [RDone; RDone; RDone; RBytes (repeat 0xFF 256%nat); RFail].
(** A read of one byte during which the window read itself fails. *)
Definition answers_read_window_fails : list Reply :=
  [RDone; RDone; RDone; RFail; RDone].

(** An update that gets as far as the erase of the target partition and
    fails on the first register write of the image write. *)
Definition answers_update_write_fails : list Reply :=
  answers_unlock ++ answers_erase ++ [RFail].

(** An update whose image write the device takes, and whose read back
    finds the block still blank. *)
Definition answers_update_reads_blank : list Reply :=
  answers_unlock ++ answers_erase ++ answers_write 256 ++ answers_read blank_pages.

End ParadeVocabulary.

Module GoodixVocabulary.
Import GoodixFp.

(** The version of the device is the same in both worlds. *)
Definition SameVersion (w w' : World) : Prop := version w' = version w.

(** The world after one more bulk read that the device answered. *)
Definition after_read (rest : list Reply) (w : World) : World :=
  set_script rest (set_trace (trace w ++ [EvBulkIn GX_FLASH_TRANSFER_BLOCK_SIZE]) w).

(** An answer the bulk read accepts: a count within the buffer, and the
    buffer's bytes. *)
Definition read_answer (actual_len : Z) (buf : list Z) : Prop :=
  0 <= actual_len <= GX_FLASH_TRANSFER_BLOCK_SIZE /\
  Z.of_nat (List.length buf) = GX_FLASH_TRANSFER_BLOCK_SIZE /\
  forallb byteb buf = true.

(** The error of a package whose checksum is wrong. *)
Definition invalid_checksum : GError :=
  mkGError FWUPD_ERROR_INTERNAL (Literal "Invalid checksum").

Section Frames.
Context {P : GxProto}.

(** The buffer holds a package with this header that lies within the
    buffer. *)
Definition holds_package (actual_len : Z) (buf : list Z) (header : pack_header) : Prop :=
  read_answer actual_len buf /\ actual_len <> 0 /\
  gx_proto_parse_header buf actual_len = Some header /\
  0 <= PACKAGE_HEADER_SIZE /\ 0 <= len header /\
  PACKAGE_HEADER_SIZE + len header + 4 <= GX_FLASH_TRANSFER_BLOCK_SIZE.

(** The checksum computed over header and payload, and the one the package
    carries behind them. *)
Definition computed_crc (buf : list Z) (header : pack_header) : Z :=
  u32 (gx_proto_crc32_calc
         (firstn (Z.to_nat (PACKAGE_HEADER_SIZE + len header)) buf)).
Definition carried_crc (buf : list Z) (header : pack_header) : Z :=
  uint32_from_le (skipn (Z.to_nat (PACKAGE_HEADER_SIZE + len header)) buf).

(** The buffer holds a valid package, whose body turns the response
    [presponse] into [presponse']. *)
Definition valid_package (actual_len : Z) (buf : list Z) (header : pack_header)
           (presponse presponse' : gxfp_cmd_response_t) : Prop :=
  holds_package actual_len buf header /\
  computed_crc buf header = carried_crc buf header /\
  gx_proto_parse_body (cmd0 header) (skipn (Z.to_nat PACKAGE_HEADER_SIZE) buf)
                      (len header) presponse = Some presponse'.

(** Follows the spec's words: "every chunk before the last is transmitted
    with end-of-package byte 0x80 and without waiting for a data reply, while
    the final chunk, and only the final chunk, is transmitted with
    end-of-package byte 0 and with the receive loop waiting for a data reply;
    progress reported after chunk i is (i, total_chunks)". *)
Fixpoint send_chunks (bound : nat) (chunks : list FuChunk) (total_chunks i : Z)
                     (reponse : gxfp_cmd_response_t) : M unit :=
  match chunks with
  | [] => mret tt
  | chk :: chunks' =>
      let final := i =? total_chunks - 1 in
      r <- with_error_local
             (fu_goodixfp_device_cmd_xfer bound GX_CMD_UPGRADE GX_CMD_UPGRADE_DATA
                (if final then 0 else 0x80) (data chk) reponse final) ;;
      match r with
      | (FALSE, Some error_local) =>
          g_set_error FWUPD_ERROR_WRITE
            (FormatMessage "failed to write: %s" (message error_local)) ;;
          return_FALSE
      | (FALSE, None) => undefined
      | (TRUE reponse', _) =>
          fu_device_set_progress_full i total_chunks ;;
          send_chunks bound chunks' total_chunks (i + 1) reponse'
      end
  end.

(** The packages put on the wire and the progress reports. *)
Definition is_transfer (ev : Event) : bool :=
  match ev with
  | EvBulkOut (_ :: _) => true
  | EvProgress _ _ => true
  | _ => false
  end.
Definition not_transfer (ev : Event) : bool := negb (is_transfer ev).

(** Follows the spec's words, on the wire: for chunk [i] of [total_chunks]
    the package of the chunk, with end-of-package byte 0 for the final chunk
    and 0x80 for every other, then the progress report (i, total_chunks). *)
Fixpoint chunk_plan (chunks : list FuChunk) (total_chunks i : Z) : list Event :=
  match chunks with
  | [] => []
  | chk :: chunks' =>
      EvBulkOut (build_package GX_CMD_UPGRADE GX_CMD_UPGRADE_DATA
                   (if i =? total_chunks - 1 then 0 else 0x80) (data chk))
      :: EvProgress i total_chunks
      :: chunk_plan chunks' total_chunks (i + 1)
  end.

End Frames.

(** *** A package layout for the examples *)

(** Modelled from the spec: fu-goodixfp-common.c is not among the sources.
    The layout follows section 4.1 of the spec: a header of payload length,
    cmd0, cmd1 and end-of-package flag, the payload, and a CRC32 over both,
    little-endian.  The command codes and the response are placeholders of
    the right shape. *)
Record example_response := mkResponse {
  ex_result : Z;
  ex_fwversion : list Z
}.

Fixpoint crc32_bits (n : nat) (c : Z) : Z :=
  match n with
  | O => c
  | S n' =>
      crc32_bits n' (if Z.testbit c 0
                     then Z.lxor (Z.shiftr c 1) 0xEDB88320
                     else Z.shiftr c 1)
  end.

Definition example_crc32 (bs : list Z) : Z :=
  Z.lxor (fold_left (fun c b => crc32_bits 8 (Z.lxor c b)) bs 0xFFFFFFFF) 0xFFFFFFFF.

Definition example_header (len cmd0 cmd1 pkg_eop : Z) : list Z :=
  [Z.land len 0xFF; Z.land (Z.shiftr len 8) 0xFF; cmd0; cmd1; pkg_eop].

Definition example_parse_header (buf : list Z) (bufsz : Z) : option pack_header :=
  if bufsz <? 5 then None
  else Some (mkHeader (nth 0 buf 0 + 256 * nth 1 buf 0)
                      (nth 2 buf 0) (nth 3 buf 0) (nth 4 buf 0)).

Definition example_parse_body (cmd : Z) (buf : list Z) (bufsz : Z)
                              (presp : example_response) : option example_response :=
  if bufsz =? 0 then None
  else if cmd =? 0xD0
       then Some (mkResponse (nth 0 buf 0) (firstn 8 (skipn 1 buf)))
       else Some (mkResponse (nth 0 buf 0) (ex_fwversion presp)).

Definition example_proto : GxProto := {|
  gxfp_cmd_response_t := example_response;
  reponse_zero := mkResponse 0 (repeat 0 8);
  result := ex_result;
  fwversion := ex_fwversion;
  PACKAGE_HEADER_SIZE := 5;
  GX_CMD_ACK := 0xAA;
  GX_CMD_VERSION := 0xD0;
  GX_CMD_RESET := 0xB4;
  GX_CMD_UPGRADE := 0x80;
  GX_CMD_UPGRADE_INIT := 0x00;
  GX_CMD_UPGRADE_DATA := 0x01;
  GX_CMD1_DEFAULT := 0x00;
  init_pack_header := example_header;
  gx_proto_crc32_calc := example_crc32;
  gx_proto_parse_header := example_parse_header;
  gx_proto_parse_body := example_parse_body
|}.

(** A package of the example layout, and the 1000-byte buffer that holds it
    after a read. *)
Definition example_package (cmd0 cmd1 pkg_eop : Z) (payload : list Z) : list Z :=
  build_package (P := example_proto) cmd0 cmd1 pkg_eop payload.
Definition in_buffer (package : list Z) : list Z :=
  package ++ repeat 0 (1000 - List.length package).
Definition answers_package (package : list Z) : Reply :=
  RBulk (Z.of_nat (List.length package)) (in_buffer package).
(** The same, with the last byte of the checksum changed. *)
Definition corrupted (package : list Z) : list Z :=
  removelast package ++ [Z.lxor (last package 0) 1].

(** The answer to a version query, and an acknowledgement. *)
Definition version_package : list Z :=
  example_package 0xD0 0 0 [0; 49; 50; 51; 52; 53; 54; 55; 56].
Definition ack_package : list Z := example_package 0xAA 0 0 [0; 0xD0].

(** A zero-length read. *)
Definition answers_zlp : Reply := RBulk 0 (repeat 0 1000).

(** What the device answers to a request it takes whole and replies to
    with one package. *)
Definition answers_xfer (request_package reply_package : list Z) : list Reply :=
  [RDone; RBulk (Z.of_nat (List.length request_package)) [];
   answers_package reply_package].

(** Three chunks of an image of 2500 bytes. *)
Definition example_chunks : list FuChunk :=
  fu_chunk_array_new_from_bytes (repeat 0x5A 2500) 0 GX_FLASH_TRANSFER_BLOCK_SIZE.

Definition chunk_package (pkg_eop : Z) (chk : FuChunk) : list Z :=
  example_package 0x80 0x01 pkg_eop (data chk).
(** The reply to the last chunk. *)
Definition upgrade_reply : list Z := example_package 0x80 0x01 0 [0].

(** The device acknowledges each of the three chunks and, after the
    acknowledgement of the last, replies to it. *)
Definition answers_three_chunks : list Reply :=
  answers_xfer (chunk_package 0x80 (nth 0 example_chunks (mkChunk 0 0 []))) ack_package
  ++ answers_xfer (chunk_package 0x80 (nth 1 example_chunks (mkChunk 0 0 []))) ack_package
  ++ answers_xfer (chunk_package 0 (nth 2 example_chunks (mkChunk 0 0 []))) ack_package
  ++ [answers_package upgrade_reply].

(** The device takes a version query whole and replies with a package whose
    checksum is wrong. *)
Definition answers_version_corrupted : list Reply :=
  answers_xfer (example_package 0xD0 0x00 0 [0]) (corrupted version_package).

(** A device just opened. *)
Definition plugged (replies : list Reply) : World :=
  mkWorld replies [] None 0 0 None None [].

End GoodixVocabulary.
(** ** Vocabulary of further statements *)

(** The world after the environment answered further calls: the answers are
    consumed and the calls logged. *)
Definition answered (rest : list Reply) (evs : list Event) (w : World) : World :=
  set_script rest (set_trace (trace w ++ evs) w).

(** [m] runs to its end on the answers the script starts with: it returns
    [x] and leaves [rest] of the script, and neither the error slot nor the
    bus address differ from what they were. *)
Definition completes {A} (m : M A) (x : A) (rest : list Reply) (w : World) : Prop :=
  exists w', m w = Some (TRUE x, w') /\
    script w' = rest /\ gerror w' = gerror w /\ i2c_addr w' = i2c_addr w.

(** The error a failing library call leaves. *)
Definition library_error : GError := mkGError LIBRARY_ERROR LibraryText.

(** The GError convention: no run empties the error slot, and a run that
    returns FALSE (or NULL) leaves an error in it. *)
Definition reports_failure {A} (m : M A) : Prop :=
  forall w r w', m w = Some (r, w') ->
    (gerror w <> None -> gerror w' <> None) /\ (r = FALSE -> gerror w' <> None).

(** A run that returns TRUE (or a pointer) leaves the error slot as it
    was. *)
Definition succeeds_cleanly {A} (m : M A) : Prop :=
  forall w a w', m w = Some (TRUE a, w') -> gerror w' = gerror w.

(** The fields of the device other than the bus address are the same in
    both worlds. *)
Definition SameFields (w w' : World) : Prop :=
  active_partition w' = active_partition w /\
  aux_device_name w' = aux_device_name w /\
  version w' = version w /\ flags w' = flags w.

(** The run went on from [w] to [w']: it consumed answers from the head of
    the script and added events to the log. *)
Definition Onward (w w' : World) : Prop :=
  (exists consumed, script w = consumed ++ script w') /\
  (exists evs, trace w' = trace w ++ evs).

(** Any event. *)
Definition any_event (ev : Event) : bool := true.

(** ** Vocabulary of the register and window traffic *)

Module ParadeTraffic.
Import ParadeLspcon ParadeVocabulary.

(** The register writes that transmit [command] to the flash: its bytes into
    the write FIFO, its length less one, and the trigger of a write-only
    transaction. *)
Definition command_writes (command : list Z) : list Event :=
  map (fun b => EvI2cWrite [REG_ADDR_WR_FIFO; b]) command
  ++ [EvI2cWrite [REG_ADDR_SPI_LEN; Z.of_nat (List.length command) - 1];
      EvI2cWrite [REG_ADDR_SPI_CTL; 0x05]].

(** The flash as the window shows it: [flash a] is the byte at address
    [a], [flash_bytes flash a n] the [n] bytes from [a] on, and
    [flash_page flash p] the 256 bytes of page [p]. *)
Definition flash_bytes (flash : Z -> Z) (address : Z) (n : nat) : list Z :=
  map (fun i => flash (address + Z.of_nat i)) (seq 0 n).
Definition flash_page (flash : Z -> Z) (page : Z) : list Z :=
  flash_bytes flash (256 * page) 256.

(** The number of pages that hold the [len] bytes from [base_address] on. *)
Definition pages_spanned (base_address len : Z) : nat :=
  if len <=? 0 then 0%nat
  else Z.to_nat ((base_address + len - 1) / 256 - base_address / 256 + 1).

(** A device that answers every call of a read of [len] bytes at
    [base_address] and shows, window read after window read, the pages of
    [flash] from the one that holds [base_address] on. *)
Definition answers_flash_read (flash : Z -> Z) (base_address len : Z) : list Reply :=
  answers_read
    (map (fun i => flash_page flash (base_address / 256 + Z.of_nat i))
         (seq 0 (pages_spanned base_address len))).

(** One read of the status register of the flash that the controller
    completes at once: what the device answers and what is logged. *)
Definition answers_status (status : Z) : list Reply :=
  [RDone; RDone; RDone] ++ answers_register_read 0 ++ answers_register_read status.
Definition status_read_events : list Event :=
  [EvI2cWrite [REG_ADDR_WR_FIFO; 0x05]; EvI2cWrite [REG_ADDR_SPI_LEN; 0];
   EvI2cWrite [REG_ADDR_SPI_CTL; SPI_CTL_TRIGGER];
   EvI2cWrite [REG_ADDR_SPI_CTL]; EvI2cRead 1;
   EvI2cWrite [REG_ADDR_RD_FIFO]; EvI2cRead 1].

(** One round of [flash_wait_ready] that does not end it: the status is
    read as [status], and after the sleep the timer shows [elapsed]
    microseconds. *)
Definition answers_busy_round (round : Z * Z) : list Reply :=
  answers_status (fst round) ++ [RElapsed (snd round)].
Definition busy_round_events : list Event := status_read_events ++ [EvSleep 1000].
(** Such a round reads a status with the BUSY bit set, within the ten
    seconds. *)
Definition busy (round : Z * Z) : Prop :=
  byteb (fst round) = true /\ Z.land (fst round) 1 <> 0 /\
  0 <= snd round <= 10000000.

(** The error of a flash that stays busy. *)
Definition flash_not_ready : GError :=
  mkGError G_IO_ERROR_TIMED_OUT (Literal "flash did not become ready within 10 seconds").

(** What an erase logs when the controller and the flash complete at
    once: the announcement, the write-enable command, the erase command, the
    poll of the controller and one read of the status register. *)
Definition erase_events (base_address : Z) : list Event :=
  [EvDebugFlashErase base_address]
  ++ command_writes [0x06]
  ++ command_writes [0xd8; base_address / 65536; 0; 0]
  ++ [EvI2cWrite [REG_ADDR_SPI_STATUS]; EvI2cRead 1]
  ++ status_read_events.

(** The bus address the handle is bound to after the events [evs], when it
    was bound to [address] before them. *)
Fixpoint address_after (address : Z) (evs : list Event) : Z :=
  match evs with
  | [] => address
  | EvIoctl a true :: evs' => address_after a evs'
  | _ :: evs' => address_after address evs'
  end.

(** The bus addresses at which the window reads among [evs], the reads of
    256 bytes, were issued. *)
Fixpoint window_read_addresses (address : Z) (evs : list Event) : list Z :=
  match evs with
  | [] => []
  | EvIoctl a true :: evs' => window_read_addresses a evs'
  | EvI2cRead n :: evs' =>
      if n =? 256 then address :: window_read_addresses address evs'
      else window_read_addresses address evs'
  | _ :: evs' => window_read_addresses address evs'
  end.

(** The run read the window only with page 7 selected, and the handle is
    bound as the log says. *)
Definition ReadsWindowOnPage7 (w w' : World) : Prop :=
  exists evs, trace w' = trace w ++ evs /\
    i2c_addr w' = address_after (i2c_addr w) evs /\
    Forall (fun a => a = I2C_ADDR_PAGE7) (window_read_addresses (i2c_addr w) evs).

(** The events that neither select an address nor read the window. *)
Definition off_window (ev : Event) : bool :=
  match ev with
  | EvIoctl _ _ => false
  | EvI2cRead n => negb (n =? 256)
  | _ => true
  end.

(** The writes of the two page registers. *)
Definition is_map_write (ev : Event) : bool :=
  match ev with
  | EvI2cWrite [register_addr; _] =>
      (register_addr =? REG_ADDR_FLASH_ADDR_HI) || (register_addr =? REG_ADDR_FLASH_ADDR_LO)
  | _ => false
  end.

(** The register writes that map page [page] into the window: the high
    byte of its number, then the low byte. *)
Definition page_map_writes (page : Z) : list Event :=
  [EvI2cWrite [REG_ADDR_FLASH_ADDR_HI; page / 256];
   EvI2cWrite [REG_ADDR_FLASH_ADDR_LO; page mod 256]].

(** The reads of the window, and the accesses to a page: the writes of the
    page registers and the reads of the window. *)
Definition is_window_read (ev : Event) : bool :=
  match ev with
  | EvI2cRead n => n =? 256
  | _ => false
  end.
Definition is_page_access (ev : Event) : bool := is_map_write ev || is_window_read ev.
Definition not_page_access (ev : Event) : bool := negb (is_page_access ev).

(** The accesses of a read of [len] bytes at [base_address]: for each of
    the pages that hold the bytes, in ascending order, the mapping of the
    page and then one read of the window. *)
Definition page_access (page : Z) : list Event :=
  page_map_writes page ++ [EvI2cRead 256].
Definition read_plan (base_address len : Z) : list Event :=
  flat_map (fun i => page_access (base_address / 256 + Z.of_nat i))
           (seq 0 (pages_spanned base_address len)).

(** A write into the window: the offset byte 0, then the payload.  A
    register write starts with the address of the register, and no register
    of this file has address 0. *)
Definition is_window_write (ev : Event) : bool :=
  match ev with
  | EvI2cWrite (0 :: _) => true
  | _ => false
  end.
Definition not_window_write (ev : Event) : bool := negb (is_window_write ev).

(** The run wrote nothing into the window. *)
Abbreviation NoWindowWrite := (Emits (unkept is_window_write)).

(** [data] cut into pages of 256 bytes, the last one shorter when the
    length of [data] is no multiple of 256. *)
Fixpoint pages_of (rounds : nat) (data : list Z) : list (list Z) :=
  match rounds, data with
  | S rounds', _ :: _ => firstn 256 data :: pages_of rounds' (skipn 256 data)
  | _, _ => []
  end.
Definition window_pages (data : list Z) : list (list Z) :=
  pages_of (List.length data) data.
Definition window_writes (data : list Z) : list Event :=
  map (fun page => EvI2cWrite (0 :: page)) (window_pages data).

(** The device answers the probe of the active partition with
    [partition]. *)
Definition answers_probe (partition : Z) : list Reply :=
  [RDone; RDone; RBytes [partition]; RDone].
Definition probe_events : list Event :=
  [EvIoctl I2C_ADDR_PAGE5 true; EvI2cWrite [REG_ADDR_ACTIVE_PARTITION]; EvI2cRead 1;
   EvIoctl I2C_ADDR_PAGE2 true].

(** The errors of a reload that stops at the partition number, at the
    search for the DP aux device or at its OUI. *)
Definition unexpected_partition (partition : Z) : GError :=
  mkGError FWUPD_ERROR_NOT_SUPPORTED
    (Format "unexpected active flash partition: %d" [partition]).
Definition no_aux_device (name : string) : GError :=
  mkGError FWUPD_ERROR_NOT_SUPPORTED
    (FormatString ("failed to locate a DP aux device named "
                   ++ dquote ++ "%s" ++ dquote) name).
Definition multiple_aux_devices (name : string) : GError :=
  mkGError FWUPD_ERROR_NOT_SUPPORTED
    (FormatString ("found multiple DP aux devices with name "
                   ++ dquote ++ "%s" ++ dquote) name).
Definition unexpected_oui (oui : Z) : GError :=
  mkGError FWUPD_ERROR_NOT_SUPPORTED
    (Format "device OUI %06X does not match expected value for Paradetech" [oui]).

(** The status reports. *)
Definition is_status (ev : Event) : bool :=
  match ev with
  | EvStatus _ => true
  | _ => false
  end.
Definition not_status (ev : Event) : bool := negb (is_status ev).

(** The status reports of a complete update: erase, write and verify for
    the target partition, then for the flag partition. *)
Definition status_plan : list Event :=
  [EvStatus FWUPD_STATUS_DEVICE_ERASE; EvStatus FWUPD_STATUS_DEVICE_WRITE;
   EvStatus FWUPD_STATUS_DEVICE_VERIFY;
   EvStatus FWUPD_STATUS_DEVICE_ERASE; EvStatus FWUPD_STATUS_DEVICE_WRITE;
   EvStatus FWUPD_STATUS_DEVICE_VERIFY].

End ParadeTraffic.


(** ** Vocabulary of the package exchange *)

Module GoodixExchange.
Import GoodixFp GoodixVocabulary.

(** The errors of the exchange of one package. *)
Definition failed_to_request : GError :=
  mkGError LIBRARY_ERROR (Prefixed "failed to request: " [] LibraryText).
Definition failed_to_reply : GError :=
  mkGError LIBRARY_ERROR (Prefixed "failed to reply: " [] LibraryText).
Definition invalid_length : GError :=
  mkGError FWUPD_ERROR_INTERNAL (Literal "Invalid length").
Definition invalid_value : GError :=
  mkGError FWUPD_ERROR_INTERNAL (Literal "Invalid value").

(** The world in which [fu_goodixfp_device_write_firmware] asks the device
    to start an update: the status is reported and [error_local] is
    empty. *)
Definition at_update_init (w : World) : World :=
  set_gerror None (set_trace (trace w ++ [EvStatus FWUPD_STATUS_DEVICE_WRITE]) w).

(** *** Answers of the example device *)

(** The query of the version and its reply, a reset and its
    acknowledgement, and the start of an update with a reply whose result
    is 1. *)
Definition answers_version : list Reply :=
  answers_xfer (example_package 0xD0 0x00 0 [0]) version_package.
Definition answers_reset : list Reply :=
  answers_xfer (example_package 0xB4 0x03 0 []) ack_package.
Definition answers_init_refused : list Reply :=
  answers_xfer (example_package 0x80 0x00 0 []) (example_package 0x80 0x00 0 [1]).
(** The start of an update with a reply whose result is 0. *)
Definition answers_init_accepted : list Reply :=
  answers_xfer (example_package 0x80 0x00 0 []) (example_package 0x80 0x00 0 [0]).

End GoodixExchange.

(** * Properties *)

(** ** Runs of composed computations *)

Lemma bind_inv {A B} (m : M A) (k : A -> M B) w r w' :
  bind m k w = Some (r, w') ->
  (exists a w1, m w = Some (TRUE a, w1) /\ k a w1 = Some (r, w'))
  \/ (m w = Some (FALSE, w') /\ r = FALSE).
Proof.
  unfold bind. destruct (m w) as [[[a|] w1]|]; intros H.
  - left. eauto.
  - right. inversion H. auto.
  - discriminate.
Qed.

Lemma bind_TRUE {A B} (m : M A) (k : A -> M B) w a w1 :
  m w = Some (TRUE a, w1) -> bind m k w = k a w1.
Proof. unfold bind. intros ->. reflexivity. Qed.

Lemma bind_FALSE {A B} (m : M A) (k : A -> M B) w w1 :
  m w = Some (FALSE, w1) -> bind m k w = Some (FALSE, w1).
Proof. unfold bind. intros ->. reflexivity. Qed.

Lemma bind_ext {A B} (m : M A) (k k' : A -> M B) w :
  (forall a w1, m w = Some (TRUE a, w1) -> k a w1 = k' a w1) ->
  bind m k w = bind m k' w.
Proof.
  intros H. unfold bind. destruct (m w) as [[[a|] w1]|]; auto.
Qed.

(** A run is known once its return value is: the world it ended in is the
    one [world_after] names. *)
Lemma run_shape {A} (run : option (ret A * World)) (r : ret A) (w0 : World) :
  observed (fun _ => tt) run = Some (r, tt) -> run = Some (r, world_after run w0).
Proof.
  destruct run as [[r' w1]|]; simpl; intros H; inversion H. reflexivity.
Qed.

Lemma observed_inv {A B} (observe : World -> B) (run : option (ret A * World))
      (r : ret A) (b : B) (w0 : World) :
  observed observe run = Some (r, b) ->
  run = Some (r, world_after run w0) /\ observe (world_after run w0) = b.
Proof.
  destruct run as [[r' w1]|]; simpl; intros H; inversion H. auto.
Qed.

Lemma walk_refl q R : Walk q R -> forall w, R w w.
Proof. intros HR w. apply (walk_same q R HR); repeat split. Qed.

Section Steps.
Variable q : Event -> bool.
Variable R : World -> World -> Prop.
Hypothesis HR : Walk q R.
Hypothesis Hwarning : forall m, q (EvWarning m) = true.

Lemma steps_bind {A B} (m : M A) (k : A -> M B) :
  steps R m -> (forall a, steps R (k a)) -> steps R (bind m k).
Proof.
  intros Hm Hk w r w' H. apply bind_inv in H.
  destruct H as [(a & w1 & H1 & H2) | (H1 & _)].
  - eapply (walk_trans q R HR); [eapply Hm | eapply Hk]; eauto.
  - eapply Hm; eauto.
Qed.

Lemma steps_mret {A} (a : A) : steps R (mret a).
Proof. intros w r w' H. inversion H. apply (walk_refl q), HR. Qed.

Lemma steps_return_FALSE {A} : steps R (@return_FALSE A).
Proof. intros w r w' H. inversion H. apply (walk_refl q), HR. Qed.

Lemma steps_undefined {A} : steps R (@undefined A).
Proof. intros w r w' H. discriminate. Qed.

Lemma steps_attempt {A} (m : M A) : steps R m -> steps R (attempt m).
Proof.
  intros Hm w r w' H. unfold attempt in H.
  destruct (m w) as [[r1 w1]|] eqn:E; inversion H; subst. eapply Hm; eauto.
Qed.

Lemma steps_on_failure {A} (m : M A) h :
  steps R m -> steps R h -> steps R (on_failure m h).
Proof.
  intros Hm Hh. unfold on_failure.
  apply steps_bind; [apply steps_attempt, Hm | intros [a|]].
  - apply steps_mret.
  - apply steps_bind; [exact Hh | intros _; apply steps_return_FALSE].
Qed.

Lemma steps_with_error_NULL {A} (m : M A) : steps R m -> steps R (with_error_NULL m).
Proof.
  intros Hm w r w' H. unfold with_error_NULL in H.
  destruct (m (set_gerror None w)) as [[r1 w1]|] eqn:E; inversion H; subst.
  eapply (walk_trans q R HR); [|eapply (walk_trans q R HR)].
  - apply (walk_same q R HR w (set_gerror None w)); repeat split.
  - eapply Hm; eauto.
  - apply (walk_same q R HR); repeat split.
Qed.

Lemma steps_with_error_local {A} (m : M A) :
  steps R m -> steps R (with_error_local m).
Proof.
  intros Hm w r w' H. unfold with_error_local in H.
  destruct (m (set_gerror None w)) as [[r1 w1]|] eqn:E; inversion H; subst.
  eapply (walk_trans q R HR); [|eapply (walk_trans q R HR)].
  - apply (walk_same q R HR w (set_gerror None w)); repeat split.
  - eapply Hm; eauto.
  - apply (walk_same q R HR); repeat split.
Qed.

Lemma steps_emit ev : q ev = true -> steps R (emit ev).
Proof.
  intros Hq w r w' H. inversion H; subst.
  apply (walk_quiet q R HR _ _ ev); auto; repeat split.
Qed.

Lemma steps_reply : steps R reply.
Proof.
  intros w r w' H. unfold reply in H.
  destruct (script w); inversion H; subst. apply (walk_same q R HR); repeat split.
Qed.

Lemma steps_g_set_error c m : steps R (g_set_error c m).
Proof.
  intros w r w' H. unfold g_set_error in H.
  destruct (gerror w); inversion H; subst.
  - apply (walk_quiet q R HR _ _ (EvWarning m)); [| | apply Hwarning]; repeat split.
  - apply (walk_same q R HR); repeat split.
Qed.

Lemma steps_g_prefix_error p args : steps R (g_prefix_error p args).
Proof.
  intros w r w' H. unfold g_prefix_error in H.
  destruct (gerror w); inversion H; subst; apply (walk_same q R HR); repeat split.
Qed.

Lemma steps_state {A} (f : World -> A) : steps R (fun w => Some (TRUE (f w), w)).
Proof. intros w r w' H. inversion H; subst. apply (walk_refl q), HR. Qed.

Lemma steps_emit_flash ev :
  WalkFlash R -> quiet ev = false -> (forall a ok, ev <> EvIoctl a ok) ->
  steps R (emit ev).
Proof.
  intros HF Hq Hn w r w' H. inversion H; subst.
  apply (walk_flash R HF _ _ ev); auto.
Qed.

End Steps.

(** The relations of the vocabulary are walks. *)

Lemma Walk_Emits q (P : Event -> Prop) :
  (forall ev, q ev = true -> P ev) -> Walk q (Emits P).
Proof.
  intros HP. split.
  - intros w w' Ht _. exists []. rewrite app_nil_r. auto.
  - intros a b c (e1 & H1 & F1) (e2 & H2 & F2). exists (e1 ++ e2).
    rewrite H2, H1, app_assoc. split; [reflexivity | apply Forall_app; auto].
  - intros w w' ev Ht _ Hq. exists [ev]. auto.
Qed.

Lemma WalkIoctl_Emits (P : Event -> Prop) :
  (forall a ok, P (EvIoctl a ok)) -> WalkIoctl (Emits P).
Proof.
  intros HP. split.
  - intros w w' a ok Ht. exists [EvIoctl a ok]. auto.
  - intros w w' Ht. exists []. rewrite app_nil_r. auto.
Qed.

Lemma Walk_Grows q : Walk q Grows.
Proof.
  split.
  - intros w w' Ht _. exists []. rewrite app_nil_r. auto.
  - intros a b c (e1 & H1) (e2 & H2). exists (e1 ++ e2).
    rewrite H2, H1, app_assoc. reflexivity.
  - intros w w' ev Ht _ _. exists [ev]. auto.
Qed.

Lemma WalkIoctl_Grows : WalkIoctl Grows.
Proof.
  split.
  - intros w w' a ok Ht. exists [EvIoctl a ok]. auto.
  - intros w w' Ht. exists []. rewrite app_nil_r. auto.
Qed.

Lemma WalkFlash_Grows : WalkFlash Grows.
Proof. split. intros w w' ev Ht _ _ _. exists [ev]. auto. Qed.

Create HintDb steps discriminated.
#[export] Hint Resolve steps_mret steps_return_FALSE steps_undefined steps_attempt
  steps_on_failure steps_with_error_NULL steps_with_error_local steps_reply steps_g_set_error
  steps_g_prefix_error steps_state : steps.

(** One step of a proof that a computation walks along [R]: split a bind,
    branch where the code branches, or close the goal with a known fact. *)
Ltac walk_step :=
  match goal with
  | |- steps _ (bind _ _) => eapply steps_bind; [solve [eauto with steps] | | intros ?]
  | |- steps _ (on_failure _ _) =>
      eapply steps_on_failure; [solve [eauto with steps] | | ]
  | |- steps _ (attempt _) => apply steps_attempt
  | |- steps _ (with_error_local _) =>
      eapply steps_with_error_local; [solve [eauto with steps] | ]
  | |- steps _ (with_error_NULL _) =>
      eapply steps_with_error_NULL; [solve [eauto with steps] | ]
  | |- steps _ (emit _) =>
      first [ eapply steps_emit;
              [solve [eauto with steps]
              | first [assumption | reflexivity | solve [auto]]]
            | apply steps_emit_flash;
              [solve [auto with steps] | reflexivity | discriminate] ]
  | |- steps _ (match ?x with _ => _ end) => destruct x
  | |- steps _ (if ?c then _ else _) => destruct c
  | |- steps _ _ => solve [eauto with steps]
  end.
Ltac walk := solve [repeat walk_step].

(** ** What every function of the LSPCON plugin leaves alone *)

Module ParadeWalks.
Import ParadeLspcon ParadeVocabulary.

Lemma quiet_warning m : quiet (EvWarning m) = true.
Proof. reflexivity. Qed.

#[export] Hint Resolve quiet_warning : steps.

Section Generic.
Variable R : World -> World -> Prop.
Hypothesis HR : Walk quiet R.

Lemma steps_library_call ev : quiet ev = true -> steps R (library_call ev).
Proof. intros Hq. unfold library_call. walk. Qed.

Lemma steps_library_read ev n : quiet ev = true -> steps R (library_read ev n).
Proof. intros Hq. unfold library_read. walk. Qed.

Lemma steps_fu_device_set_status s : steps R (fu_device_set_status s).
Proof. unfold fu_device_set_status. walk. Qed.

Lemma steps_fu_device_set_progress_full c t : steps R (fu_device_set_progress_full c t).
Proof. unfold fu_device_set_progress_full. walk. Qed.

Lemma steps_g_usleep t : steps R (g_usleep t).
Proof. unfold g_usleep. walk. Qed.

Lemma steps_fu_device_set_version v :
  WalkDevice R -> steps R (fu_device_set_version v).
Proof.
  intros HD w r w' H. inversion H; subst. apply (walk_device R HD); reflexivity.
Qed.

Lemma steps_fu_device_add_flag f : WalkDevice R -> steps R (fu_device_add_flag f).
Proof.
  intros HD w r w' H. inversion H; subst. apply (walk_device R HD); reflexivity.
Qed.

Lemma steps_g_timer_elapsed : steps R g_timer_elapsed.
Proof. unfold g_timer_elapsed. walk. Qed.

Lemma steps_g_return_val_if_fail c : steps R (g_return_val_if_fail c).
Proof. unfold g_return_val_if_fail. walk. Qed.

Lemma steps_fu_firmware_get_bytes f : steps R (fu_firmware_get_bytes f).
Proof. unfold fu_firmware_get_bytes. walk. Qed.

#[local] Hint Resolve steps_library_call steps_library_read steps_fu_device_set_status
  steps_fu_device_set_progress_full steps_g_usleep steps_fu_device_set_version
  steps_fu_device_add_flag steps_g_timer_elapsed steps_g_return_val_if_fail
  steps_fu_firmware_get_bytes : steps.

Lemma steps_fu_i2c_device_write_full bs : steps R (fu_i2c_device_write_full bs).
Proof. unfold fu_i2c_device_write_full. auto with steps. Qed.

Lemma steps_fu_i2c_device_write b : steps R (fu_i2c_device_write b).
Proof. unfold fu_i2c_device_write. auto with steps. Qed.

Lemma steps_fu_i2c_device_read_full n : steps R (fu_i2c_device_read_full n).
Proof. unfold fu_i2c_device_read_full. auto with steps. Qed.

Lemma steps_fu_i2c_device_read : steps R fu_i2c_device_read.
Proof. unfold fu_i2c_device_read. walk. Qed.

#[local] Hint Resolve steps_fu_i2c_device_write_full steps_fu_i2c_device_write
  steps_fu_i2c_device_read_full steps_fu_i2c_device_read : steps.

Lemma steps_lspcon_write_register a v : steps R (lspcon_write_register a v).
Proof. unfold lspcon_write_register. walk. Qed.

Lemma steps_lspcon_read_register a : steps R (lspcon_read_register a).
Proof. unfold lspcon_read_register. walk. Qed.

#[local] Hint Resolve steps_lspcon_write_register steps_lspcon_read_register : steps.

Lemma steps_lspcon_map_page a : steps R (lspcon_map_page a).
Proof. unfold lspcon_map_page. walk. Qed.

Lemma steps_lspcon_poll_register bound a mask expected :
  steps R (lspcon_poll_register bound a mask expected).
Proof.
  unfold lspcon_poll_register.
  induction bound as [|bound IH]; simpl; walk.
Qed.

Lemma steps_write_fifo command : steps R (write_fifo command).
Proof. induction command as [|b rest IH]; simpl; walk. Qed.

Lemma steps_write_map_write values : steps R (write_map_write values).
Proof. induction values as [|b rest IH]; simpl; walk. Qed.

#[local] Hint Resolve steps_lspcon_map_page steps_lspcon_poll_register
  steps_write_fifo steps_write_map_write : steps.

Lemma steps_flash_transmit_command command : steps R (flash_transmit_command command).
Proof. unfold flash_transmit_command. walk. Qed.

#[local] Hint Resolve steps_flash_transmit_command : steps.

Lemma steps_flash_enable_write : steps R flash_enable_write.
Proof. unfold flash_enable_write. walk. Qed.

Lemma steps_flash_read_status bound : steps R (flash_read_status bound).
Proof. unfold flash_read_status. walk. Qed.

#[local] Hint Resolve steps_flash_enable_write steps_flash_read_status : steps.

Lemma steps_flash_wait_ready bound : steps R (flash_wait_ready bound).
Proof.
  unfold flash_wait_ready. generalize bound at 2. intros inner.
  induction bound as [|bound IH]; simpl; walk.
Qed.

Lemma steps_fu_memcpy_safe dst_sz dst_offset src src_offset n :
  steps R (fu_memcpy_safe dst_sz dst_offset src src_offset n).
Proof. unfold fu_memcpy_safe. walk. Qed.

Lemma steps_set_mpu_running running : steps R (set_mpu_running running).
Proof. unfold set_mpu_running. walk. Qed.

Lemma steps_write_firmware_relock : steps R write_firmware_relock.
Proof. unfold write_firmware_relock. walk. Qed.

End Generic.

#[export] Hint Resolve steps_library_call steps_library_read steps_fu_device_set_status
  steps_fu_device_set_progress_full steps_g_usleep steps_fu_device_set_version
  steps_fu_device_add_flag steps_g_timer_elapsed steps_g_return_val_if_fail
  steps_fu_firmware_get_bytes
  steps_fu_i2c_device_write_full steps_fu_i2c_device_write
  steps_fu_i2c_device_read_full steps_fu_i2c_device_read
  steps_lspcon_write_register steps_lspcon_read_register
  steps_lspcon_map_page steps_lspcon_poll_register
  steps_write_fifo steps_write_map_write steps_flash_transmit_command
  steps_flash_enable_write steps_flash_read_status steps_flash_wait_ready
  steps_fu_memcpy_safe steps_set_mpu_running steps_write_firmware_relock : steps.

End ParadeWalks.

(** ** The address guard *)

Module ParadeGuard.
Import ParadeLspcon ParadeVocabulary ParadeWalks.

Lemma Walk_SameAddress q : Walk q SameAddress.
Proof.
  split.
  - intros w w' Ht Ha. split; [apply Ha | apply (walk_same q _ (Walk_Grows q)); auto].
  - intros a b c [A1 G1] [A2 G2]. split; [congruence |].
    eapply (walk_trans q _ (Walk_Grows q)); eauto.
  - intros w w' ev Ht Ha Hq. split; [apply Ha |].
    eapply (walk_quiet q _ (Walk_Grows q)); eauto.
Qed.

Lemma grows_failed w w' :
  Grows w w' -> In (EvIoctl I2C_ADDR_PAGE2 false) (trace w) ->
  In (EvIoctl I2C_ADDR_PAGE2 false) (trace w').
Proof. intros (evs & ->) H. apply in_or_app. auto. Qed.

Lemma same_address_keeps w w' :
  SameAddress w w' -> page2_or_failed w -> page2_or_failed w'.
Proof.
  intros [Ha Hg] [H | H]; [left; congruence | right; eapply grows_failed; eauto].
Qed.

Lemma Walk_KeepsPage2 q : Walk q KeepsPage2.
Proof.
  unfold KeepsPage2. split.
  - intros w w' Ht Ha. apply same_address_keeps.
    apply (walk_same q _ (Walk_SameAddress q)); auto.
  - auto.
  - intros w w' ev Ht Ha Hq. apply same_address_keeps.
    eapply (walk_quiet q _ (Walk_SameAddress q)); eauto.
Qed.

Lemma WalkFlash_KeepsPage2 : WalkFlash KeepsPage2.
Proof.
  unfold KeepsPage2. split. intros w w' ev Ht Ha _ _. apply same_address_keeps.
  split; [auto | exists [ev]; auto].
Qed.

Lemma Walk_quiet_Grows : Walk quiet Grows.
Proof. apply Walk_Grows. Qed.

Lemma Walk_quiet_SameAddress : Walk quiet SameAddress.
Proof. apply Walk_SameAddress. Qed.

Lemma Walk_quiet_KeepsPage2 : Walk quiet KeepsPage2.
Proof. apply Walk_KeepsPage2. Qed.

#[export] Hint Resolve Walk_quiet_Grows WalkIoctl_Grows WalkFlash_Grows
  Walk_quiet_SameAddress Walk_quiet_KeepsPage2 WalkFlash_KeepsPage2 : steps.

(** What one selection of a bus address does: on success the handle is
    bound to the address; on failure it stays where it was and the log shows
    the failed attempt. *)
Lemma ensure_i2c_address_inv address w r w' :
  ensure_i2c_address address w = Some (r, w') ->
  (r = TRUE tt /\ i2c_addr w' = address /\
   trace w' = trace w ++ [EvIoctl address true])
  \/ (r = FALSE /\ i2c_addr w' = i2c_addr w /\
      exists evs, trace w' = trace w ++ EvIoctl address false :: evs).
Proof.
  destruct w as [s t e a p n v f].
  unfold ensure_i2c_address, on_failure, attempt, fu_udev_device_ioctl_I2C_SLAVE,
    bind, reply,
    emit, g_set_error, g_prefix_error, return_FALSE, mret, undefined.
  destruct s as [|[] rest]; cbn; try discriminate.
  - destruct e; cbn; intros H; inversion H; subst; right;
      (split; [reflexivity | split; [reflexivity | cbn; eauto]]).
    rewrite <- app_assoc. cbn. eauto.
  - intros H; inversion H; subst. left. auto.
Qed.

(** Leaving a guarded scope: the default address is selected again, or the
    log shows that selecting it failed. *)
Lemma i2c_address_guard_dispose_inv guard w r w' :
  i2c_address_guard_dispose guard w = Some (r, w') ->
  r = TRUE tt /\ Grows w w' /\
  (i2c_addr w' = I2C_ADDR_PAGE2 \/ In (EvIoctl I2C_ADDR_PAGE2 false) (trace w')).
Proof.
  unfold i2c_address_guard_dispose, attempt, with_error_NULL. intros H.
  apply bind_inv in H. destruct H as [(a & w1 & H1 & H2) | (H1 & _)].
  - inversion H2; subst. clear H2.
    destruct (ensure_i2c_address I2C_ADDR_PAGE2 (set_gerror None w))
      as [[r1 w2]|] eqn:E; [|discriminate].
    inversion H1; subst. clear H1.
    apply ensure_i2c_address_inv in E.
    destruct E as [(_ & Ha & Ht) | (_ & Ha & evs & Ht)]; simpl in *.
    + split; [reflexivity | split; [eexists; eauto | left; auto]].
    + split; [reflexivity | split; [eexists; eauto | right]].
      rewrite Ht. apply in_or_app. right. left. reflexivity.
  - destruct (ensure_i2c_address I2C_ADDR_PAGE2 (set_gerror None w)) as [[r1 w2]|];
      discriminate.
Qed.

Lemma g_autoptr_scope_inv {A} guard (body : M A) w r w' :
  g_autoptr_scope guard body w = Some (r, w') ->
  exists rb w1, body w = Some (rb, w1) /\ r = rb /\
    match guard with
    | TRUE g => i2c_address_guard_dispose g w1 = Some (TRUE tt, w')
    | FALSE => w' = w1
    end.
Proof.
  unfold g_autoptr_scope, attempt. intros H.
  apply bind_inv in H. destruct H as [(rb & w1 & H1 & H2) | (H1 & _)].
  - destruct (body w) as [[rb' w1']|] eqn:E; [|discriminate].
    inversion H1; subst. clear H1. exists rb, w1. split; [reflexivity |].
    apply bind_inv in H2. destruct H2 as [(u & w2 & H2 & H3) | (H2 & _)].
    + assert (w' = w2 /\ r = rb) as [-> ->].
      { destruct rb; inversion H3; auto. }
      split; [reflexivity |]. destruct guard as [g|].
      * destruct (i2c_address_guard_dispose_inv _ _ _ _ H2) as (_ & _).
        destruct u. exact H2.
      * inversion H2. reflexivity.
    + destruct guard as [g|].
      * apply i2c_address_guard_dispose_inv in H2. destruct H2 as (H2 & _).
        discriminate.
      * discriminate.
  - destruct (body w) as [[rb' w1']|]; discriminate.
Qed.

(** A guarded scope whose body leaves the bus address alone keeps the
    default address, with the guard tested against NULL ... *)
Lemma guarded_keeps_page2 {A} address (body : M A) :
  steps SameAddress body -> steps KeepsPage2 body ->
  steps KeepsPage2 (guard <- i2c_address_guard_new address ;;
                    g_autoptr_scope (TRUE guard) body).
Proof.
  intros Hb _ w r w' H Inv.
  apply bind_inv in H. destruct H as [(g & w1 & H1 & H2) | (H1 & _)].
  - apply g_autoptr_scope_inv in H2. destruct H2 as (rb & w2 & _ & _ & H2).
    apply i2c_address_guard_dispose_inv in H2. apply H2.
  - unfold i2c_address_guard_new in H1.
    apply bind_inv in H1. destruct H1 as [(u & w1 & _ & H2) | (H1 & _)];
      [discriminate |].
    apply ensure_i2c_address_inv in H1.
    destruct H1 as [(H1 & _) | (_ & Ha & evs & Ht)]; [discriminate |].
    apply (same_address_keeps w w'); [split; [auto | eexists; eauto] | auto].
Qed.

(** ... and without the test. *)
Lemma unchecked_guard_keeps_page2 {A} address (body : M A) :
  steps SameAddress body -> steps KeepsPage2 body ->
  steps KeepsPage2 (guard <- attempt (i2c_address_guard_new address) ;;
                    g_autoptr_scope guard body).
Proof.
  intros Hb _ w r w' H Inv.
  apply bind_inv in H. destruct H as [(g & w1 & H1 & H2) | (H1 & _)].
  - apply g_autoptr_scope_inv in H2. destruct H2 as (rb & w2 & Hbody & _ & H2).
    destruct g as [g|].
    + apply i2c_address_guard_dispose_inv in H2. apply H2.
    + subst w2. unfold attempt in H1.
      destruct (i2c_address_guard_new address w) as [[r1 w3]|] eqn:E;
        [|discriminate].
      inversion H1; subst. clear H1.
      unfold i2c_address_guard_new in E.
      apply bind_inv in E. destruct E as [(u & w4 & _ & E) | (E & _)];
        [discriminate |].
      apply ensure_i2c_address_inv in E.
      destruct E as [(E & _) | (_ & Ha & evs & Ht)]; [discriminate |].
      apply (same_address_keeps w1 w'); [eapply Hb; eauto |].
      apply (same_address_keeps w w1); [split; [auto | eexists; eauto] | auto].
  - unfold attempt in H1.
    destruct (i2c_address_guard_new address w) as [[r1 w3]|]; discriminate.
Qed.

(** Where selecting an address is of no concern, a guarded scope is as
    good as its body. *)
Section Unconcerned.
Variable R : World -> World -> Prop.
Hypothesis HR : Walk quiet R.
Hypothesis HI : WalkIoctl R.

Lemma steps_ioctl address : steps R (fu_udev_device_ioctl_I2C_SLAVE address).
Proof.
  assert (He : forall ok, steps R (emit (EvIoctl address ok))).
  { intros ok w r w' H. inversion H; subst.
    apply (walk_ioctl R HI _ _ address ok). reflexivity. }
  assert (Ha : steps R (fun w => Some (TRUE tt, set_i2c_addr address w))).
  { intros w r w' H. inversion H; subst. apply (walk_addr R HI). reflexivity. }
  unfold fu_udev_device_ioctl_I2C_SLAVE.
  eapply steps_bind; [eassumption | eauto with steps | intros rp].
  destruct rp; eauto with steps; eapply steps_bind; eauto; intros _; walk.
Qed.

Lemma steps_ensure_i2c_address address : steps R (ensure_i2c_address address).
Proof.
  pose proof steps_ioctl. unfold ensure_i2c_address. walk.
Qed.

Lemma steps_i2c_address_guard_new address : steps R (i2c_address_guard_new address).
Proof.
  pose proof steps_ensure_i2c_address. unfold i2c_address_guard_new. walk.
Qed.

Lemma steps_i2c_address_guard_dispose guard :
  steps R (i2c_address_guard_dispose guard).
Proof.
  pose proof steps_ensure_i2c_address. unfold i2c_address_guard_dispose. walk.
Qed.

Lemma steps_g_autoptr_scope {A} guard (body : M A) :
  steps R body -> steps R (g_autoptr_scope guard body).
Proof.
  pose proof steps_i2c_address_guard_dispose.
  intros Hb. unfold g_autoptr_scope. walk.
Qed.

Lemma guarded_unconcerned {A} address (body : M A) :
  steps SameAddress body -> steps R body ->
  steps R (guard <- i2c_address_guard_new address ;;
           g_autoptr_scope (TRUE guard) body).
Proof.
  pose proof steps_i2c_address_guard_new. pose proof (@steps_g_autoptr_scope A).
  intros _ Hb. walk.
Qed.

Lemma unchecked_guard_unconcerned {A} address (body : M A) :
  steps SameAddress body -> steps R body ->
  steps R (guard <- attempt (i2c_address_guard_new address) ;;
           g_autoptr_scope guard body).
Proof.
  pose proof steps_i2c_address_guard_new. pose proof (@steps_g_autoptr_scope A).
  intros _ Hb. walk.
Qed.

End Unconcerned.

(** The functions that open a guarded scope, along any relation that guarded
    scopes respect. *)
Section Guarded.
Variable R : World -> World -> Prop.
Hypothesis HR : Walk quiet R.
Hypothesis Hguarded : forall A address (body : M A),
  steps SameAddress body -> steps R body ->
  steps R (guard <- i2c_address_guard_new address ;;
           g_autoptr_scope (TRUE guard) body).
Hypothesis Hunchecked : forall A address (body : M A),
  steps SameAddress body -> steps R body ->
  steps R (guard <- attempt (i2c_address_guard_new address) ;;
           g_autoptr_scope guard body).

Ltac walk_guarded :=
  solve [repeat first [apply Hguarded | apply Hunchecked | walk_step]].

Lemma steps_flash_read_loop rounds target_len base_address len data :
  steps R (flash_read_loop rounds target_len base_address len data).
Proof.
  revert base_address len data.
  induction rounds as [|rounds IH]; intros; simpl; walk_guarded.
Qed.

Lemma steps_flash_read base_address len : steps R (flash_read base_address len).
Proof. unfold flash_read. apply steps_flash_read_loop. Qed.

Lemma steps_flash_write_loop rounds base_address data bytes_written :
  steps R (flash_write_loop rounds base_address data bytes_written).
Proof.
  revert bytes_written.
  induction rounds as [|rounds IH]; intros; simpl; walk_guarded.
Qed.

Lemma steps_probe_active_flash_partition : steps R probe_active_flash_partition.
Proof. unfold probe_active_flash_partition. walk_guarded. Qed.

Hypothesis HF : WalkFlash R.

Lemma steps_flash_write base_address data : steps R (flash_write base_address data).
Proof.
  pose proof steps_flash_write_loop.
  unfold flash_write.
  walk.
Qed.

Lemma steps_flash_erase_block bound base_address size :
  steps R (flash_erase_block bound base_address size).
Proof.
  unfold flash_erase_block.
  eapply steps_bind; [eassumption | walk | intros _].
  walk.
Qed.

End Guarded.

End ParadeGuard.

(** ** Protocols: the selected events of a run, in order *)

Section Proto.
Variable keep : Event -> bool.

Lemma prefix_nil {X} (L : list X) : prefix [] L.
Proof. exists L. reflexivity. Qed.

Lemma prefix_refl {X} (L : list X) : prefix L L.
Proof. exists []. rewrite app_nil_r. reflexivity. Qed.

Lemma prefix_app {X} (l L1 L2 : list X) : prefix l L1 -> prefix l (L1 ++ L2).
Proof. intros (s & ->). exists (s ++ L2). rewrite app_assoc. reflexivity. Qed.

Lemma prefix_app_l {X} (L1 l L2 : list X) : prefix l L2 -> prefix (L1 ++ l) (L1 ++ L2).
Proof. intros (s & ->). exists s. rewrite app_assoc. reflexivity. Qed.

Lemma filter_unkept evs : Forall (unkept keep) evs -> filter keep evs = [].
Proof.
  induction 1 as [|ev evs Hev _ IH]; simpl; [reflexivity |].
  rewrite Hev. exact IH.
Qed.

Lemma proto_silent {A} (m : M A) L :
  steps (Emits (unkept keep)) m -> L = [] -> proto keep L m.
Proof.
  intros Hm -> w r w' H. destruct (Hm _ _ _ H) as (evs & Ht & Hf).
  exists evs. split; [exact Ht |]. rewrite (filter_unkept _ Hf).
  destruct r; [reflexivity | apply prefix_nil].
Qed.

Lemma proto_bind {A B} (m : M A) (k : A -> M B) L1 L2 L :
  proto keep L1 m -> (forall a, proto keep L2 (k a)) -> L = L1 ++ L2 ->
  proto keep L (bind m k).
Proof.
  intros Hm Hk -> w r w' H. apply bind_inv in H.
  destruct H as [(a & w1 & H1 & H2) | (H1 & ->)].
  - destruct (Hm _ _ _ H1) as (e1 & T1 & F1).
    destruct (Hk a _ _ _ H2) as (e2 & T2 & F2).
    exists (e1 ++ e2). rewrite T2, T1, app_assoc. split; [reflexivity |].
    rewrite filter_app, F1. destruct r; [congruence | apply prefix_app_l, F2].
  - destruct (Hm _ _ _ H1) as (e1 & T1 & F1).
    exists e1. split; [exact T1 | apply prefix_app, F1].
Qed.

Lemma proto_emit ev : keep ev = true -> proto keep [ev] (emit ev).
Proof.
  intros Hk w r w' H. inversion H; subst. exists [ev]. split; [reflexivity |].
  simpl. rewrite Hk. reflexivity.
Qed.

(** A computation that only fails fits every protocol it starts. *)
Lemma proto_failing {A} (m : M A) L :
  steps (Emits (unkept keep)) m -> (forall w r w', m w = Some (r, w') -> r = FALSE) ->
  proto keep L m.
Proof.
  intros Hm Hf w r w' H. destruct (Hm _ _ _ H) as (evs & Ht & Hu).
  exists evs. split; [exact Ht |]. rewrite (Hf _ _ _ H), (filter_unkept _ Hu).
  apply prefix_nil.
Qed.

Lemma proto_on_failure {A} (m : M A) (h : M unit) L :
  proto keep L m -> steps (Emits (unkept keep)) h -> proto keep L (on_failure m h).
Proof.
  intros Hm Hh w r w' H. apply bind_inv in H.
  destruct H as [(a & w1 & H1 & H2) | (H1 & ->)].
  - unfold attempt in H1. destruct (m w) as [[r1 w2]|] eqn:E; [|discriminate].
    inversion H1; subst. clear H1.
    destruct (Hm _ _ _ E) as (e1 & T1 & F1).
    destruct a as [a|].
    + inversion H2; subst. exists e1. auto.
    + apply bind_inv in H2. destruct H2 as [(u & w3 & H2 & H3) | (H2 & ->)].
      * inversion H3; subst. destruct (Hh _ _ _ H2) as (e2 & T2 & F2).
        exists (e1 ++ e2). rewrite T2, T1, app_assoc. split; [reflexivity |].
        rewrite filter_app, (filter_unkept _ F2), app_nil_r. exact F1.
      * destruct (Hh _ _ _ H2) as (e2 & T2 & F2).
        exists (e1 ++ e2). rewrite T2, T1, app_assoc. split; [reflexivity |].
        rewrite filter_app, (filter_unkept _ F2), app_nil_r. exact F1.
  - unfold attempt in H1. destruct (m w) as [[r1 w2]|]; discriminate.
Qed.

End Proto.

(** ** The LSPCON plugin *)

Module ParadeTheorems.
Import ParadeLspcon ParadeVocabulary ParadeWalks ParadeGuard.

Lemma Walk_Silent : Walk quiet Silent.
Proof. apply Walk_Emits. intros [] H; try discriminate H; reflexivity. Qed.

Lemma WalkIoctl_Silent : WalkIoctl Silent.
Proof. apply WalkIoctl_Emits. reflexivity. Qed.

#[export] Hint Resolve Walk_Silent WalkIoctl_Silent : steps.

Lemma silent_flash_read base_address len : steps Silent (flash_read base_address len).
Proof.
  apply steps_flash_read; auto with steps.
  intros; apply guarded_unconcerned; auto with steps.
Qed.

Lemma silent_flash_write_loop rounds base_address data bytes_written :
  steps Silent (flash_write_loop rounds base_address data bytes_written).
Proof.
  apply steps_flash_write_loop; auto with steps.
  intros; apply unchecked_guard_unconcerned; auto with steps.
Qed.

#[export] Hint Resolve silent_flash_read silent_flash_write_loop : steps.

Ltac silent := apply proto_silent; [walk | reflexivity].
Ltac proto_seq tac := eapply proto_bind; [tac | intros ? | reflexivity].

Lemma proto_flash_erase_block bound base_address size :
  proto is_flash_op [EvDebugFlashErase base_address]
        (flash_erase_block bound base_address size).
Proof.
  unfold flash_erase_block.
  proto_seq silent. proto_seq silent.
  proto_seq ltac:(apply proto_emit; reflexivity).
  silent.
Qed.

Lemma proto_flash_write base_address data :
  proto is_flash_op [EvDebugFlashWrite data base_address]
        (flash_write base_address data).
Proof.
  unfold flash_write.
  proto_seq silent.
  proto_seq ltac:(apply proto_emit; reflexivity).
  silent.
Qed.

Lemma proto_write_firmware_program bound target_partition blob_fw :
  proto is_flash_op
        [EvDebugFlashErase (target_address_of target_partition);
         EvDebugFlashWrite blob_fw (target_address_of target_partition)]
        (write_firmware_program bound target_partition
           (target_address_of target_partition) blob_fw).
Proof.
  unfold write_firmware_program.
  do 5 proto_seq silent.
  proto_seq ltac:(apply proto_on_failure; [apply proto_flash_erase_block | walk]).
  proto_seq silent.
  apply proto_on_failure; [apply proto_flash_write | walk].
Qed.

Lemma silent_write_firmware_readback target_address firmware_size :
  steps Silent (write_firmware_readback target_address firmware_size).
Proof. unfold write_firmware_readback. walk. Qed.

Lemma proto_write_firmware_commit bound flag_data :
  proto is_flash_op [EvDebugFlashErase 0; EvDebugFlashWrite flag_data 0]
        (write_firmware_commit bound flag_data).
Proof.
  unfold write_firmware_commit.
  proto_seq silent.
  proto_seq ltac:(apply proto_flash_erase_block).
  proto_seq silent.
  proto_seq ltac:(apply proto_flash_write).
  silent.
Qed.

#[export] Hint Resolve silent_write_firmware_readback : steps.

(** Whatever the device answers, an update erases and writes the target
    partition, then the flag partition, in this order and nothing else; a
    failed update stops somewhere along the way. *)
Lemma write_firmware_follows_plan bound firmware blob_fw w r w' :
  blob firmware = Some blob_fw ->
  fu_parade_lspcon_device_write_firmware bound firmware w = Some (r, w') ->
  exists evs, trace w' = trace w ++ evs /\
    match r with
    | TRUE _ => flash_ops evs = flash_plan (target_partition_of (active_partition w)) blob_fw
    | FALSE =>
        prefix (flash_ops evs)
               (flash_plan (target_partition_of (active_partition w)) blob_fw)
    end.
Proof.
  intros Hb H. unfold fu_parade_lspcon_device_write_firmware in H.
  rewrite (bind_TRUE _ _ w (active_partition w) w eq_refl) in H.
  revert H. generalize (target_partition_of (active_partition w)). intros t H.
  unfold fu_firmware_get_bytes in H. rewrite Hb in H.
  rewrite (bind_TRUE _ _ w blob_fw w eq_refl) in H.
  revert w r w' H.
  change (proto is_flash_op (flash_plan t blob_fw)
    (if negb (Z.of_nat (Datatypes.length blob_fw) =? FLASH_BLOCK_SIZE)
     then g_set_error FWUPD_ERROR_NOT_SUPPORTED
            (Format "invalid image size %#zx, expected %#x"
               [Z.of_nat (Datatypes.length blob_fw); FLASH_BLOCK_SIZE]);;
          return_FALSE
     else
       write_firmware_program bound t (target_address_of t) blob_fw;;
       readback_buf <- write_firmware_readback (target_address_of t)
                         (Z.of_nat (Datatypes.length blob_fw));;
       (if memcmp_differs blob_fw readback_buf (Z.of_nat (Datatypes.length blob_fw))
        then g_set_error FWUPD_ERROR_WRITE
               (Literal "flash contents do not match written data");;
             return_FALSE
        else write_firmware_commit bound (flag_data_of t);; write_firmware_relock))).
  destruct (negb _).
  - apply proto_failing; [walk |].
    intros w r w' H. apply bind_inv in H.
    destruct H as [(u & w1 & _ & H) | (_ & ->)]; [inversion H |]; reflexivity.
  - unfold flash_plan.
    proto_seq ltac:(apply proto_write_firmware_program).
    proto_seq silent.
    destruct (memcmp_differs _ _ _).
    + apply proto_failing; [walk |].
      intros w r w' H. apply bind_inv in H.
      destruct H as [(u & w1 & _ & H) | (_ & ->)]; [inversion H |]; reflexivity.
    + proto_seq ltac:(apply proto_write_firmware_commit).
      silent.
Qed.

(** *** Must-happen events *)

Lemma must_emit_bind_l {A B} ev (m : M A) (k : A -> M B) :
  must_emit ev m -> (forall a, steps Grows (k a)) -> must_emit ev (bind m k).
Proof.
  intros Hm Hk w b w' H. apply bind_inv in H.
  destruct H as [(a & w1 & H1 & H2) | (_ & H)]; [|discriminate].
  destruct (Hm _ _ _ H1) as (pre & post & T1).
  destruct (Hk a _ _ _ H2) as (e2 & T2).
  exists pre, (post ++ e2). rewrite T2, T1.
  rewrite <- !app_assoc. reflexivity.
Qed.

Lemma must_emit_bind_r {A B} ev (m : M A) (k : A -> M B) :
  steps Grows m -> (forall a, must_emit ev (k a)) -> must_emit ev (bind m k).
Proof.
  intros Hm Hk w b w' H. apply bind_inv in H.
  destruct H as [(a & w1 & H1 & H2) | (_ & H)]; [|discriminate].
  destruct (Hm _ _ _ H1) as (e1 & T1).
  destruct (Hk a _ _ _ H2) as (pre & post & T2).
  exists (e1 ++ pre), post. rewrite T2, T1.
  rewrite <- !app_assoc. reflexivity.
Qed.

Lemma grows_flash_read base_address len : steps Grows (flash_read base_address len).
Proof.
  apply steps_flash_read; auto with steps.
  intros; apply guarded_unconcerned; auto with steps.
Qed.

Lemma grows_flash_write_loop rounds base_address data bytes_written :
  steps Grows (flash_write_loop rounds base_address data bytes_written).
Proof.
  apply steps_flash_write_loop; auto with steps.
  intros; apply unchecked_guard_unconcerned; auto with steps.
Qed.

Lemma grows_flash_write base_address data : steps Grows (flash_write base_address data).
Proof.
  apply steps_flash_write; auto with steps.
  intros; apply unchecked_guard_unconcerned; auto with steps.
Qed.

Lemma grows_flash_erase_block bound base_address size :
  steps Grows (flash_erase_block bound base_address size).
Proof. apply steps_flash_erase_block; auto with steps. Qed.

#[export] Hint Resolve grows_flash_read grows_flash_write_loop grows_flash_write
  grows_flash_erase_block : steps.

Lemma grows_write_firmware_program bound t a blob_fw :
  steps Grows (write_firmware_program bound t a blob_fw).
Proof. unfold write_firmware_program. walk. Qed.

Lemma grows_write_firmware_readback a n : steps Grows (write_firmware_readback a n).
Proof. unfold write_firmware_readback. walk. Qed.

#[export] Hint Resolve grows_write_firmware_program grows_write_firmware_readback : steps.

Lemma must_emit_library_call ev : must_emit ev (library_call ev).
Proof.
  intros w a w' H. unfold library_call in H.
  apply bind_inv in H. destruct H as [(u & w1 & H1 & H2) | (_ & H)]; [|discriminate].
  inversion H1; subst. clear H1.
  assert (G : steps Grows (r <- reply ;;
                           match r with
                           | RDone => mret tt
                           | RFail => g_set_error LIBRARY_ERROR LibraryText ;; return_FALSE
                           | _ => undefined
                           end)) by walk.
  destruct (G _ _ _ H2) as (evs & T). exists [], evs. rewrite T. simpl.
  rewrite <- app_assoc. reflexivity.
Qed.

Lemma must_emit_g_autoptr_scope {A} ev guard (body : M A) :
  must_emit ev body -> must_emit ev (g_autoptr_scope guard body).
Proof.
  intros Hb w a w' H. apply g_autoptr_scope_inv in H.
  destruct H as (rb & w1 & H1 & <- & H2).
  destruct (Hb _ _ _ H1) as (pre & post & T1).
  destruct guard as [g|].
  - apply i2c_address_guard_dispose_inv in H2. destruct H2 as (_ & (e2 & T2) & _).
    exists pre, (post ++ e2). rewrite T2, T1. rewrite <- !app_assoc. reflexivity.
  - subst w'. eauto.
Qed.

(** A successful write of a buffer that fits one page has sent the buffer,
    behind the offset byte 0, in one transfer. *)
Lemma must_emit_flash_write base_address data :
  (0 < List.length data <= 256)%nat ->
  must_emit (EvI2cWrite (0 :: data)) (flash_write base_address data).
Proof.
  intros Hlen. unfold flash_write.
  do 6 (apply must_emit_bind_r; [walk | intros _]).
  apply must_emit_bind_l; [| intros _; walk].
  destruct data as [|b data']; [simpl in Hlen; lia |].
  remember (b :: data') as data eqn:Ed.
  assert (Hn : List.length data = S (List.length data')) by (subst; reflexivity).
  rewrite Hn. cbn [flash_write_loop]. rewrite Hn.
  replace (Z.of_nat (S (Datatypes.length data')) <=? 0) with false
    by (symmetry; apply Z.leb_gt; lia).
  apply must_emit_bind_r; [walk | intros _].
  apply must_emit_bind_l; [| intros _; walk].
  apply must_emit_bind_r;
    [apply steps_attempt, steps_i2c_address_guard_new; auto with steps
    | intros guard].
  apply must_emit_g_autoptr_scope.
  unfold fu_memcpy_safe. rewrite Hn.
  replace (Z.min (Z.of_nat (S (Datatypes.length data')) - 0) 256)
    with (Z.of_nat (S (Datatypes.length data'))) by lia.
  replace (Z.of_nat (S (Datatypes.length data')) =? 0) with false
    by (symmetry; apply Z.eqb_neq; lia).
  replace ((Z.of_nat (S (Datatypes.length data')) <? Z.of_nat (S (Datatypes.length data')))
           || (Z.of_nat (S (Datatypes.length data'))
               <? Z.of_nat (S (Datatypes.length data')) + 0)
           || (257 <? Z.of_nat (S (Datatypes.length data')))
           || (257 <? Z.of_nat (S (Datatypes.length data')) + 1)) with false.
  2:{ symmetry. rewrite !orb_false_iff. repeat split; apply Z.ltb_ge; lia. }
  intros w a w' H. rewrite (bind_TRUE _ _ w _ w eq_refl) in H.
  rewrite Nat2Z.id, <- Hn in H. simpl skipn in H. rewrite firstn_all in H.
  revert H. apply must_emit_library_call.
Qed.

Lemma must_emit_write_firmware_commit bound flag_data :
  (0 < List.length flag_data <= 256)%nat ->
  must_emit (EvI2cWrite (0 :: flag_data)) (write_firmware_commit bound flag_data).
Proof.
  intros Hlen. unfold write_firmware_commit.
  do 3 (apply must_emit_bind_r; [walk | intros _]).
  apply must_emit_bind_l; [apply must_emit_flash_write, Hlen | intros _; walk].
Qed.

Lemma must_emit_write_firmware bound firmware blob_fw w a w' :
  blob firmware = Some blob_fw ->
  fu_parade_lspcon_device_write_firmware bound firmware w = Some (TRUE a, w') ->
  exists before after,
    trace w' = trace w ++ before
               ++ EvI2cWrite (0 :: flag_data_of (target_partition_of (active_partition w)))
               :: after.
Proof.
  intros Hb H. unfold fu_parade_lspcon_device_write_firmware in H.
  rewrite (bind_TRUE _ _ w (active_partition w) w eq_refl) in H.
  revert H. generalize (target_partition_of (active_partition w)). intros t H.
  unfold fu_firmware_get_bytes in H. rewrite Hb in H.
  rewrite (bind_TRUE _ _ w blob_fw w eq_refl) in H.
  revert w a w' H.
  change (must_emit (EvI2cWrite (0 :: flag_data_of t))
    (if negb (Z.of_nat (Datatypes.length blob_fw) =? FLASH_BLOCK_SIZE)
     then g_set_error FWUPD_ERROR_NOT_SUPPORTED
            (Format "invalid image size %#zx, expected %#x"
               [Z.of_nat (Datatypes.length blob_fw); FLASH_BLOCK_SIZE]);;
          return_FALSE
     else
       write_firmware_program bound t (target_address_of t) blob_fw;;
       readback_buf <- write_firmware_readback (target_address_of t)
                         (Z.of_nat (Datatypes.length blob_fw));;
       (if memcmp_differs blob_fw readback_buf (Z.of_nat (Datatypes.length blob_fw))
        then g_set_error FWUPD_ERROR_WRITE
               (Literal "flash contents do not match written data");;
             return_FALSE
        else write_firmware_commit bound (flag_data_of t);; write_firmware_relock))).
  assert (Hfail : forall c m, must_emit (EvI2cWrite (0 :: flag_data_of t))
                                (g_set_error c m ;; @return_FALSE unit)).
  { intros c m w a w' H. apply bind_inv in H.
    destruct H as [(u & w1 & _ & H) | (_ & H)]; discriminate. }
  destruct (negb _); [apply Hfail |].
  do 2 (apply must_emit_bind_r; [walk | intros ?]).
  destruct (memcmp_differs _ _ _); [apply Hfail |].
  apply must_emit_bind_l; [| intros _; walk].
  apply must_emit_write_firmware_commit. simpl. lia.
Qed.

Lemma target_partition_is_1_or_2 active :
  target_partition_of active = 1 \/ target_partition_of active = 2.
Proof. unfold target_partition_of. destruct (active =? 1); auto. Qed.

(** C4: an image whose length is not 0x10000 is refused before anything is
    done to the device: the update returns FALSE with the error "invalid
    image size" and leaves the world as it was but for that error; nothing
    has been asked of the bus and nothing logged, so no register write, no
    erase and no write has been issued. *)
Theorem write_firmware_rejects_wrong_size bound firmware blob_fw w :
  blob firmware = Some blob_fw ->
  Z.of_nat (List.length blob_fw) <> FLASH_BLOCK_SIZE ->
  gerror w = None ->
  fu_parade_lspcon_device_write_firmware bound firmware w
  = Some (FALSE,
          set_gerror
            (Some (mkGError FWUPD_ERROR_NOT_SUPPORTED
                     (Format "invalid image size %#zx, expected %#x"
                             [Z.of_nat (List.length blob_fw); FLASH_BLOCK_SIZE]))) w).
Proof.
  intros Hb Hn He. unfold fu_parade_lspcon_device_write_firmware.
  rewrite (bind_TRUE _ _ w (active_partition w) w eq_refl).
  unfold fu_firmware_get_bytes. rewrite Hb.
  rewrite (bind_TRUE _ _ w blob_fw w eq_refl).
  apply Z.eqb_neq in Hn. rewrite Hn. cbn [negb].
  unfold bind, g_set_error, return_FALSE. rewrite He. reflexivity.
Qed.

Lemma write_firmware_rejects_wrong_size_witness :
  let firmware := mkFirmware (Some [1; 2; 3]) in
  let w := opened answers_unlock 1 in
  observed (fun w' => (script w', trace w', i2c_addr w'))
           (fu_parade_lspcon_device_write_firmware 3 firmware w)
  = Some (FALSE, (answers_unlock, [], I2C_ADDR_PAGE2)).
Proof.
  intros firmware w.
  rewrite (write_firmware_rejects_wrong_size 3 firmware [1; 2; 3] w);
    [reflexivity | reflexivity | discriminate | reflexivity].
Defined.



Lemma in_flash_ops ev evs : In ev evs -> is_flash_op ev = true -> In ev (flash_ops evs).
Proof. intros Hin Hf. apply filter_In. auto. Qed.

Lemma in_prefix {X} (x : X) l L : prefix l L -> In x l -> In x L.
Proof. intros (s & ->) H. apply in_or_app. auto. Qed.

(** C2: in every run of the update, whatever is written at the base of the
    flag partition is the four bytes 0x55, 0xAA, t, (1 - t) mod 256 for the
    target partition t; a run that returns TRUE has written them there, and
    has sent them to the flash window in one transfer behind the offset
    byte 0.  With partition 1 active the target is 2 and the bytes are
    0x55, 0xAA, 0x02, 0xFF. *)
Theorem flag_record_written bound firmware blob_fw w r w' :
  blob firmware = Some blob_fw ->
  fu_parade_lspcon_device_write_firmware bound firmware w = Some (r, w') ->
  let t := target_partition_of (active_partition w) in
  let record := [0x55; 0xAA; t; (1 - t) mod 256] in
  exists evs, trace w' = trace w ++ evs /\
    (forall data, In (EvDebugFlashWrite data 0) evs -> data = record) /\
    (r = TRUE tt ->
     In (EvDebugFlashWrite record 0) evs /\ In (EvI2cWrite (0 :: record)) evs) /\
    (active_partition w = 1 -> record = [0x55; 0xAA; 0x02; 0xFF]).
Proof.
  intros Hb H t record.
  assert (Hrec : flag_data_of t = record) by reflexivity.
  destruct (write_firmware_follows_plan _ _ _ _ _ _ Hb H) as (evs & T & F).
  fold t in F. unfold flash_plan in F. rewrite Hrec in F.
  exists evs. split; [exact T | split; [| split]].
  - intros data Hin.
    assert (Hp : In (EvDebugFlashWrite data 0)
                    [EvDebugFlashErase (target_address_of t);
                     EvDebugFlashWrite blob_fw (target_address_of t);
                     EvDebugFlashErase 0; EvDebugFlashWrite record 0]).
    { destruct r.
      - rewrite <- F. apply in_flash_ops; [exact Hin | reflexivity].
      - eapply in_prefix; [exact F |]. apply in_flash_ops; [exact Hin | reflexivity]. }
    simpl in Hp.
    destruct Hp as [Hp | [Hp | [Hp | [Hp | []]]]]; try discriminate Hp.
    + exfalso. inversion Hp as [[Hd Ha]].
      destruct (target_partition_is_1_or_2 (active_partition w)) as [E | E];
        fold t in E; rewrite E in Ha; discriminate Ha.
    + inversion Hp. reflexivity.
  - intros ->. split.
    + assert (Hin : In (EvDebugFlashWrite record 0) (flash_ops evs)).
      { rewrite F. simpl. auto. }
      apply filter_In in Hin. apply Hin.
    + destruct (must_emit_write_firmware _ _ _ _ _ _ Hb H) as (pre & post & T').
      fold t in T'. rewrite Hrec in T'. rewrite T in T'.
      apply app_inv_head in T'. rewrite T'. apply in_or_app. right. left. reflexivity.
  - intros Hact. subst record t. rewrite Hact. reflexivity.
Qed.

(** A complete update of partition 2, answered as expected throughout. *)
Lemma flag_record_written_witness :
  let firmware := mkFirmware (Some image) in
  let w := opened (answers_update 2) 1 in
  let w' := world_after (fu_parade_lspcon_device_write_firmware 3 firmware w) w in
  fu_parade_lspcon_device_write_firmware 3 firmware w = Some (TRUE tt, w') /\
  (let t := target_partition_of (active_partition w) in
   let record := [0x55; 0xAA; t; (1 - t) mod 256] in
   exists evs, trace w' = trace w ++ evs /\
     (forall data, In (EvDebugFlashWrite data 0) evs -> data = record) /\
     (TRUE tt = TRUE tt ->
      In (EvDebugFlashWrite record 0) evs /\ In (EvI2cWrite (0 :: record)) evs) /\
     (active_partition w = 1 -> record = [0x55; 0xAA; 0x02; 0xFF])).
Proof.
  intros firmware w w'.
  assert (Hrun : fu_parade_lspcon_device_write_firmware 3 firmware w
                 = Some (TRUE tt, w')).
  { apply run_shape. vm_compute. reflexivity. }
  split; [exact Hrun |].
  exact (flag_record_written 3 firmware image w (TRUE tt) w' eq_refl Hrun).
Defined.

(** *** The bus address *)

Lemma keeps_page2_flash_read base_address len :
  steps KeepsPage2 (flash_read base_address len).
Proof.
  apply steps_flash_read; auto with steps.
  intros; apply guarded_keeps_page2; auto.
Qed.

Lemma keeps_page2_flash_write base_address data :
  steps KeepsPage2 (flash_write base_address data).
Proof.
  apply steps_flash_write; auto with steps.
  intros; apply unchecked_guard_keeps_page2; auto.
Qed.

Lemma keeps_page2_probe_active_flash_partition :
  steps KeepsPage2 probe_active_flash_partition.
Proof.
  apply steps_probe_active_flash_partition; auto with steps.
  intros; apply guarded_keeps_page2; auto.
Qed.

(** C3, as the code has it: a window read, a window write and the probe of
    the active partition, started with the default address selected, return
    with the default address selected, whether they succeed or fail and
    wherever they fail, unless selecting the default address itself failed
    (the log then shows the failed attempt). *)
Theorem address_guard_restores_page2 w :
  i2c_addr w = I2C_ADDR_PAGE2 ->
  (forall base_address len r w',
      flash_read base_address len w = Some (r, w') ->
      ~ In (EvIoctl I2C_ADDR_PAGE2 false) (trace w') ->
      i2c_addr w' = I2C_ADDR_PAGE2) /\
  (forall base_address data r w',
      flash_write base_address data w = Some (r, w') ->
      ~ In (EvIoctl I2C_ADDR_PAGE2 false) (trace w') ->
      i2c_addr w' = I2C_ADDR_PAGE2) /\
  (forall r w',
      probe_active_flash_partition w = Some (r, w') ->
      ~ In (EvIoctl I2C_ADDR_PAGE2 false) (trace w') ->
      i2c_addr w' = I2C_ADDR_PAGE2).
Proof.
  intros Ha.
  assert (Hinv : page2_or_failed w) by (left; exact Ha).
  repeat split.
  - intros base_address len r w' H Hno.
    destruct (keeps_page2_flash_read _ _ _ _ _ H Hinv); [assumption | contradiction].
  - intros base_address data r w' H Hno.
    destruct (keeps_page2_flash_write _ _ _ _ _ H Hinv); [assumption | contradiction].
  - intros r w' H Hno.
    destruct (keeps_page2_probe_active_flash_partition _ _ _ H Hinv);
      [assumption | contradiction].
Qed.

(** The window read fails inside the guarded scope; the read returns FALSE
    with page 2 selected again. *)
Lemma address_guard_restores_page2_witness :
  let w := opened answers_read_window_fails 1 in
  let w' := world_after (flash_read 0 1 w) w in
  flash_read 0 1 w = Some (FALSE, w') /\ i2c_addr w' = I2C_ADDR_PAGE2.
Proof.
  intros w w'.
  assert (Hrun : flash_read 0 1 w = Some (FALSE, w')).
  { apply run_shape. vm_compute. reflexivity. }
  split; [exact Hrun |].
  apply (proj1 (address_guard_restores_page2 w eq_refl) 0 1 FALSE w' Hrun).
  vm_compute. intros H.
  repeat (destruct H as [H | H]; [discriminate H |]). exact H.
Defined.

(** C3, as the claim has it, fails: when the selection of the default
    address fails on leaving the guarded scope, the failure is dropped and
    the read returns TRUE with page 7 still selected. *)
Lemma release_failure_leaves_page7 :
  observed i2c_addr (flash_read 0 1 (opened answers_read_release_fails 1))
  = Some (TRUE [0xFF], I2C_ADDR_PAGE7)
  /\ i2c_addr (opened answers_read_release_fails 1) = I2C_ADDR_PAGE2.
Proof. split; vm_compute; reflexivity. Qed.

(** *** Verification *)

Lemma library_read_inv ev n w bs w' :
  library_read ev n w = Some (TRUE bs, w') ->
  Z.of_nat (List.length bs) = n /\ forallb byteb bs = true.
Proof.
  unfold library_read. intros H.
  apply bind_inv in H. destruct H as [(u & w1 & _ & H) | (_ & H)]; [|discriminate].
  apply bind_inv in H. destruct H as [(rp & w2 & _ & H) | (_ & H)]; [|discriminate].
  destruct rp; try discriminate H.
  - apply bind_inv in H. destruct H as [(u' & w3 & _ & H) | (_ & H)]; discriminate.
  - destruct ((Z.of_nat (Datatypes.length bs0) =? n) && forallb byteb bs0) eqn:E;
      [|discriminate].
    inversion H; subst. apply andb_prop in E. destruct E as [E1 E2].
    apply Z.eqb_eq in E1. auto.
Qed.

Lemma guarded_read_full_length n w page_data w' :
  (guard <- i2c_address_guard_new I2C_ADDR_PAGE7 ;;
   g_autoptr_scope (TRUE guard) (fu_i2c_device_read_full n)) w
  = Some (TRUE page_data, w') ->
  Z.of_nat (List.length page_data) = n.
Proof.
  intros H.
  apply bind_inv in H. destruct H as [(g & w1 & _ & H) | (_ & H)]; [|discriminate].
  apply g_autoptr_scope_inv in H. destruct H as (rb & w2 & Hb & <- & _).
  apply library_read_inv in Hb. apply Hb.
Qed.

(** A read that returns TRUE hands back exactly [len] bytes. *)
Lemma flash_read_loop_length rounds target_len base_address len data w out w' :
  0 <= len ->
  flash_read_loop rounds target_len base_address len data w = Some (TRUE out, w') ->
  Z.of_nat (List.length out) = Z.of_nat (List.length data) + len.
Proof.
  revert base_address len data w.
  induction rounds as [|rounds IH]; intros base_address len data w Hlen H;
    cbn [flash_read_loop] in H; destruct (len <=? 0) eqn:E.
  - inversion H; subst. apply Z.leb_le in E. lia.
  - discriminate.
  - inversion H; subst. apply Z.leb_le in E. lia.
  - apply Z.leb_gt in E.
    apply bind_inv in H. destruct H as [(u & w1 & _ & H) | (_ & H)]; [|discriminate].
    apply bind_inv in H.
    destruct H as [(page_data & w2 & Hp & H) | (_ & H)]; [|discriminate].
    apply guarded_read_full_length in Hp.
    apply bind_inv in H. destruct H as [(u' & w3 & _ & H) | (_ & H)]; [|discriminate].
    assert (Hs : 0 <= Z.land base_address 255 < 256).
    { change 255 with (Z.ones 8). rewrite Z.land_ones by lia.
      apply Z.mod_pos_bound. lia. }
    apply IH in H; [|lia].
    rewrite H, length_app, length_firstn, length_skipn. lia.
Qed.

Lemma flash_read_length base_address len w out w' :
  0 <= len -> flash_read base_address len w = Some (TRUE out, w') ->
  Z.of_nat (List.length out) = len.
Proof.
  intros Hlen H. apply flash_read_loop_length in H; [|exact Hlen].
  simpl in H. exact H.
Qed.

Lemma bytes_eqb_eq a b : bytes_eqb a b = true <-> a = b.
Proof.
  revert b. induction a as [|x a IH]; intros [|y b]; simpl; split; intros H;
    try reflexivity; try discriminate H.
  - apply andb_prop in H. destruct H as [H1 H2].
    apply Z.eqb_eq in H1. apply IH in H2. congruence.
  - inversion H; subst. rewrite Z.eqb_refl. apply IH. reflexivity.
Qed.

Lemma memcmp_differs_true a b n :
  Z.of_nat (List.length a) = n -> Z.of_nat (List.length b) = n -> a <> b ->
  memcmp_differs a b n = true.
Proof.
  intros Ha Hb Hne. unfold memcmp_differs.
  rewrite <- Ha at 1. rewrite <- Hb. rewrite !Nat2Z.id, !firstn_all.
  destruct (bytes_eqb a b) eqn:E; [|reflexivity].
  apply bytes_eqb_eq in E. contradiction.
Qed.

Lemma write_firmware_readback_length target_address n w out w' :
  0 <= n ->
  write_firmware_readback target_address n w = Some (TRUE out, w') ->
  Z.of_nat (List.length out) = n.
Proof.
  intros Hn H. unfold write_firmware_readback in H.
  apply bind_inv in H. destruct H as [(u & w1 & _ & H) | (_ & H)]; [|discriminate].
  exact (flash_read_length target_address n w1 out w' Hn H).
Qed.

(** Once the image has been written and read back, a read back that
    differs from the image ends the update on the spot.  The update returns
    FALSE in the world the read back left, but for the error it raises; the
    flash operations of the whole run are the erase and the write of the
    target partition. *)
Lemma readback_mismatch_stops bound firmware blob_fw w w1 readback_buf w2 :
  blob firmware = Some blob_fw ->
  Z.of_nat (List.length blob_fw) = FLASH_BLOCK_SIZE ->
  let t := target_partition_of (active_partition w) in
  write_firmware_program bound t (target_address_of t) blob_fw w = Some (TRUE tt, w1) ->
  write_firmware_readback (target_address_of t) FLASH_BLOCK_SIZE w1
  = Some (TRUE readback_buf, w2) ->
  readback_buf <> blob_fw ->
  exists w3,
    fu_parade_lspcon_device_write_firmware bound firmware w = Some (FALSE, w3) /\
    g_set_error FWUPD_ERROR_WRITE
      (Literal "flash contents do not match written data") w2 = Some (TRUE tt, w3) /\
    (gerror w2 = None -> w3 = set_gerror (Some verification_error) w2) /\
    exists evs, trace w3 = trace w ++ evs /\
      flash_ops evs = [EvDebugFlashErase (target_address_of t);
                       EvDebugFlashWrite blob_fw (target_address_of t)].
Proof.
  intros Hb Hsize t Hprog Hread Hne.
  assert (Hlen : Z.of_nat (List.length readback_buf) = FLASH_BLOCK_SIZE).
  { apply (write_firmware_readback_length _ _ _ _ _ (Zle_0_pos _) Hread). }
  destruct (g_set_error FWUPD_ERROR_WRITE
              (Literal "flash contents do not match written data") w2)
    as [[ru w3]|] eqn:Eerr.
  2:{ unfold g_set_error in Eerr. destruct (gerror w2); discriminate. }
  assert (ru = TRUE tt) as ->.
  { unfold g_set_error in Eerr. destruct (gerror w2); inversion Eerr; reflexivity. }
  assert (Hrun : fu_parade_lspcon_device_write_firmware bound firmware w
                 = Some (FALSE, w3)).
  { unfold fu_parade_lspcon_device_write_firmware.
    rewrite (bind_TRUE _ _ w (active_partition w) w eq_refl).
    unfold fu_firmware_get_bytes. rewrite Hb.
    rewrite (bind_TRUE _ _ w blob_fw w eq_refl).
    rewrite Hsize. rewrite Z.eqb_refl. cbn [negb]. fold t.
    rewrite (bind_TRUE _ _ _ _ _ Hprog).
    rewrite (bind_TRUE _ _ _ _ _ Hread).
    rewrite (memcmp_differs_true _ _ _ Hsize Hlen (not_eq_sym Hne)).
    rewrite (bind_TRUE _ _ _ _ _ Eerr). reflexivity. }
  exists w3. split; [exact Hrun | split; [reflexivity | split]].
  - intros He. unfold g_set_error in Eerr. rewrite He in Eerr.
    inversion Eerr. reflexivity.
  - destruct (proto_write_firmware_program bound t blob_fw _ _ _ Hprog)
      as (e1 & T1 & F1).
    destruct (silent_write_firmware_readback _ _ _ _ _ Hread) as (e2 & T2 & F2).
    assert (He3 : exists e3, trace w3 = trace w2 ++ e3 /\ Forall (unkept is_flash_op) e3).
    { unfold g_set_error in Eerr. destruct (gerror w2); inversion Eerr; subst; simpl.
      - eexists. split; [reflexivity |]. repeat constructor.
      - exists []. rewrite app_nil_r. auto. }
    destruct He3 as (e3 & T3 & F3).
    exists (e1 ++ e2 ++ e3). split.
    + rewrite T3, T2, T1, <- !app_assoc. reflexivity.
    + unfold flash_ops in *. rewrite !filter_app, F1.
      rewrite (filter_unkept _ _ F2), (filter_unkept _ _ F3). reflexivity.
Qed.

Lemma run_succeeded {A} (run : option (ret A * World)) (a0 : A) (w0 : World) :
  succeeded run = true -> run = Some (TRUE (value_after run a0), world_after run w0).
Proof.
  destruct run as [[[a|] w1]|]; simpl; intros H; first [discriminate | reflexivity].
Qed.



(** *** Polling *)

Lemma lspcon_read_register_answered register_address value rest w :
  script w = RDone :: RBytes [value] :: rest -> byteb value = true ->
  lspcon_read_register register_address w
  = Some (TRUE value,
          set_script rest
            (set_trace (trace w ++ [EvI2cWrite [register_address]; EvI2cRead 1]) w)).
Proof.
  intros Hs Hb. destruct w as [s t e a p n v f]. simpl in Hs. subst s.
  unfold lspcon_read_register, fu_i2c_device_write, fu_i2c_device_read, library_call,
    library_read, bind, emit, reply, mret. cbn.
  rewrite Hb. cbn. rewrite <- app_assoc. reflexivity.
Qed.

Lemma g_timer_elapsed_answered elapsed rest w :
  script w = RElapsed elapsed :: rest -> 0 <= elapsed ->
  g_timer_elapsed w = Some (TRUE elapsed, set_script rest w).
Proof.
  intros Hs He. unfold g_timer_elapsed, bind, reply. rewrite Hs.
  apply Z.leb_le in He. rewrite He. reflexivity.
Qed.

Lemma poll_misses register_address mask expected rounds :
  forall bound w tail,
    Forall (misses mask expected) rounds ->
    script w = flat_map answers_poll_round rounds ++ tail ->
    exists w1,
      lspcon_poll_register (List.length rounds + bound) register_address mask expected w
      = lspcon_poll_register bound register_address mask expected w1 /\
      script w1 = tail /\ gerror w1 = gerror w /\ i2c_addr w1 = i2c_addr w.
Proof.
  induction rounds as [|[value elapsed] rounds IH]; intros bound w tail Hm Hs.
  - exists w. auto.
  - inversion Hm as [|? ? (Hb & Hv & He) Hm']; subst. simpl in Hb, Hv, He.
    cbn [flat_map answers_poll_round fst snd app] in Hs.
    cbn [List.length Nat.add]. unfold lspcon_poll_register in *.
    cbn [lspcon_poll_register_loop].
    rewrite (bind_TRUE _ _ _ _ _ (lspcon_read_register_answered _ _ _ _ Hs Hb)).
    apply Z.eqb_neq in Hv. rewrite Hv.
    match goal with
    | |- context [bind g_timer_elapsed _ ?w0] =>
        rewrite (bind_TRUE _ _ _ _ _
                   (g_timer_elapsed_answered elapsed
                      (flat_map answers_poll_round rounds ++ tail) w0 eq_refl (proj1 He)))
    end.
    unfold within_10_seconds. replace (elapsed <=? 10000000) with true
      by (symmetry; apply Z.leb_le; lia).
    match goal with
    | |- context [lspcon_poll_register_loop _ _ _ _ ?w0] =>
        destruct (IH bound w0 tail Hm' eq_refl) as (w1 & E & S1 & G1 & A1)
    end.
    exists w1. auto.
Qed.

(** C8: the poll reads the register again and again.  After any number of
    reads that do not match, each followed by a look at the timer that shows
    at most ten seconds, a read whose value under the mask is the expected
    one ends the poll with TRUE at once, with no further look at the timer
    or the bus; a read that does not match, after which the timer shows more
    than ten seconds, ends it with FALSE and the error G_IO_ERROR_TIMED_OUT
    that carries the value just read.  (The bound of the model only has to
    exceed the number of reads.) *)
Theorem lspcon_poll_register_spec register_address mask expected rounds value rest
        bound w :
  Forall (misses mask expected) rounds ->
  byteb value = true ->
  (List.length rounds < bound)%nat ->
  script w = flat_map answers_poll_round rounds ++ answers_register_read value ++ rest ->
  (Z.land value mask = expected ->
   observed (fun w' => (script w', gerror w', i2c_addr w'))
            (lspcon_poll_register bound register_address mask expected w)
   = Some (TRUE tt, (rest, gerror w, i2c_addr w)))
  /\
  (Z.land value mask <> expected ->
   forall elapsed rest',
     rest = RElapsed elapsed :: rest' -> 10000000 < elapsed -> gerror w = None ->
     observed (fun w' => (script w', gerror w', i2c_addr w'))
              (lspcon_poll_register bound register_address mask expected w)
     = Some (FALSE,
             (rest', Some (poll_timed_out register_address mask expected value),
              i2c_addr w))).
Proof.
  intros Hm Hb Hbound Hs.
  destruct (poll_misses register_address mask expected rounds
              (bound - List.length rounds) w _ Hm Hs) as (w1 & E & S1 & G1 & A1).
  replace (List.length rounds + (bound - List.length rounds))%nat with bound in E by lia.
  rewrite E. clear E.
  destruct (bound - List.length rounds)%nat as [|b] eqn:Eb; [lia |].
  unfold lspcon_poll_register. cbn [lspcon_poll_register_loop].
  rewrite (bind_TRUE _ _ _ _ _ (lspcon_read_register_answered _ _ _ _ S1 Hb)).
  split.
  - intros Hv. apply Z.eqb_eq in Hv. rewrite Hv. simpl. rewrite G1, A1. reflexivity.
  - intros Hv elapsed rest' -> He Hg. apply Z.eqb_neq in Hv. rewrite Hv.
    match goal with
    | |- context [bind g_timer_elapsed _ ?w0] =>
        rewrite (bind_TRUE _ _ _ _ _
                   (g_timer_elapsed_answered elapsed rest' w0 eq_refl ltac:(lia)))
    end.
    unfold within_10_seconds. replace (elapsed <=? 10000000) with false
      by (symmetry; apply Z.leb_gt; lia).
    unfold bind, g_set_error, return_FALSE. cbn. rewrite G1, Hg. cbn.
    rewrite A1. reflexivity.
Qed.

(** Two reads of SPI_CTL with the trigger bit still set, then a read with
    the bit clear; and two such reads, the second after the deadline. *)
Lemma lspcon_poll_register_spec_witness :
  let w := opened ([RDone; RBytes [1]; RElapsed 400;
                    RDone; RBytes [1]; RElapsed 900;
                    RDone; RBytes [0]; RDone]) 1 in
  let late := opened ([RDone; RBytes [1]; RElapsed 400;
                       RDone; RBytes [1]; RElapsed 10000001; RDone]) 1 in
  observed (fun w' => (script w', gerror w', i2c_addr w'))
           (lspcon_poll_register 3 REG_ADDR_SPI_CTL SPI_CTL_TRIGGER 0 w)
  = Some (TRUE tt, ([RDone], None, I2C_ADDR_PAGE2))
  /\
  observed (fun w' => (script w', gerror w', i2c_addr w'))
           (lspcon_poll_register 3 REG_ADDR_SPI_CTL SPI_CTL_TRIGGER 0 late)
  = Some (FALSE,
          ([RDone], Some (poll_timed_out REG_ADDR_SPI_CTL SPI_CTL_TRIGGER 0 1),
           I2C_ADDR_PAGE2)).
Proof.
  intros w late. split.
  - apply (proj1 (lspcon_poll_register_spec REG_ADDR_SPI_CTL SPI_CTL_TRIGGER 0
                    [(1, 400); (1, 900)] 0 [RDone] 3 w
                    ltac:(repeat constructor; simpl; lia) eq_refl ltac:(simpl; lia)
                    eq_refl)).
    reflexivity.
  - apply (proj2 (lspcon_poll_register_spec REG_ADDR_SPI_CTL SPI_CTL_TRIGGER 0
                    [(1, 400)] 1 [RElapsed 10000001; RDone] 3 late
                    ltac:(repeat constructor; simpl; lia) eq_refl ltac:(simpl; lia)
                    eq_refl)
             ltac:(discriminate) 10000001 [RDone] eq_refl ltac:(lia) eq_refl).
Defined.

End ParadeTheorems.

(** ** The Goodix plugin *)

Module GoodixTheorems.
Import GoodixFp GoodixVocabulary ParadeWalks.

Lemma Walk_SameVersion q : Walk q SameVersion.
Proof.
  unfold SameVersion. split.
  - intros w w' _ Hd. apply Hd.
  - intros a b c. congruence.
  - intros w w' ev _ Hd _. apply Hd.
Qed.

Lemma Walk_quiet_SameVersion : Walk quiet SameVersion.
Proof. apply Walk_SameVersion. Qed.

#[export] Hint Resolve Walk_quiet_SameVersion : steps.

Section Generic.
Context {P : GxProto}.
Variable q : Event -> bool.
Variable R : World -> World -> Prop.
Hypothesis HR : Walk q R.
Hypothesis Hwarning : forall m, q (EvWarning m) = true.
Hypothesis Hin : forall n, q (EvBulkIn n) = true.

Lemma steps_bulk_transfer_in size : steps R (bulk_transfer_in size).
Proof. unfold bulk_transfer_in. walk. Qed.

#[local] Hint Resolve steps_bulk_transfer_in : steps.

Lemma steps_goodixfp_device_cmd_recv bound presponse data_reply :
  steps R (goodixfp_device_cmd_recv bound presponse data_reply).
Proof.
  unfold goodixfp_device_cmd_recv. revert presponse.
  induction bound as [|bound IH]; intros presponse;
    cbn [goodixfp_device_cmd_recv_loop]; walk.
Qed.

#[local] Hint Resolve steps_goodixfp_device_cmd_recv : steps.

Hypothesis Hout : forall bs, q (EvBulkOut bs) = true.

Lemma steps_bulk_transfer_out_zlp : steps R bulk_transfer_out_zlp.
Proof. unfold bulk_transfer_out_zlp, library_call. walk. Qed.

Lemma steps_bulk_transfer_out data : steps R (bulk_transfer_out data).
Proof. unfold bulk_transfer_out. walk. Qed.

#[local] Hint Resolve steps_bulk_transfer_out_zlp steps_bulk_transfer_out : steps.

Lemma steps_goodixfp_device_cmd_send cmd0 cmd1 pkg_eop request :
  steps R (goodixfp_device_cmd_send cmd0 cmd1 pkg_eop request).
Proof. unfold goodixfp_device_cmd_send. walk. Qed.

#[local] Hint Resolve steps_goodixfp_device_cmd_send : steps.

Lemma steps_fu_goodixfp_device_cmd_xfer bound cmd0 cmd1 pkg_eop request presponse
      data_reply :
  steps R (fu_goodixfp_device_cmd_xfer bound cmd0 cmd1 pkg_eop request presponse
             data_reply).
Proof. unfold fu_goodixfp_device_cmd_xfer. walk. Qed.

#[local] Hint Resolve steps_fu_goodixfp_device_cmd_xfer : steps.

Lemma steps_fu_goodixfp_device_get_version bound :
  steps R (fu_goodixfp_device_get_version bound).
Proof. unfold fu_goodixfp_device_get_version. walk. Qed.

End Generic.

#[export] Hint Resolve steps_bulk_transfer_out_zlp steps_bulk_transfer_out
  steps_bulk_transfer_in steps_goodixfp_device_cmd_send steps_goodixfp_device_cmd_recv
  steps_fu_goodixfp_device_cmd_xfer steps_fu_goodixfp_device_get_version : steps.

Section Receive.
Context {P : GxProto}.

Lemma bulk_transfer_in_answered actual_len buf rest w h :
  script w = RBulk actual_len buf :: rest -> read_answer actual_len buf ->
  on_failure (bulk_transfer_in GX_FLASH_TRANSFER_BLOCK_SIZE) h w
  = Some (TRUE (actual_len, buf), after_read rest w).
Proof.
  intros Hs ((H0 & H1) & Hl & Hb). destruct w as [s t e a p n v f]. simpl in Hs. subst s.
  unfold on_failure, attempt, bulk_transfer_in, bind, emit, reply, mret. cbn.
  apply Z.leb_le in H0, H1. apply Z.eqb_eq in Hl.
  rewrite H0, H1, Hl, Hb. reflexivity.
Qed.

Lemma bulk_transfer_out_zlp_answered rest w h :
  script w = RDone :: rest ->
  on_failure bulk_transfer_out_zlp h w
  = Some (TRUE tt, set_script rest (set_trace (trace w ++ [EvBulkOut []]) w)).
Proof.
  intros Hs. destruct w as [s t e a p n v f]. simpl in Hs. subst s. reflexivity.
Qed.

Lemma bulk_transfer_out_answered data actual_len sent rest w h :
  script w = RBulk actual_len sent :: rest ->
  0 <= actual_len <= Z.of_nat (List.length data) ->
  on_failure (bulk_transfer_out data) h w
  = Some (TRUE actual_len, set_script rest (set_trace (trace w ++ [EvBulkOut data]) w)).
Proof.
  intros Hs [H0 H1]. destruct w as [s t e a p n v f]. simpl in Hs. subst s.
  unfold on_failure, attempt, bulk_transfer_out, bind, emit, reply, mret. cbn.
  apply Z.leb_le in H0, H1. rewrite H0, H1. reflexivity.
Qed.

(** A request that the device takes whole goes out as a zero-length package
    and the package itself. *)
Lemma goodixfp_device_cmd_send_answered cmd0 cmd1 pkg_eop request sent rest w :
  script w = RDone
             :: RBulk (Z.of_nat (List.length (build_package cmd0 cmd1 pkg_eop request)))
                      sent
             :: rest ->
  goodixfp_device_cmd_send cmd0 cmd1 pkg_eop request w
  = Some (TRUE tt,
          set_script rest
            (set_trace (trace w ++ [EvBulkOut [];
                                    EvBulkOut (build_package cmd0 cmd1 pkg_eop request)])
                       w)).
Proof.
  intros Hs. unfold goodixfp_device_cmd_send. cbv zeta.
  rewrite (bind_TRUE _ _ _ _ _ (bulk_transfer_out_zlp_answered _ _ _ Hs)).
  match goal with
  | |- context [bind (on_failure (bulk_transfer_out ?d) ?h) _ ?w0] =>
      rewrite (bind_TRUE _ _ _ _ _
                 (bulk_transfer_out_answered d _ sent rest w0 h eq_refl
                    ltac:(split; lia)))
  end.
  rewrite Z.eqb_refl. cbn [negb]. unfold mret.
  destruct w as [s t e a p n v f]. cbn. rewrite <- app_assoc. reflexivity.
Qed.

(** One round of the receive loop on a zero-length read ... *)
Lemma recv_skips_zero_length bound presponse data_reply buf rest w :
  script w = RBulk 0 buf :: rest -> read_answer 0 buf ->
  goodixfp_device_cmd_recv (S bound) presponse data_reply w
  = goodixfp_device_cmd_recv bound presponse data_reply (after_read rest w).
Proof.
  intros Hs Ha. unfold goodixfp_device_cmd_recv. cbn [goodixfp_device_cmd_recv_loop].
  rewrite (bind_TRUE _ _ _ _ _ (bulk_transfer_in_answered _ _ _ _ _ Hs Ha)).
  reflexivity.
Qed.

(** ... and on a valid package. *)
Lemma recv_parses_package bound presponse presponse' data_reply actual_len buf header
      rest w :
  script w = RBulk actual_len buf :: rest ->
  valid_package actual_len buf header presponse presponse' ->
  goodixfp_device_cmd_recv (S bound) presponse data_reply w
  = if (cmd0 header =? GX_CMD_ACK) && data_reply
    then goodixfp_device_cmd_recv bound presponse' data_reply (after_read rest w)
    else Some (TRUE presponse', after_read rest w).
Proof.
  intros Hs ((Ha & Hn & Hh & H0 & H1 & H2) & Hc & Hp).
  unfold goodixfp_device_cmd_recv. cbn [goodixfp_device_cmd_recv_loop].
  rewrite (bind_TRUE _ _ _ _ _ (bulk_transfer_in_answered _ _ _ _ _ Hs Ha)).
  apply Z.eqb_neq in Hn. rewrite Hn, Hh.
  apply Z.leb_le in H0, H1, H2. rewrite H0, H1, H2. cbn [andb negb].
  unfold computed_crc, carried_crc in Hc. apply Z.eqb_eq in Hc. rewrite Hc.
  cbn [negb]. rewrite Hp.
  destruct ((cmd0 header =? GX_CMD_ACK) && data_reply); reflexivity.
Qed.

(** C7: in the receive loop a zero-length read is skipped and the loop reads
    again; a read that is not empty is parsed as a package; a valid package
    whose command is the acknowledgement is dropped, the loop reading on, if
    and only if the caller waits for a data reply, and otherwise the
    response parsed from the package is returned.  So three zero-length
    reads and then a valid package that is not dropped make the receive
    return the response parsed from that package.  (The bound of the model
    only has to exceed the number of reads.) *)
Theorem recv_loop_filters bound presponse presponse' data_reply actual_len buf header
        rest w :
  valid_package actual_len buf header presponse presponse' ->
  (* a zero-length read is skipped *)
  (forall zbuf, read_answer 0 zbuf -> script w = RBulk 0 zbuf :: rest ->
     goodixfp_device_cmd_recv (S bound) presponse data_reply w
     = goodixfp_device_cmd_recv bound presponse data_reply (after_read rest w)) /\
  (* an acknowledgement is dropped when a data reply is awaited *)
  (script w = RBulk actual_len buf :: rest ->
   cmd0 header = GX_CMD_ACK -> data_reply = true ->
     goodixfp_device_cmd_recv (S bound) presponse data_reply w
     = goodixfp_device_cmd_recv bound presponse' data_reply (after_read rest w)) /\
  (* and any other package is returned *)
  (script w = RBulk actual_len buf :: rest ->
   ~ (cmd0 header = GX_CMD_ACK /\ data_reply = true) ->
     goodixfp_device_cmd_recv (S bound) presponse data_reply w
     = Some (TRUE presponse', after_read rest w)) /\
  (* also behind three zero-length reads *)
  (forall z1 z2 z3,
     read_answer 0 z1 -> read_answer 0 z2 -> read_answer 0 z3 ->
     script w = RBulk 0 z1 :: RBulk 0 z2 :: RBulk 0 z3 :: RBulk actual_len buf :: rest ->
     ~ (cmd0 header = GX_CMD_ACK /\ data_reply = true) ->
     observed (fun w' => (script w', gerror w'))
              (goodixfp_device_cmd_recv (4 + bound) presponse data_reply w)
     = Some (TRUE presponse', (rest, gerror w))).
Proof.
  intros Hv.
  assert (Hret : forall b w0,
             script w0 = RBulk actual_len buf :: rest ->
             ~ (cmd0 header = GX_CMD_ACK /\ data_reply = true) ->
             goodixfp_device_cmd_recv (S b) presponse data_reply w0
             = Some (TRUE presponse', after_read rest w0)).
  { intros b w0 Hs Hno. rewrite (recv_parses_package _ _ _ _ _ _ _ _ _ Hs Hv).
    destruct (cmd0 header =? GX_CMD_ACK) eqn:E; [|reflexivity].
    destruct data_reply; [|reflexivity].
    apply Z.eqb_eq in E. exfalso. auto. }
  repeat split.
  - intros zbuf Hz Hs. exact (recv_skips_zero_length _ _ _ zbuf rest w Hs Hz).
  - intros Hs Hack ->. rewrite (recv_parses_package _ _ _ _ _ _ _ _ _ Hs Hv).
    rewrite Hack, Z.eqb_refl. reflexivity.
  - intros Hs Hno. apply Hret; assumption.
  - intros z1 z2 z3 H1 H2 H3 Hs Hno.
    change (4 + bound)%nat with (S (S (S (S bound)))).
    rewrite (recv_skips_zero_length _ _ _ _ _ _ Hs H1).
    set (w1 := after_read (RBulk 0 z2 :: RBulk 0 z3 :: RBulk actual_len buf :: rest) w).
    rewrite (recv_skips_zero_length _ _ _ z2
               (RBulk 0 z3 :: RBulk actual_len buf :: rest) w1 eq_refl H2).
    set (w2 := after_read (RBulk 0 z3 :: RBulk actual_len buf :: rest) w1).
    rewrite (recv_skips_zero_length _ _ _ z3 (RBulk actual_len buf :: rest) w2 eq_refl H3).
    rewrite (Hret bound (after_read (RBulk actual_len buf :: rest) w2) eq_refl Hno).
    reflexivity.
Qed.

(** C5: on receive the checksum is computed again over header and payload
    and compared with the four little-endian bytes behind them; a package
    for which the two differ is refused, whatever its command and whether or
    not a data reply is awaited: the receive returns FALSE with the error
    "Invalid checksum", and so does the exchange whose request went out. *)
Theorem recv_rejects_bad_checksum bound presponse data_reply actual_len buf header
        rest w :
  holds_package actual_len buf header ->
  computed_crc buf header <> carried_crc buf header ->
  gerror w = None ->
  (script w = RBulk actual_len buf :: rest ->
   goodixfp_device_cmd_recv (S bound) presponse data_reply w
   = Some (FALSE, set_gerror (Some invalid_checksum) (after_read rest w))) /\
  (forall cmd0 cmd1 pkg_eop request sent,
     script w = RDone :: RBulk (Z.of_nat (List.length (build_package cmd0 cmd1 pkg_eop
                                                          request))) sent
                :: RBulk actual_len buf :: rest ->
     observed (fun w' => (script w', gerror w'))
              (fu_goodixfp_device_cmd_xfer (S bound) cmd0 cmd1 pkg_eop request presponse
                 data_reply w)
     = Some (FALSE, (rest, Some invalid_checksum))).
Proof.
  intros (Ha & Hn & Hh & H0 & H1 & H2) Hc Hg.
  assert (Hrecv : forall w0, gerror w0 = None ->
             script w0 = RBulk actual_len buf :: rest ->
             goodixfp_device_cmd_recv (S bound) presponse data_reply w0
             = Some (FALSE, set_gerror (Some invalid_checksum) (after_read rest w0))).
  { intros w0 Hg0 Hs.
    unfold goodixfp_device_cmd_recv. cbn [goodixfp_device_cmd_recv_loop].
    rewrite (bind_TRUE _ _ _ _ _ (bulk_transfer_in_answered _ _ _ _ _ Hs Ha)).
    apply Z.eqb_neq in Hn. rewrite Hn, Hh.
    apply Z.leb_le in H0, H1, H2. rewrite H0, H1, H2. cbn [andb negb].
    unfold computed_crc, carried_crc in Hc. apply Z.eqb_neq in Hc. rewrite Hc.
    cbn [negb]. unfold bind, g_set_error, return_FALSE.
    replace (gerror (after_read rest w0)) with (gerror w0) by reflexivity.
    rewrite Hg0. reflexivity. }
  split; [apply Hrecv; assumption |].
  intros c0 c1 eop request sent Hs.
  unfold fu_goodixfp_device_cmd_xfer.
  pose proof (goodixfp_device_cmd_send_answered _ _ _ _ _ _ _ Hs) as Hsend.
  rewrite (bind_TRUE _ _ _ _ _ Hsend).
  match goal with
  | |- context [goodixfp_device_cmd_recv _ _ _ ?w0] =>
      rewrite (Hrecv w0 Hg eq_refl)
  end.
  reflexivity.
Qed.

End Receive.

Section Setup.
Context {P : GxProto}.

Lemma same_version_get_version bound :
  steps SameVersion (with_error_local (fu_goodixfp_device_get_version bound)).
Proof.
  apply (steps_with_error_local quiet); [apply Walk_quiet_SameVersion |].
  apply (steps_fu_goodixfp_device_get_version quiet);
    [apply Walk_quiet_SameVersion | reflexivity | reflexivity | reflexivity].
Qed.

(** [fu_goodixfp_device_setup] has one exit, and it returns TRUE. *)
Lemma setup_returns_TRUE bound w r w' :
  fu_goodixfp_device_setup bound w = Some (r, w') -> r = TRUE tt.
Proof.
  unfold fu_goodixfp_device_setup. intros H.
  apply bind_inv in H. destruct H as [(x & w1 & H1 & H) | (H1 & _)].
  - apply bind_inv in H. destruct H as [(u & w2 & H2 & H) | (H2 & _)].
    + inversion H. reflexivity.
    + exfalso. destruct x as [[version|] [error_local|]].
      * apply bind_inv in H2.
        destruct H2 as [(u & w3 & _ & H2) | (H2 & _)]; discriminate.
      * apply bind_inv in H2.
        destruct H2 as [(u & w3 & _ & H2) | (H2 & _)]; discriminate.
      * discriminate.
      * discriminate.
  - unfold with_error_local in H1.
    destruct (fu_goodixfp_device_get_version bound (set_gerror None w)) as [[r1 w1]|];
      discriminate.
Qed.

(** When the query of the version fails, setup logs a warning and leaves
    the version as it was. *)
Lemma setup_keeps_version bound w r w' error_local w1 :
  fu_goodixfp_device_setup bound w = Some (r, w') ->
  with_error_local (fu_goodixfp_device_get_version bound) w
  = Some (TRUE (FALSE, error_local), w1) ->
  version w' = version w.
Proof.
  unfold fu_goodixfp_device_setup. intros H Hq.
  rewrite (bind_TRUE _ _ _ _ _ Hq) in H.
  pose proof (same_version_get_version bound _ _ _ Hq) as Hv.
  destruct error_local as [e|]; [|discriminate].
  inversion H; subst. simpl. exact Hv.
Qed.

End Setup.

(** *** The chunks of an update *)

Lemma Walk_not_transfer : Walk not_transfer (Emits (unkept is_transfer)).
Proof.
  apply Walk_Emits. intros ev H. unfold not_transfer in H. unfold unkept.
  destruct (is_transfer ev); [discriminate H | reflexivity].
Qed.

Lemma not_transfer_warning m : not_transfer (EvWarning m) = true.
Proof. reflexivity. Qed.

Lemma not_transfer_in n : not_transfer (EvBulkIn n) = true.
Proof. reflexivity. Qed.

#[export] Hint Resolve Walk_not_transfer not_transfer_warning not_transfer_in : steps.

Section Chunks.
Context {P : GxProto}.

Lemma build_package_transfer cmd0 cmd1 pkg_eop request :
  is_transfer (EvBulkOut (build_package cmd0 cmd1 pkg_eop request)) = true.
Proof.
  unfold build_package, uint32_le.
  destruct (init_pack_header _ cmd0 cmd1 pkg_eop ++ request); reflexivity.
Qed.

Lemma silent_recv bound presponse data_reply :
  steps (Emits (unkept is_transfer))
        (goodixfp_device_cmd_recv bound presponse data_reply).
Proof.
  apply (steps_goodixfp_device_cmd_recv not_transfer); auto with steps.
Qed.

Lemma proto_xfer bound cmd0 cmd1 pkg_eop request presponse data_reply :
  proto is_transfer [EvBulkOut (build_package cmd0 cmd1 pkg_eop request)]
        (fu_goodixfp_device_cmd_xfer bound cmd0 cmd1 pkg_eop request presponse
           data_reply).
Proof.
  unfold fu_goodixfp_device_cmd_xfer.
  apply (proto_bind _ _ _ [EvBulkOut (build_package cmd0 cmd1 pkg_eop request)] []);
    [| intros _; apply proto_silent; [apply silent_recv | reflexivity] | reflexivity].
  unfold goodixfp_device_cmd_send. cbv zeta.
  eapply proto_bind; [apply proto_silent; [| reflexivity] | intros _ | reflexivity].
  { unfold bulk_transfer_out_zlp, library_call. walk. }
  apply (proto_bind _ _ _ [EvBulkOut (build_package cmd0 cmd1 pkg_eop request)] []);
    [| intros actual_len; apply proto_silent; [walk | reflexivity] | reflexivity].
  apply proto_on_failure; [| walk].
  unfold bulk_transfer_out.
  eapply proto_bind; [apply proto_emit, build_package_transfer
                     | intros _; apply proto_silent; [walk | reflexivity]
                     | reflexivity].
Qed.

(** The loop of the source, with its two flags carried from round to round,
    does what the spec's words say, chunk by chunk. *)
Lemma write_firmware_loop_refines bound chunks :
  forall total i reponse w,
    0 <= i -> i + Z.of_nat (List.length chunks) = total -> total <= 4294967296 ->
    write_firmware_loop bound chunks total i false 0x80 reponse w
    = send_chunks bound chunks total i reponse w.
Proof.
  induction chunks as [|chk chunks IH]; intros total i reponse w Hi Ht Hmax;
    [reflexivity |].
  cbn [write_firmware_loop send_chunks]. cbn [List.length] in Ht.
  assert (Hu : u32 (total - 1) = total - 1).
  { unfold u32. apply Z.mod_small. lia. }
  rewrite Hu.
  destruct (i =? total - 1) eqn:E.
  - (* the last chunk: nothing follows *)
    apply Z.eqb_eq in E. destruct chunks as [|chk' chunks']; [|cbn [List.length] in Ht; lia].
    reflexivity.
  - apply bind_ext. intros [[reponse'|] error_local] w1 _; [|reflexivity].
    apply bind_ext. intros u w2 _.
    apply Z.eqb_neq in E. apply IH; lia.
Qed.

Lemma proto_send_chunks bound chunks :
  forall total i reponse,
    proto is_transfer (chunk_plan chunks total i)
          (send_chunks bound chunks total i reponse).
Proof.
  induction chunks as [|chk chunks IH]; intros total i reponse.
  - intros w r w' H. inversion H; subst. exists []. rewrite app_nil_r. auto.
  - cbn [send_chunks chunk_plan]. intros w r w' H.
    apply bind_inv in H. destruct H as [(x & w1 & H1 & H) | (H1 & _)].
    2:{ unfold with_error_local in H1.
        destruct (fu_goodixfp_device_cmd_xfer _ _ _ _ _ _ _ _) as [[r1 w2]|];
          discriminate. }
    unfold with_error_local in H1.
    destruct (fu_goodixfp_device_cmd_xfer _ _ _ _ _ _ _ (set_gerror None w))
      as [[r1 w2]|] eqn:Ex; [|discriminate].
    inversion H1; subst. clear H1.
    destruct (proto_xfer _ _ _ _ _ _ _ _ _ _ Ex) as (e1 & T1 & F1).
    change (trace (set_gerror None w)) with (trace w) in T1.
    destruct r1 as [reponse'|].
    + apply bind_inv in H. destruct H as [(u & w3 & H3 & H) | (H3 & _)];
        [|discriminate].
      inversion H3; subst. clear H3.
      destruct (IH _ _ _ _ _ _ H) as (e2 & T2 & F2).
      exists (e1 ++ EvProgress i total :: e2). split.
      * rewrite T2. simpl. rewrite T1, <- !app_assoc. reflexivity.
      * rewrite filter_app, F1. simpl.
        destruct r; [rewrite F2; reflexivity |].
        destruct F2 as (s & ->). exists s. reflexivity.
    + destruct (gerror w2) as [error_local|]; [|discriminate].
      apply bind_inv in H. destruct H as [(u & w3 & H3 & H) | (H3 & ->)].
      * inversion H; subst.
        assert (G : steps (Emits (unkept is_transfer))
                          (g_set_error FWUPD_ERROR_WRITE
                             (FormatMessage "failed to write: %s" (message error_local))))
          by walk.
        destruct (G _ _ _ H3) as (e2 & T2 & F2). simpl in T2.
        exists (e1 ++ e2). split; [rewrite T2, T1, app_assoc; reflexivity |].
        rewrite filter_app, (filter_unkept _ _ F2), app_nil_r.
        destruct F1 as (s & F1). exists (s ++ EvProgress i total
                                            :: chunk_plan chunks total (i + 1)).
        rewrite app_assoc, <- F1. reflexivity.
      * unfold g_set_error in H3. destruct (gerror _); discriminate.
Qed.


End Chunks.

Ltac concrete :=
  vm_compute;
  first [reflexivity | discriminate
        | let H := fresh in intros H; discriminate H].

Lemma read_answer_zlp : read_answer 0 (repeat 0 1000).
Proof. repeat split; concrete. Qed.

Lemma valid_version_package :
  valid_package (P := example_proto) 18 (in_buffer version_package)
    (mkHeader 9 0xD0 0 0) (mkResponse 0 (repeat 0 8))
    (mkResponse 0 [49; 50; 51; 52; 53; 54; 55; 56]).
Proof. repeat split; concrete. Qed.

Lemma valid_ack_package presponse :
  valid_package (P := example_proto) 11 (in_buffer ack_package)
    (mkHeader 2 0xAA 0 0) presponse (mkResponse 0 (ex_fwversion presponse)).
Proof. repeat split; concrete. Qed.

(** Three zero-length reads, then the answer to a version query. *)
Lemma recv_loop_filters_witness :
  let w := plugged [answers_zlp; answers_zlp; answers_zlp;
                    answers_package version_package; RDone] in
  observed (fun w' => (script w', gerror w'))
           (goodixfp_device_cmd_recv (P := example_proto) 5 reponse_zero true w)
  = Some (TRUE (mkResponse 0 [49; 50; 51; 52; 53; 54; 55; 56]), ([RDone], None)).
Proof.
  intros w.
  refine (proj2 (proj2 (proj2
            (recv_loop_filters (P := example_proto) 1 _ _ true _ _ _ [RDone] w
               valid_version_package)))
            _ _ _ read_answer_zlp read_answer_zlp read_answer_zlp eq_refl _).
  intros [H _]. discriminate H.
Defined.

(** An acknowledgement whose checksum is wrong, while a data reply is
    awaited. *)
Lemma recv_rejects_bad_checksum_witness :
  let w := plugged [answers_package (corrupted ack_package); RDone] in
  goodixfp_device_cmd_recv (P := example_proto) 2 reponse_zero true w
  = Some (FALSE, set_gerror (Some invalid_checksum) (after_read [RDone] w)).
Proof.
  intros w.
  refine (proj1 (recv_rejects_bad_checksum (P := example_proto) 1 reponse_zero true
                   11 (in_buffer (corrupted ack_package)) (mkHeader 2 0xAA 0 0)
                   [RDone] w _ _ eq_refl) eq_refl).
  - repeat split; concrete.
  - concrete.
Defined.


End GoodixTheorems.

(** ** The version at setup and reload *)

Module LifecycleTheorems.
Import ParadeLspcon ParadeVocabulary GoodixFp GoodixVocabulary GoodixTheorems.

Lemma reload_fails_on_version_read partition name rest w :
  1 <= partition <= 3 -> aux_device_name w = Some name -> gerror w = None ->
  script w = answers_reload_until_version partition ++ RFail :: rest ->
  observed (fun w' => (script w', gerror w', version w'))
           (fu_parade_lspcon_device_reload w)
  = Some (FALSE, (rest, Some (mkGError LIBRARY_ERROR LibraryText), version w)).
Proof.
  intros Hp Hn Hg Hs. destruct w as [s t e a p n v f]. simpl in Hn, Hg, Hs. subst s e n.
  assert (Hc : partition = 1 \/ partition = 2 \/ partition = 3) by lia.
  destruct Hc as [-> | [-> | ->]]; vm_compute; reflexivity.
Qed.

(** C9, as the code has it: the setup of the Goodix device returns TRUE
    whatever happens to the query of the version, and when the query fails
    the version is left as it was; the reload of the LSPCON returns FALSE
    when the read of the firmware revision from the DP aux device fails,
    with the error of the read and the version left as it was. *)
Theorem version_failure_at_setup_and_reload :
  (forall (P : GxProto) bound w r w',
      fu_goodixfp_device_setup bound w = Some (r, w') ->
      r = TRUE tt /\
      forall error_local w1,
        with_error_local (fu_goodixfp_device_get_version bound) w
        = Some (TRUE (FALSE, error_local), w1) ->
        version w' = version w)
  /\
  (forall partition name rest w,
      1 <= partition <= 3 -> aux_device_name w = Some name -> gerror w = None ->
      script w = answers_reload_until_version partition ++ RFail :: rest ->
      observed (fun w' => (script w', gerror w', version w'))
               (fu_parade_lspcon_device_reload w)
      = Some (FALSE, (rest, Some (mkGError LIBRARY_ERROR LibraryText), version w))).
Proof.
  split.
  - intros P bound w r w' H. split.
    + exact (setup_returns_TRUE bound w r w' H).
    + intros error_local w1 Hq. exact (setup_keeps_version bound w r w' _ _ H Hq).
  - exact reload_fails_on_version_read.
Qed.

(** The Goodix device answers the version query with a package whose
    checksum is wrong; the DP aux device of the LSPCON fails the read of the
    revision. *)
Lemma version_failure_at_setup_and_reload_witness :
  let w := plugged answers_version_corrupted in
  let w' := world_after (fu_goodixfp_device_setup (P := example_proto) 3 w) w in
  (fu_goodixfp_device_setup (P := example_proto) 3 w = Some (TRUE tt, w') /\
   version w' = version w)
  /\
  observed (fun w' => (script w', gerror w', version w'))
           (fu_parade_lspcon_device_reload
              (opened (answers_reload_until_version 1 ++ [RFail]) 0))
  = Some (FALSE, ([], Some (mkGError LIBRARY_ERROR LibraryText), None)).
Proof.
  intros w w'.
  assert (Hrun : fu_goodixfp_device_setup (P := example_proto) 3 w = Some (TRUE tt, w')).
  { apply run_shape. vm_compute. reflexivity. }
  assert (Hq : with_error_local (fu_goodixfp_device_get_version (P := example_proto) 3) w
               = Some (TRUE (FALSE, Some invalid_checksum),
                       world_after
                         (with_error_local
                            (fu_goodixfp_device_get_version (P := example_proto) 3) w) w)).
  { apply run_shape. vm_compute. reflexivity. }
  split.
  - split; [exact Hrun |].
    exact (proj2 (proj1 version_failure_at_setup_and_reload example_proto 3%nat w _ w'
                    Hrun) _ _ Hq).
  - exact (proj2 version_failure_at_setup_and_reload 1 "DPDDC-B"%string []
             (opened (answers_reload_until_version 1 ++ [RFail]) 0)
             ltac:(lia) eq_refl eq_refl eq_refl).
Defined.

(** C9, as the claim has it, fails for the LSPCON: everything up to the
    read of the firmware revision succeeds, that read fails, and the reload
    returns FALSE. *)
Lemma reload_fails_when_version_read_fails :
  observed version
           (fu_parade_lspcon_device_reload
              (opened (answers_reload_until_version 1 ++ [RFail]) 0))
  = Some (FALSE, None).
Proof. vm_compute. reflexivity. Qed.

End LifecycleTheorems.

(** * Further properties *)

(** ** Runs that follow the script *)

Lemma answered_answered rest1 evs1 rest2 evs2 w :
  answered rest2 evs2 (answered rest1 evs1 w) = answered rest2 (evs1 ++ evs2) w.
Proof. unfold answered. cbn. rewrite app_assoc. reflexivity. Qed.

Lemma answered_nil w rest : script w = rest -> answered rest [] w = w.
Proof. destruct w. unfold answered. cbn. intros ->. rewrite app_nil_r. reflexivity. Qed.

Lemma library_call_answered ev rest w :
  script w = RDone :: rest -> library_call ev w = Some (TRUE tt, answered rest [ev] w).
Proof.
  destruct w as [s t e a p n v f]. cbn. intros ->. reflexivity.
Qed.

Lemma library_call_fails ev rest w :
  script w = RFail :: rest -> gerror w = None ->
  library_call ev w
  = Some (FALSE, set_gerror (Some library_error) (answered rest [ev] w)).
Proof.
  destruct w as [s t e a p n v f]. cbn. intros -> ->. reflexivity.
Qed.

Lemma library_read_answered ev n bs rest w :
  script w = RBytes bs :: rest ->
  Z.of_nat (List.length bs) = n -> forallb byteb bs = true ->
  library_read ev n w = Some (TRUE bs, answered rest [ev] w).
Proof.
  destruct w as [s t e a p m v f]. cbn [script]. intros -> Hn Hb.
  unfold library_read, emit, reply, bind. cbn [script set_trace trace set_script].
  apply Z.eqb_eq in Hn. rewrite Hn, Hb. reflexivity.
Qed.

(** Follow a run through its next call, which the script answers. *)
Ltac answered_by lem :=
  erewrite bind_TRUE; [| apply lem; first [eassumption | reflexivity]].
Ltac failed_by lem :=
  erewrite bind_FALSE; [| apply lem; first [eassumption | reflexivity]].

(** ** Failures and the error slot *)

Lemma reports_bind {A B} (m : M A) (k : A -> M B) :
  reports_failure m -> (forall a, reports_failure (k a)) -> reports_failure (bind m k).
Proof.
  intros Hm Hk w r w' H. apply bind_inv in H.
  destruct H as [(a & w1 & H1 & H2) | (H1 & ->)].
  - destruct (Hm _ _ _ H1) as (K1 & _). destruct (Hk a _ _ _ H2) as (K2 & F2). auto.
  - destruct (Hm _ _ _ H1) as (K1 & F1). auto.
Qed.

Lemma reports_mret {A} (a : A) : reports_failure (mret a).
Proof. intros w r w' H. inversion H; subst. split; [auto | discriminate]. Qed.

Lemma reports_undefined {A} : reports_failure (@undefined A).
Proof. intros w r w' H. discriminate. Qed.

Lemma reports_emit ev : reports_failure (emit ev).
Proof. intros w r w' H. inversion H; subst. split; [auto | discriminate]. Qed.

Lemma reports_reply : reports_failure reply.
Proof.
  intros w r w' H. unfold reply in H. destruct (script w); inversion H; subst.
  split; [auto | discriminate].
Qed.

(** Updates of the device that leave the error slot alone. *)
Lemma reports_update {A} (a : World -> A) (f : World -> World) :
  (forall w, gerror (f w) = gerror w) ->
  reports_failure (fun w => Some (TRUE (a w), f w)).
Proof.
  intros Hf w r w' H. inversion H; subst. rewrite Hf. split; [auto | discriminate].
Qed.

Lemma reports_g_set_error_FALSE {A} c m :
  reports_failure (g_set_error c m ;; @return_FALSE A).
Proof.
  intros w r w' H. unfold bind, g_set_error, return_FALSE in H.
  destruct (gerror w) eqn:E; inversion H; subst; cbn; rewrite ?E;
    split; intros; discriminate.
Qed.

Lemma reports_g_prefix_error p args : reports_failure (g_prefix_error p args).
Proof.
  intros w r w' H. unfold g_prefix_error in H.
  destruct (gerror w) eqn:E; inversion H; subst; cbn; rewrite ?E;
    split; intros; try discriminate; auto.
Qed.

Lemma reports_attempt {A} (m : M A) : reports_failure m -> reports_failure (attempt m).
Proof.
  intros Hm w r w' H. unfold attempt in H.
  destruct (m w) as [[r1 w1]|] eqn:E; inversion H; subst.
  split; [apply (Hm _ _ _ E) | discriminate].
Qed.

Lemma reports_on_failure {A} (m : M A) h :
  reports_failure m -> reports_failure h -> reports_failure (on_failure m h).
Proof.
  intros Hm Hh w r w' H. unfold on_failure in H. apply bind_inv in H.
  destruct H as [(a & w1 & H1 & H2) | (H1 & _)].
  - unfold attempt in H1. destruct (m w) as [[r1 w2]|] eqn:E; [| discriminate].
    inversion H1; subst. destruct (Hm _ _ _ E) as (K1 & F1).
    destruct a as [a|].
    + inversion H2; subst. split; [exact K1 | discriminate].
    + specialize (F1 eq_refl). apply bind_inv in H2.
      destruct H2 as [(u & w3 & H2 & H3) | (H2 & ->)].
      * inversion H3; subst. destruct (Hh _ _ _ H2) as (K2 & _). auto.
      * destruct (Hh _ _ _ H2) as (K2 & _). auto.
  - unfold attempt in H1. destruct (m w) as [[r1 w2]|]; discriminate.
Qed.

Lemma reports_g_return_val_if_fail : reports_failure (g_return_val_if_fail true).
Proof. apply reports_mret. Qed.

Create HintDb reports discriminated.
Create HintDb clean discriminated.
#[export] Hint Resolve reports_mret reports_undefined reports_emit reports_reply
  reports_g_set_error_FALSE reports_g_prefix_error reports_attempt
  reports_on_failure reports_g_return_val_if_fail : reports.

(** One step of a proof that a computation keeps the convention. *)
Ltac report_step :=
  match goal with
  | |- reports_failure (bind (g_set_error _ _) (fun _ => return_FALSE)) =>
      apply reports_g_set_error_FALSE
  | |- reports_failure (bind _ _) => apply reports_bind; [| intros ?]
  | |- reports_failure (on_failure _ _) => apply reports_on_failure
  | |- reports_failure (attempt _) => apply reports_attempt
  | |- reports_failure (match ?x with _ => _ end) => destruct x
  | |- reports_failure (if ?c then _ else _) => destruct c
  | |- reports_failure _ => solve [auto with reports]
  end.
Ltac report := solve [repeat report_step].

Lemma reports_library_call ev : reports_failure (library_call ev).
Proof. unfold library_call. report. Qed.

Lemma reports_library_read ev n : reports_failure (library_read ev n).
Proof. unfold library_read. report. Qed.

Lemma reports_g_timer_elapsed : reports_failure g_timer_elapsed.
Proof. unfold g_timer_elapsed. report. Qed.

#[export] Hint Resolve reports_library_call reports_library_read
  reports_g_timer_elapsed : reports.


(** A run that succeeds leaves the error slot alone. *)

Lemma clean_bind {A B} (m : M A) (k : A -> M B) :
  succeeds_cleanly m -> (forall a, succeeds_cleanly (k a)) -> succeeds_cleanly (bind m k).
Proof.
  intros Hm Hk w b w' H. apply bind_inv in H.
  destruct H as [(a & w1 & H1 & H2) | (_ & H)]; [| discriminate].
  rewrite (Hk a _ _ _ H2). apply (Hm _ _ _ H1).
Qed.

Lemma clean_mret {A} (a : A) : succeeds_cleanly (mret a).
Proof. intros w b w' H. inversion H; subst. reflexivity. Qed.

Lemma clean_undefined {A} : succeeds_cleanly (@undefined A).
Proof. intros w b w' H. discriminate. Qed.

Lemma clean_return_FALSE {A} : succeeds_cleanly (@return_FALSE A).
Proof. intros w b w' H. discriminate. Qed.

Lemma clean_emit ev : succeeds_cleanly (emit ev).
Proof. intros w b w' H. inversion H; subst. reflexivity. Qed.

Lemma clean_reply : succeeds_cleanly reply.
Proof.
  intros w b w' H. unfold reply in H. destruct (script w); inversion H; subst.
  reflexivity.
Qed.

Lemma clean_g_set_error_FALSE {A} c m :
  succeeds_cleanly (g_set_error c m ;; @return_FALSE A).
Proof.
  intros w b w' H. apply bind_inv in H.
  destruct H as [(a & w1 & _ & H) | (_ & H)]; discriminate.
Qed.

Lemma clean_on_failure {A} (m : M A) h :
  succeeds_cleanly m -> succeeds_cleanly (on_failure m h).
Proof.
  intros Hm w b w' H. unfold on_failure in H. apply bind_inv in H.
  destruct H as [(r & w1 & H1 & H2) | (_ & H)]; [| discriminate].
  unfold attempt in H1. destruct (m w) as [[r1 w2]|] eqn:E; [| discriminate].
  inversion H1; subst. destruct r as [a|].
  - inversion H2; subst. apply (Hm _ _ _ E).
  - apply bind_inv in H2. destruct H2 as [(u & w3 & _ & H2) | (_ & H2)]; discriminate.
Qed.

#[export] Hint Resolve clean_mret clean_undefined clean_return_FALSE clean_emit
  clean_reply clean_g_set_error_FALSE clean_on_failure : clean.

Ltac clean_step :=
  match goal with
  | |- succeeds_cleanly (bind (g_set_error _ _) (fun _ => return_FALSE)) =>
      apply clean_g_set_error_FALSE
  | |- succeeds_cleanly (bind _ _) => apply clean_bind; [| intros ?]
  | |- succeeds_cleanly (on_failure _ _) => apply clean_on_failure
  | |- succeeds_cleanly (match ?x with _ => _ end) => destruct x
  | |- succeeds_cleanly (if ?c then _ else _) => destruct c
  | |- succeeds_cleanly _ => solve [auto with clean]
  end.
Ltac clean := solve [repeat clean_step].

Lemma clean_library_call ev : succeeds_cleanly (library_call ev).
Proof. unfold library_call. clean. Qed.

Lemma clean_library_read ev n : succeeds_cleanly (library_read ev n).
Proof. unfold library_read. clean. Qed.

#[export] Hint Resolve clean_library_call clean_library_read : clean.

(** ** The fields of the device *)

Lemma Walk_SameFields : Walk any_event SameFields.
Proof.
  unfold SameFields. split.
  - intros w w' _ (_ & Hp & Hn & Hv & Hf). auto.
  - intros a b c (P1 & N1 & V1 & F1) (P2 & N2 & V2 & F2).
    repeat split; congruence.
  - intros w w' ev _ (_ & Hp & Hn & Hv & Hf) _. auto.
Qed.

Lemma same_fields_refl w : SameFields w w.
Proof. repeat split. Qed.

Lemma same_fields_trans a b c : SameFields a b -> SameFields b c -> SameFields a c.
Proof. apply (walk_trans _ _ Walk_SameFields). Qed.

#[export] Hint Resolve Walk_SameFields : steps.


(** ** The answers a run consumes *)

Lemma onward_refl w : Onward w w.
Proof. split; exists []; [reflexivity | rewrite app_nil_r; reflexivity]. Qed.

Lemma onward_trans a b c : Onward a b -> Onward b c -> Onward a c.
Proof.
  intros ((c1 & S1) & (e1 & T1)) ((c2 & S2) & (e2 & T2)). split.
  - exists (c1 ++ c2). rewrite S1, S2, app_assoc. reflexivity.
  - exists (e1 ++ e2). rewrite T2, T1, app_assoc. reflexivity.
Qed.

(** A step that leaves script and log alone. *)
Lemma onward_same w w' : script w' = script w -> trace w' = trace w -> Onward w w'.
Proof.
  intros Hs Ht. unfold Onward. rewrite Hs, Ht.
  split; exists []; [reflexivity | rewrite app_nil_r; reflexivity].
Qed.

Lemma onward_bind {A B} (m : M A) (k : A -> M B) :
  steps Onward m -> (forall a, steps Onward (k a)) -> steps Onward (bind m k).
Proof.
  intros Hm Hk w r w' H. apply bind_inv in H.
  destruct H as [(a & w1 & H1 & H2) | (H1 & _)].
  - eapply onward_trans; [eapply Hm | eapply Hk]; eauto.
  - eapply Hm; eauto.
Qed.

Lemma onward_mret {A} (a : A) : steps Onward (mret a).
Proof. intros w r w' H. inversion H. apply onward_refl. Qed.

Lemma onward_return_FALSE {A} : steps Onward (@return_FALSE A).
Proof. intros w r w' H. inversion H. apply onward_refl. Qed.

Lemma onward_undefined {A} : steps Onward (@undefined A).
Proof. intros w r w' H. discriminate. Qed.

Lemma onward_emit ev : steps Onward (emit ev).
Proof.
  intros w r w' H. inversion H; subst. split; [exists [] | exists [ev]]; reflexivity.
Qed.

Lemma onward_reply : steps Onward reply.
Proof.
  intros w r w' H. unfold reply in H. destruct (script w) as [|rp rest] eqn:E;
    inversion H; subst. split; [exists [rp] | exists []]; cbn.
  - exact E.
  - rewrite app_nil_r. reflexivity.
Qed.

Lemma onward_g_set_error c m : steps Onward (g_set_error c m).
Proof.
  intros w r w' H. unfold g_set_error in H. destruct (gerror w); inversion H; subst.
  - split; [exists [] | exists [EvWarning m]]; reflexivity.
  - apply onward_same; reflexivity.
Qed.

Lemma onward_g_prefix_error p args : steps Onward (g_prefix_error p args).
Proof.
  intros w r w' H. unfold g_prefix_error in H.
  destruct (gerror w); inversion H; subst; apply onward_same; reflexivity.
Qed.

Lemma onward_attempt {A} (m : M A) : steps Onward m -> steps Onward (attempt m).
Proof.
  intros Hm w r w' H. unfold attempt in H.
  destruct (m w) as [[r1 w1]|] eqn:E; inversion H; subst. eapply Hm; eauto.
Qed.

Lemma onward_with_error_NULL {A} (m : M A) :
  steps Onward m -> steps Onward (with_error_NULL m).
Proof.
  intros Hm w r w' H. unfold with_error_NULL in H.
  destruct (m (set_gerror None w)) as [[r1 w1]|] eqn:E; inversion H; subst.
  destruct (Hm _ _ _ E) as ((c1 & S1) & (e1 & T1)).
  split; [exists c1 | exists e1]; assumption.
Qed.

Create HintDb onward discriminated.
#[export] Hint Resolve onward_mret onward_return_FALSE onward_undefined onward_emit
  onward_reply onward_g_set_error onward_g_prefix_error onward_attempt
  onward_with_error_NULL : onward.

Ltac onward_step :=
  match goal with
  | |- steps Onward (bind _ _) => apply onward_bind; [| intros ?]
  | |- steps Onward (on_failure _ _) => unfold on_failure
  | |- steps Onward (attempt _) => apply onward_attempt
  | |- steps Onward (with_error_NULL _) => apply onward_with_error_NULL
  | |- steps Onward (match ?x with _ => _ end) => destruct x
  | |- steps Onward (if ?c then _ else _) => destruct c
  | |- steps Onward _ => solve [auto with onward]
  end.
Ltac onward := solve [repeat onward_step].

Lemma onward_library_call ev : steps Onward (library_call ev).
Proof. unfold library_call. onward. Qed.

Lemma onward_library_read ev n : steps Onward (library_read ev n).
Proof. unfold library_read. onward. Qed.

#[export] Hint Resolve onward_library_call onward_library_read : onward.

(** A library read that succeeds consumed the answer that holds the bytes
    it returns, and logged the call. *)
Lemma library_read_consumed ev n w bs w' :
  library_read ev n w = Some (TRUE bs, w') ->
  script w = RBytes bs :: script w' /\ trace w' = trace w ++ [ev].
Proof.
  intros H. destruct w as [s t e a p nm v f]. cbn in H.
  destruct s as [|[| |bytes| | |] rest]; cbn in H; try discriminate.
  - destruct e; discriminate.
  - destruct ((Z.of_nat (List.length bytes) =? n) && forallb byteb bytes);
      [| discriminate].
    inversion H; subst. cbn. auto.
Qed.

(** ** Register traffic of the flash commands *)

Module ParadeTrafficTheorems.
Import ParadeLspcon ParadeVocabulary ParadeTraffic.

Lemma lspcon_write_register_answered register_addr value rest w :
  script w = RDone :: rest ->
  lspcon_write_register register_addr value w
  = Some (TRUE tt, answered rest [EvI2cWrite [register_addr; value]] w).
Proof. apply library_call_answered. Qed.

Lemma lspcon_write_register_fails register_addr value rest w :
  script w = RFail :: rest -> gerror w = None ->
  lspcon_write_register register_addr value w
  = Some (FALSE, set_gerror (Some library_error)
                   (answered rest [EvI2cWrite [register_addr; value]] w)).
Proof. apply library_call_fails. Qed.

Lemma write_fifo_answered command : forall rest w,
  script w = repeat RDone (List.length command) ++ rest ->
  write_fifo command w
  = Some (TRUE tt,
          answered rest (map (fun b => EvI2cWrite [REG_ADDR_WR_FIFO; b]) command) w).
Proof.
  induction command as [|b command IH]; intros rest w Hs.
  - cbn. rewrite answered_nil; auto.
  - cbn [write_fifo].
    rewrite (bind_TRUE _ _ _ _ _ (lspcon_write_register_answered _ _ _ _ Hs)).
    rewrite (IH rest); [| reflexivity].
    rewrite answered_answered. reflexivity.
Qed.

Lemma write_fifo_fails command : forall k rest w,
  (k < List.length command)%nat ->
  script w = repeat RDone k ++ RFail :: rest -> gerror w = None ->
  write_fifo command w
  = Some (FALSE,
          set_gerror (Some library_error)
            (answered rest
               (firstn (S k) (map (fun b => EvI2cWrite [REG_ADDR_WR_FIFO; b]) command))
               w)).
Proof.
  induction command as [|b command IH]; intros k rest w Hk Hs He; [inversion Hk |].
  cbn [write_fifo]. destruct k as [|k].
  - rewrite (bind_FALSE _ _ _ _ (lspcon_write_register_fails _ _ _ _ Hs He)).
    reflexivity.
  - rewrite (bind_TRUE _ _ _ _ _ (lspcon_write_register_answered _ _ _ _ Hs)).
    rewrite (IH k rest); [| simpl in Hk; lia | reflexivity | exact He].
    rewrite answered_answered. reflexivity.
Qed.

Lemma command_length_ok (command : list Z) :
  (0 < List.length command <= 16)%nat ->
  (0 <? Z.of_nat (List.length command)) && (Z.of_nat (List.length command) <=? 16)
  = true.
Proof.
  intros H. apply andb_true_iff. split; [apply Z.ltb_lt | apply Z.leb_le]; lia.
Qed.

Lemma flash_transmit_command_refused command w :
  (List.length command = 0 \/ 16 < List.length command)%nat ->
  flash_transmit_command command w
  = Some (FALSE, set_trace (trace w ++ [EvCritical]) w).
Proof.
  intros H. unfold flash_transmit_command.
  assert (Hc : (0 <? Z.of_nat (List.length command))
               && (Z.of_nat (List.length command) <=? 16) = false).
  { apply andb_false_iff. destruct H as [H | H].
    - left. apply Z.ltb_ge. lia.
    - right. apply Z.leb_gt. lia. }
  cbv zeta. rewrite Hc. reflexivity.
Qed.

Lemma flash_transmit_command_answered command rest w :
  (0 < List.length command <= 16)%nat ->
  script w = repeat RDone (List.length command + 2) ++ rest ->
  flash_transmit_command command w
  = Some (TRUE tt, answered rest (command_writes command) w).
Proof.
  intros Hl Hs. unfold flash_transmit_command. cbv zeta.
  rewrite (command_length_ok _ Hl). cbn [g_return_val_if_fail].
  rewrite (bind_TRUE _ _ w tt w eq_refl).
  rewrite repeat_app, <- app_assoc in Hs.
  rewrite (bind_TRUE _ _ _ _ _ (write_fifo_answered _ _ _ Hs)).
  answered_by lspcon_write_register_answered.
  erewrite lspcon_write_register_answered; [| reflexivity].
  rewrite !answered_answered. unfold command_writes, u8.
  rewrite Z.mod_small by lia. reflexivity.
Qed.

(** X1: a command that is empty or longer than the sixteen bytes of the
    write FIFO is refused before anything is written, with the failed
    precondition logged and no error set.  A command of one to sixteen
    bytes goes out as one register write per byte into the write FIFO, in
    order, then its length less one, then the trigger; and the first write
    that fails ends the function, so the trigger is written only once every
    byte and the length were accepted. *)
Theorem flash_transmit_command_writes command rest w :
  ((List.length command = 0 \/ 16 < List.length command)%nat ->
   flash_transmit_command command w
   = Some (FALSE, set_trace (trace w ++ [EvCritical]) w))
  /\
  ((0 < List.length command <= 16)%nat ->
   (script w = repeat RDone (List.length command + 2) ++ rest ->
    flash_transmit_command command w
    = Some (TRUE tt, answered rest (command_writes command) w))
   /\
   (forall k, (k < List.length command + 2)%nat ->
      script w = repeat RDone k ++ RFail :: rest -> gerror w = None ->
      flash_transmit_command command w
      = Some (FALSE,
              set_gerror (Some library_error)
                (answered rest (firstn (S k) (command_writes command)) w)))).
Proof.
  split; [apply flash_transmit_command_refused |].
  intros Hl. split; [apply flash_transmit_command_answered; exact Hl |].
  intros k Hk Hs He. unfold flash_transmit_command. cbv zeta.
  rewrite (command_length_ok _ Hl). cbn [g_return_val_if_fail].
  rewrite (bind_TRUE _ _ w tt w eq_refl).
  unfold command_writes.
  set (fifo := map (fun b => EvI2cWrite [REG_ADDR_WR_FIFO; b]) command).
  assert (Hf : List.length fifo = List.length command)
    by (unfold fifo; apply length_map).
  destruct (Nat.lt_ge_cases k (List.length command)) as [Hlt | Hge].
  - rewrite (bind_FALSE _ _ _ _ (write_fifo_fails _ _ _ _ Hlt Hs He)).
    fold fifo. rewrite firstn_app.
    replace (S k - List.length fifo)%nat with 0%nat by lia.
    cbn [firstn]. rewrite app_nil_r. reflexivity.
  - replace k with (List.length command + (k - List.length command))%nat in Hs by lia.
    rewrite repeat_app, <- app_assoc in Hs.
    rewrite (bind_TRUE _ _ _ _ _ (write_fifo_answered _ _ _ Hs)). fold fifo.
    rewrite firstn_app, firstn_all2 by lia.
    replace (S k - List.length fifo)%nat with (S (k - List.length command)) by lia.
    destruct (k - List.length command)%nat as [|[|j]] eqn:Ej; [| |lia].
    + failed_by lspcon_write_register_fails.
      rewrite answered_answered. unfold u8. rewrite Z.mod_small by lia. reflexivity.
    + answered_by lspcon_write_register_answered.
      erewrite lspcon_write_register_fails; [| reflexivity | exact He].
      rewrite !answered_answered. unfold u8. rewrite Z.mod_small by lia.
      reflexivity.
Qed.

(** A command of three bytes that the device takes, the same command with
    its last byte refused, and a command of seventeen bytes. *)
Lemma flash_transmit_command_writes_witness :
  let w := opened [RDone; RDone; RDone; RDone; RDone; RFail] 1 in
  let w1 := opened [RDone; RDone; RFail; RDone] 1 in
  flash_transmit_command write_sr_disable_bp w
  = Some (TRUE tt, answered [RFail] (command_writes write_sr_disable_bp) w)
  /\
  flash_transmit_command write_sr_disable_bp w1
  = Some (FALSE,
          set_gerror (Some library_error)
            (answered [RDone] (firstn 3 (command_writes write_sr_disable_bp)) w1))
  /\
  flash_transmit_command (repeat 0xFF 17) w
  = Some (FALSE, set_trace (trace w ++ [EvCritical]) w).
Proof.
  intros w w1.
  assert (Hl : (0 < List.length write_sr_disable_bp <= 16)%nat) by (vm_compute; lia).
  split; [| split].
  - exact (proj1 (proj2 (flash_transmit_command_writes write_sr_disable_bp [RFail] w)
                    Hl)
             eq_refl).
  - exact (proj2 (proj2 (flash_transmit_command_writes write_sr_disable_bp [RDone] w1)
                    Hl)
             2%nat ltac:(vm_compute; lia) eq_refl eq_refl).
  - exact (proj1 (flash_transmit_command_writes (repeat 0xFF 17) [] w)
             ltac:(right; vm_compute; lia)).
Defined.

(** X2: an erase whose address is not on a block boundary, or whose size is
    not one block, and a write whose address is not on a page boundary are
    refused before anything is announced or written: the functions return
    FALSE, log the failed precondition and set no error. *)
Theorem flash_operations_refuse_misaligned bound base_address w :
  (forall size,
     Z.land base_address (FLASH_BLOCK_SIZE - 1) <> 0 \/ size <> FLASH_BLOCK_SIZE ->
     flash_erase_block bound base_address size w
     = Some (FALSE, set_trace (trace w ++ [EvCritical]) w))
  /\
  (forall data,
     Z.land base_address 0xFF <> 0 ->
     flash_write base_address data w
     = Some (FALSE, set_trace (trace w ++ [EvCritical]) w)).
Proof.
  split.
  - intros size H. unfold flash_erase_block. cbv zeta.
    destruct (Z.land base_address (FLASH_BLOCK_SIZE - 1) =? 0) eqn:Ea; [| reflexivity].
    destruct (size =? FLASH_BLOCK_SIZE) eqn:Es; [| reflexivity].
    apply Z.eqb_eq in Ea, Es. destruct H; contradiction.
  - intros data H. unfold flash_write.
    apply Z.eqb_neq in H. rewrite H. reflexivity.
Qed.

Lemma flash_operations_refuse_misaligned_witness :
  let w := opened [RDone] 1 in
  flash_erase_block 3 0x10100 FLASH_BLOCK_SIZE w
  = Some (FALSE, set_trace (trace w ++ [EvCritical]) w)
  /\
  flash_write 0x10001 [0x55] w
  = Some (FALSE, set_trace (trace w ++ [EvCritical]) w).
Proof.
  intros w. split.
  - apply (proj1 (flash_operations_refuse_misaligned 3 0x10100 w)).
    left. vm_compute. discriminate.
  - apply (proj2 (flash_operations_refuse_misaligned 3 0x10001 w)).
    vm_compute. discriminate.
Defined.

End ParadeTrafficTheorems.

(** ** Reading the flash through the window *)

Module ParadeReadTheorems.
Import ParadeLspcon ParadeVocabulary ParadeTraffic ParadeWalks ParadeGuard
  ParadeTheorems ParadeTrafficTheorems.

Lemma ensure_i2c_address_answered address rest w :
  script w = RDone :: rest ->
  ensure_i2c_address address w
  = Some (TRUE tt, set_i2c_addr address (answered rest [EvIoctl address true] w)).
Proof.
  destruct w as [s t e a p n v f]. cbn. intros ->. reflexivity.
Qed.

Lemma i2c_address_guard_dispose_answered guard rest w :
  script w = RDone :: rest ->
  i2c_address_guard_dispose guard w
  = Some (TRUE tt,
          set_i2c_addr I2C_ADDR_PAGE2 (answered rest [EvIoctl I2C_ADDR_PAGE2 true] w)).
Proof.
  destruct w as [s t e a p n v f]. cbn. intros ->. reflexivity.
Qed.

(** One window read that the device answers. *)
Lemma window_read_answered page_data rest w :
  script w = RDone :: RBytes page_data :: RDone :: rest ->
  Z.of_nat (List.length page_data) = 256 -> forallb byteb page_data = true ->
  (guard <- i2c_address_guard_new I2C_ADDR_PAGE7 ;;
   g_autoptr_scope (TRUE guard) (fu_i2c_device_read_full 256)) w
  = Some (TRUE page_data,
          set_i2c_addr I2C_ADDR_PAGE2
            (answered rest [EvIoctl I2C_ADDR_PAGE7 true; EvI2cRead 256;
                            EvIoctl I2C_ADDR_PAGE2 true] w)).
Proof.
  intros Hs Hn Hb. unfold i2c_address_guard_new.
  erewrite bind_TRUE;
    [| erewrite bind_TRUE; [| apply ensure_i2c_address_answered; eassumption];
       reflexivity].
  unfold g_autoptr_scope.
  erewrite bind_TRUE;
    [| unfold attempt, fu_i2c_device_read_full;
       erewrite library_read_answered; [reflexivity | reflexivity | exact Hn | exact Hb]].
  erewrite bind_TRUE; [| apply i2c_address_guard_dispose_answered; reflexivity].
  unfold mret, answered. cbn. rewrite <- !app_assoc. reflexivity.
Qed.

Lemma lspcon_map_page_answered address rest w :
  script w = RDone :: RDone :: rest ->
  lspcon_map_page address w
  = Some (TRUE tt,
          answered rest
            [EvI2cWrite [REG_ADDR_FLASH_ADDR_HI; u8 (Z.shiftr address 16)];
             EvI2cWrite [REG_ADDR_FLASH_ADDR_LO; u8 (Z.shiftr address 8)]] w).
Proof.
  intros Hs. unfold lspcon_map_page.
  answered_by lspcon_write_register_answered.
  erewrite lspcon_write_register_answered; [| reflexivity].
  rewrite answered_answered. reflexivity.
Qed.

(** *** The bytes of the flash *)

Lemma flash_bytes_length flash address n :
  List.length (flash_bytes flash address n) = n.
Proof. unfold flash_bytes. rewrite length_map, length_seq. reflexivity. Qed.

Lemma flash_bytes_byteb flash address n :
  (forall a, byteb (flash a) = true) ->
  forallb byteb (flash_bytes flash address n) = true.
Proof.
  intros Hb. unfold flash_bytes. apply forallb_forall. intros x Hx.
  apply in_map_iff in Hx. destruct Hx as (i & <- & _). apply Hb.
Qed.

Lemma flash_bytes_shift (flash : Z -> Z) address n m : forall s,
  map (fun i => flash (address + Z.of_nat i)) (seq (s + n) m)
  = map (fun i => flash (address + Z.of_nat n + Z.of_nat i)) (seq s m).
Proof.
  induction m as [|m IH]; intros s; [reflexivity |].
  cbn [seq map]. f_equal; [f_equal; lia | apply (IH (S s))].
Qed.

Lemma flash_bytes_app flash address n m :
  flash_bytes flash address (n + m)
  = flash_bytes flash address n ++ flash_bytes flash (address + Z.of_nat n) m.
Proof.
  unfold flash_bytes. rewrite seq_app, map_app. f_equal.
  apply (flash_bytes_shift flash address n m 0).
Qed.

(** The part of a page from offset [start] on is the flash from there on. *)
Lemma firstn_skipn_flash_bytes flash address start take :
  (start + take <= 256)%nat ->
  firstn take (skipn start (flash_bytes flash address 256))
  = flash_bytes flash (address + Z.of_nat start) take.
Proof.
  intros H.
  replace 256%nat with (start + (take + (256 - start - take)))%nat at 1 by lia.
  rewrite !flash_bytes_app.
  rewrite skipn_app, skipn_all2 by (rewrite flash_bytes_length; lia).
  rewrite flash_bytes_length, Nat.sub_diag. cbn [skipn app].
  rewrite firstn_app, firstn_all2 by (rewrite flash_bytes_length; lia).
  rewrite flash_bytes_length, Nat.sub_diag. cbn [firstn]. apply app_nil_r.
Qed.

Lemma land_0xFF a : Z.land a 0xFF = a mod 256.
Proof. change 0xFF with (Z.ones 8). rewrite Z.land_ones by lia. reflexivity. Qed.

Lemma pages_spanned_step base_address len :
  0 <= base_address -> 0 < len ->
  let take := Z.min len (256 - base_address mod 256) in
  0 < take <= len /\
  pages_spanned base_address len
  = S (pages_spanned (base_address + take) (len - take)) /\
  (take < len -> (base_address + take) / 256 = base_address / 256 + 1).
Proof.
  intros Hb Hl take. unfold pages_spanned.
  destruct (len <=? 0) eqn:E; [apply Z.leb_le in E; lia |].
  assert (Hm : 0 <= base_address mod 256 < 256) by (apply Z.mod_pos_bound; lia).
  split; [unfold take; lia |].
  destruct (Z.min_spec len (256 - base_address mod 256)) as [[Hlt Ht] | [Hge Ht]];
    fold take in Ht; rewrite Ht.
  - replace (len - len) with 0 by lia. cbn [Z.leb Z.compare]. split; [| lia].
    replace ((base_address + len - 1) / 256) with (base_address / 256);
      [replace (base_address / 256 - base_address / 256 + 1) with 1 by lia;
       reflexivity |].
    Z.to_euclidean_division_equations. lia.
  - assert (Hq : (base_address + (256 - base_address mod 256)) / 256
                 = base_address / 256 + 1).
    { Z.to_euclidean_division_equations. lia. }
    split; [| intros _; exact Hq].
    destruct (len - (256 - base_address mod 256) <=? 0) eqn:E2.
    + apply Z.leb_le in E2.
      replace ((base_address + len - 1) / 256) with (base_address / 256);
        [replace (base_address / 256 - base_address / 256 + 1) with 1 by lia;
         reflexivity |].
      Z.to_euclidean_division_equations. lia.
    + apply Z.leb_gt in E2. rewrite Hq.
      replace (base_address + (256 - base_address mod 256)
               + (len - (256 - base_address mod 256)) - 1)
        with (base_address + len - 1) by lia.
      rewrite <- Z2Nat.inj_succ; [f_equal; lia |].
      Z.to_euclidean_division_equations. lia.
Qed.

Lemma answers_flash_read_step flash base_address len :
  0 <= base_address -> 0 < len ->
  let take := Z.min len (256 - base_address mod 256) in
  answers_flash_read flash base_address len
  = answers_read_page (flash_page flash (base_address / 256))
    ++ answers_flash_read flash (base_address + take) (len - take).
Proof.
  intros Hb Hl take.
  destruct (pages_spanned_step base_address len Hb Hl) as (Ht & Hp & Hq).
  fold take in Ht, Hp, Hq.
  unfold answers_flash_read, answers_read. rewrite Hp.
  cbn [seq map]. rewrite <- seq_shift, !map_map. cbn [List.concat].
  rewrite Z.add_0_r. do 2 f_equal. apply map_ext_in.
  intros i Hi. do 2 f_equal.
  destruct (Z.eq_dec take len) as [E | E].
  - exfalso. rewrite E, Z.sub_diag in Hi. unfold pages_spanned in Hi.
    cbn in Hi. exact Hi.
  - rewrite Hq by lia. lia.
Qed.

(** The loop of [flash_read] before a device that shows the pages of
    [flash]: what it copies out is the flash from [base_address] on. *)
Lemma flash_read_loop_answered flash :
  (forall a, byteb (flash a) = true) ->
  forall rounds target_len base_address len data rest w,
    0 <= base_address -> 0 <= len -> base_address + len <= 16777216 ->
    (Z.to_nat len <= rounds)%nat ->
    i2c_addr w = I2C_ADDR_PAGE2 ->
    script w = answers_flash_read flash base_address len ++ rest ->
    exists w',
      flash_read_loop rounds target_len base_address len data w
      = Some (TRUE (data ++ flash_bytes flash base_address (Z.to_nat len)), w') /\
      script w' = rest /\ gerror w' = gerror w /\ i2c_addr w' = I2C_ADDR_PAGE2.
Proof.
  intros Hflash.
  assert (Hzero : forall rounds target_len base_address data rest w,
            i2c_addr w = I2C_ADDR_PAGE2 ->
            script w = answers_flash_read flash base_address 0 ++ rest ->
            exists w',
              flash_read_loop rounds target_len base_address 0 data w
              = Some (TRUE (data ++ flash_bytes flash base_address (Z.to_nat 0)), w') /\
              script w' = rest /\ gerror w' = gerror w /\
              i2c_addr w' = I2C_ADDR_PAGE2).
  { intros rounds target_len base_address data rest w Ha Hs. exists w.
    destruct rounds; cbn; rewrite app_nil_r; auto. }
  induction rounds as [|rounds IH];
    intros target_len base_address len data rest w Hb Hl Hmax Hr Ha Hs.
  - assert (len = 0) by lia. subst len. apply Hzero; assumption.
  - destruct (Z.eq_dec len 0) as [-> | Hpos]; [apply Hzero; assumption |].
    assert (Hlen : 0 < len) by lia.
    destruct (pages_spanned_step base_address len Hb Hlen) as (Ht & _ & _).
    rewrite (answers_flash_read_step flash base_address len Hb Hlen) in Hs.
    assert (Hm : 0 <= base_address mod 256 < 256) by (apply Z.mod_pos_bound; lia).
    cbn [flash_read_loop].
    destruct (len <=? 0) eqn:E; [apply Z.leb_le in E; lia |].
    cbv zeta. rewrite land_0xFF.
    set (take := Z.min len (256 - base_address mod 256)) in *.
    unfold answers_read_page in Hs. cbn [app] in Hs.
    erewrite bind_TRUE; [| apply lspcon_map_page_answered; eassumption].
    erewrite bind_TRUE;
      [| apply window_read_answered;
         [reflexivity
         | unfold flash_page; rewrite flash_bytes_length; reflexivity
         | apply flash_bytes_byteb, Hflash]].
    unfold fu_device_set_progress_full.
    erewrite bind_TRUE; [| reflexivity].
    unfold u32. rewrite Z.mod_small by lia.
    match goal with
    | |- exists w', flash_read_loop _ _ _ _ ?d ?W = _ /\ _ =>
        destruct (IH target_len (base_address + take) (len - take) d rest W)
          as (w' & Hrun & Hs' & He' & Ha');
          [lia | lia | lia | lia | reflexivity | reflexivity |]
    end.
    exists w'. split; [| split; [exact Hs' | split; [exact He' | exact Ha']]].
    rewrite Hrun. do 2 f_equal.
    unfold flash_page.
    replace (Z.to_nat take) with (Z.to_nat take + 0)%nat at 1 by lia.
    rewrite Nat.add_0_r.
    rewrite firstn_skipn_flash_bytes by lia.
    replace (256 * (base_address / 256) + Z.of_nat (Z.to_nat (base_address mod 256)))
      with base_address
      by (rewrite Z2Nat.id by lia; Z.to_euclidean_division_equations; lia).
    rewrite <- app_assoc. f_equal.
    replace (Z.to_nat len) with (Z.to_nat take + Z.to_nat (len - take))%nat by lia.
    rewrite flash_bytes_app, (Z2Nat.id take) by lia. reflexivity.
Qed.

Lemma flash_read_returns_flash_contents_aux flash base_address len rest w :
  (forall a, byteb (flash a) = true) ->
  0 <= base_address -> 0 <= len -> base_address + len <= 16777216 ->
  i2c_addr w = I2C_ADDR_PAGE2 ->
  script w = answers_flash_read flash base_address len ++ rest ->
  observed (fun w' => (script w', gerror w', i2c_addr w'))
           (flash_read base_address len w)
  = Some (TRUE (flash_bytes flash base_address (Z.to_nat len)),
          (rest, gerror w, I2C_ADDR_PAGE2)).
Proof.
  intros Hflash Hb Hl Hmax Ha Hs. unfold flash_read.
  destruct (flash_read_loop_answered flash Hflash (Z.to_nat len) len base_address len
              [] rest w Hb Hl Hmax (Nat.le_refl _) Ha Hs)
    as (w' & Hrun & Hs' & He' & Ha').
  rewrite Hrun. cbn [observed app]. rewrite Hs', He', Ha'. reflexivity.
Qed.

(** X3: before a device that answers every call and shows the pages of the
    flash in ascending order from the one that holds the base address, a
    read of [len] bytes returns the [len] bytes of the flash from the base
    address on, whether or not the base address or the end of the read lie
    on a page boundary; it consumes the answers of exactly the pages the
    bytes span, sets no error and leaves page 2 selected. *)
Theorem flash_read_returns_flash_contents flash base_address len rest w :
  (forall a, byteb (flash a) = true) ->
  0 <= base_address -> 0 <= len -> base_address + len <= 16777216 ->
  i2c_addr w = I2C_ADDR_PAGE2 ->
  script w = answers_flash_read flash base_address len ++ rest ->
  observed (fun w' => (script w', gerror w', i2c_addr w'))
           (flash_read base_address len w)
  = Some (TRUE (flash_bytes flash base_address (Z.to_nat len)),
          (rest, gerror w, I2C_ADDR_PAGE2)).
Proof.
  apply flash_read_returns_flash_contents_aux.
Qed.

(** Four bytes across the boundary between two pages, of a flash that
    holds at each address the low byte of the address. *)
Lemma flash_read_returns_flash_contents_witness :
  let flash := fun a => a mod 256 in
  let w := opened (answers_flash_read flash 0x1FFFE 4 ++ [RFail]) 1 in
  observed (fun w' => (script w', gerror w', i2c_addr w')) (flash_read 0x1FFFE 4 w)
  = Some (TRUE [0xFE; 0xFF; 0x00; 0x01], ([RFail], None, I2C_ADDR_PAGE2)).
Proof.
  intros flash w.
  assert (Hflash : forall a, byteb (flash a) = true).
  { intros a. unfold flash, byteb.
    pose proof (Z.mod_pos_bound a 256 ltac:(lia)) as H.
    apply andb_true_iff. split; [apply Z.leb_le | apply Z.ltb_lt]; lia. }
  exact (flash_read_returns_flash_contents flash 0x1FFFE 4 [RFail] w Hflash
           ltac:(lia) ltac:(lia) ltac:(lia) eq_refl eq_refl).
Defined.



End ParadeReadTheorems.

(** ** Writing the flash through the window *)

Module ParadeWriteTheorems.
Import ParadeLspcon ParadeVocabulary ParadeTraffic ParadeGuard.

(** The leaves of the plugin along a relation that overlooks the events
    [q] selects, for any [q]. *)
Section AnyWalk.
Variable q : Event -> bool.
Variable R : World -> World -> Prop.
Hypothesis HR : Walk q R.
Hypothesis Hwarning : forall m, q (EvWarning m) = true.
Hypothesis Hcritical : q EvCritical = true.
Hypothesis Hioctl : forall address ok, steps R (emit (EvIoctl address ok)).
Hypothesis Haddr : forall address,
  steps R (fun w => Some (TRUE tt, set_i2c_addr address w)).

Lemma any_library_call ev : q ev = true -> steps R (library_call ev).
Proof. intros Hq. unfold library_call. walk. Qed.

Lemma any_library_read ev n : q ev = true -> steps R (library_read ev n).
Proof. intros Hq. unfold library_read. walk. Qed.

Lemma any_lspcon_write_register a v :
  q (EvI2cWrite [a; v]) = true -> steps R (lspcon_write_register a v).
Proof. intros Hq. apply any_library_call, Hq. Qed.

Lemma any_lspcon_read_register a :
  q (EvI2cWrite [a]) = true -> q (EvI2cRead 1) = true ->
  steps R (lspcon_read_register a).
Proof.
  intros Hw Hr. pose proof (any_library_call _ Hw). pose proof (any_library_read _ 1 Hr).
  unfold lspcon_read_register, fu_i2c_device_write, fu_i2c_device_read. walk.
Qed.

Lemma any_g_return_val_if_fail c : steps R (g_return_val_if_fail c).
Proof. unfold g_return_val_if_fail. walk. Qed.

Lemma any_fu_memcpy_safe dst_sz dst_offset src src_offset n :
  steps R (fu_memcpy_safe dst_sz dst_offset src src_offset n).
Proof. unfold fu_memcpy_safe. walk. Qed.

Lemma any_ioctl address : steps R (fu_udev_device_ioctl_I2C_SLAVE address).
Proof.
  unfold fu_udev_device_ioctl_I2C_SLAVE.
  eapply steps_bind; [eassumption | eauto with steps | intros rp].
  destruct rp; eauto with steps; eapply steps_bind; eauto; intros _; walk.
Qed.

Lemma any_ensure_i2c_address address : steps R (ensure_i2c_address address).
Proof. pose proof any_ioctl. unfold ensure_i2c_address. walk. Qed.

Lemma any_i2c_address_guard_new address : steps R (i2c_address_guard_new address).
Proof. pose proof any_ensure_i2c_address. unfold i2c_address_guard_new. walk. Qed.

Lemma any_i2c_address_guard_dispose guard : steps R (i2c_address_guard_dispose guard).
Proof. pose proof any_ensure_i2c_address. unfold i2c_address_guard_dispose. walk. Qed.

Lemma any_g_autoptr_scope {A} guard (body : M A) :
  steps R body -> steps R (g_autoptr_scope guard body).
Proof.
  pose proof any_i2c_address_guard_dispose. intros Hb. unfold g_autoptr_scope. walk.
Qed.

Lemma any_probe_active_flash_partition :
  q (EvI2cWrite [REG_ADDR_ACTIVE_PARTITION]) = true -> q (EvI2cRead 1) = true ->
  steps R probe_active_flash_partition.
Proof.
  intros Hw Hr. pose proof (any_lspcon_read_register _ Hw Hr).
  pose proof any_i2c_address_guard_new. pose proof (@any_g_autoptr_scope Z).
  unfold probe_active_flash_partition. walk.
Qed.

End AnyWalk.

(** A relation that overlooks the selection of a bus address. *)
Lemma walk_ioctl_emit R : WalkIoctl R -> forall address ok, steps R (emit (EvIoctl address ok)).
Proof.
  intros HI address ok w r w' H. inversion H; subst.
  apply (walk_ioctl R HI _ _ address ok). reflexivity.
Qed.

Lemma walk_ioctl_addr R :
  WalkIoctl R -> forall address, steps R (fun w => Some (TRUE tt, set_i2c_addr address w)).
Proof.
  intros HI address w r w' H. inversion H; subst. apply (walk_addr R HI). reflexivity.
Qed.

(** *** The pages of a buffer *)

Lemma pages_of_concat : forall rounds data,
  (List.length data <= rounds)%nat -> List.concat (pages_of rounds data) = data.
Proof.
  induction rounds as [|rounds IH]; intros data Hl.
  - destruct data; [reflexivity | inversion Hl].
  - destruct data as [|b data]; [reflexivity |].
    cbn [pages_of List.concat]. rewrite IH; [apply firstn_skipn |].
    rewrite length_skipn. cbn [List.length] in *. lia.
Qed.

Lemma pages_of_bounds : forall rounds data,
  Forall (fun page => (0 < List.length page <= 256)%nat) (pages_of rounds data).
Proof.
  induction rounds as [|rounds IH]; intros data; [constructor |].
  destruct data as [|b data]; [constructor |].
  cbn [pages_of]. constructor; [| apply IH].
  split; [cbn; lia | apply firstn_le_length].
Qed.

(** *** The window writes of [flash_write] *)

Lemma Walk_NoWindowWrite : Walk not_window_write NoWindowWrite.
Proof.
  apply Walk_Emits. intros ev H. apply negb_true_iff in H. exact H.
Qed.

Lemma WalkIoctl_NoWindowWrite : WalkIoctl NoWindowWrite.
Proof. apply WalkIoctl_Emits. reflexivity. Qed.

Lemma not_window_write_warning m : not_window_write (EvWarning m) = true.
Proof. reflexivity. Qed.

#[local] Hint Resolve Walk_NoWindowWrite WalkIoctl_NoWindowWrite
  not_window_write_warning : steps.

Lemma no_window_write_register a v :
  a <> 0 -> steps NoWindowWrite (lspcon_write_register a v).
Proof.
  intros Ha. eapply any_lspcon_write_register; eauto with steps.
  unfold not_window_write, is_window_write. destruct a; [contradiction | |]; reflexivity.
Qed.

Lemma no_window_write_map_page address : steps NoWindowWrite (lspcon_map_page address).
Proof.
  unfold lspcon_map_page.
  eapply steps_bind; [eauto with steps | | intros _];
    apply no_window_write_register; discriminate.
Qed.

Lemma no_window_write_map_write values : steps NoWindowWrite (write_map_write values).
Proof.
  induction values as [|v values IH]; cbn [write_map_write]; [walk |].
  eapply steps_bind; [eauto with steps | | intros _; exact IH].
  apply no_window_write_register. discriminate.
Qed.

Lemma no_window_write_guard_new address :
  steps NoWindowWrite (i2c_address_guard_new address).
Proof.
  eapply any_i2c_address_guard_new; eauto with steps;
    [apply walk_ioctl_emit | apply walk_ioctl_addr]; auto with steps.
Qed.

Lemma no_window_write_guard_dispose guard :
  steps NoWindowWrite (i2c_address_guard_dispose guard).
Proof.
  eapply any_i2c_address_guard_dispose; eauto with steps;
    [apply walk_ioctl_emit | apply walk_ioctl_addr]; auto with steps.
Qed.

#[local] Hint Resolve no_window_write_map_page no_window_write_map_write
  no_window_write_guard_new no_window_write_guard_dispose : steps.

(** A library call is logged whether it succeeds or fails. *)
Lemma proto_library_call keep ev :
  keep ev = true -> (forall m, keep (EvWarning m) = false) ->
  proto keep [ev] (library_call ev).
Proof.
  intros Hk Hw w r w' H.
  destruct w as [s t e a p n v f]. cbn in H.
  destruct s as [|[] rest]; cbn in H; try discriminate.
  - destruct e; inversion H; subst; cbn.
    + exists [ev; EvWarning LibraryText]. rewrite <- app_assoc. split; [reflexivity |].
      cbn. rewrite Hk, Hw. apply prefix_refl.
    + exists [ev]. split; [reflexivity |]. cbn. rewrite Hk. apply prefix_refl.
  - inversion H; subst. exists [ev]. split; [reflexivity |]. cbn. rewrite Hk.
    reflexivity.
Qed.

(** Leaving a guarded scope adds nothing to what its body sent. *)
Lemma proto_g_autoptr_scope keep {A} guard (body : M A) L :
  (forall g, steps (Emits (unkept keep)) (i2c_address_guard_dispose g)) ->
  proto keep L body -> proto keep L (g_autoptr_scope guard body).
Proof.
  intros Hd Hb w r w' H.
  apply g_autoptr_scope_inv in H. destruct H as (rb & w1 & H1 & -> & H2).
  destruct (Hb _ _ _ H1) as (e1 & T1 & F1).
  destruct guard as [g|].
  - destruct (Hd g _ _ _ H2) as (e2 & T2 & F2).
    exists (e1 ++ e2). rewrite T2, T1, app_assoc. split; [reflexivity |].
    rewrite filter_app, (filter_unkept _ _ F2), app_nil_r. exact F1.
  - subst w'. exists e1. auto.
Qed.

Lemma fu_memcpy_safe_page data bytes_written :
  0 <= bytes_written < Z.of_nat (List.length data) ->
  fu_memcpy_safe 257 1 data bytes_written
    (Z.min (Z.of_nat (List.length data) - bytes_written) 256)
  = mret (firstn 256 (skipn (Z.to_nat bytes_written) data)).
Proof.
  intros H. unfold fu_memcpy_safe. cbv zeta.
  set (n := Z.min (Z.of_nat (List.length data) - bytes_written) 256).
  assert (Hn : 0 < n <= 256) by (unfold n; lia).
  assert (Hn' : n <= Z.of_nat (List.length data) - bytes_written) by (unfold n; lia).
  replace (n =? 0) with false by (symmetry; apply Z.eqb_neq; lia).
  replace (Z.of_nat (List.length data) <? n) with false
    by (symmetry; apply Z.ltb_ge; lia).
  replace (Z.of_nat (List.length data) <? n + bytes_written) with false
    by (symmetry; apply Z.ltb_ge; lia).
  replace (257 <? n) with false by (symmetry; apply Z.ltb_ge; lia).
  replace (257 <? n + 1) with false by (symmetry; apply Z.ltb_ge; lia).
  cbn [orb]. f_equal.
  destruct (Z.le_gt_cases 256 (Z.of_nat (List.length data) - bytes_written)) as [Hc | Hc].
  - replace n with 256 by (unfold n; lia). reflexivity.
  - rewrite !firstn_all2; [reflexivity | |]; rewrite length_skipn; lia.
Qed.

Lemma proto_flash_write_loop base_address data : forall rounds bytes_written,
  0 <= bytes_written ->
  proto is_window_write
        (map (fun page => EvI2cWrite (0 :: page))
             (pages_of rounds (skipn (Z.to_nat bytes_written) data)))
        (flash_write_loop rounds base_address data bytes_written).
Proof.
  induction rounds as [|rounds IH]; intros bytes_written Hb.
  - cbn [flash_write_loop pages_of map].
    destruct (_ <=? _); apply proto_silent; solve [walk | reflexivity].
  - cbn [flash_write_loop]. cbv zeta.
    destruct (Z.of_nat (List.length data) <=? bytes_written) eqn:E.
    + apply Z.leb_le in E. rewrite skipn_all2 by lia.
      apply proto_silent; [walk | reflexivity].
    + apply Z.leb_gt in E.
      assert (Hpages :
                pages_of (S rounds) (skipn (Z.to_nat bytes_written) data)
                = firstn 256 (skipn (Z.to_nat bytes_written) data)
                  :: pages_of rounds (skipn (Z.to_nat (bytes_written + 256)) data)).
      { destruct (skipn (Z.to_nat bytes_written) data) as [|b tail] eqn:Es.
        - apply (f_equal (@List.length Z)) in Es. rewrite length_skipn in Es.
          cbn in Es. lia.
        - cbn [pages_of]. rewrite <- Es, skipn_skipn. do 3 f_equal. lia. }
      rewrite Hpages. cbn [map].
      eapply proto_bind with (L1 := []); [apply proto_silent; [walk | reflexivity] | intros _ | reflexivity].
      eapply proto_bind with (L1 := [_]); [| intros _ | reflexivity].
      * eapply proto_bind with (L1 := []);
          [apply proto_silent; [walk | reflexivity] | intros guard | reflexivity].
        apply proto_g_autoptr_scope; [auto with steps |].
        rewrite fu_memcpy_safe_page by lia.
        intros w r w' H. rewrite (bind_TRUE _ _ w _ w eq_refl) in H.
        revert w r w' H. apply proto_library_call; reflexivity.
      * eapply proto_bind with (L1 := []);
          [apply proto_silent; [unfold fu_device_set_progress_full; walk | reflexivity]
          | intros _ | reflexivity].
        apply IH. lia.
Qed.



End ParadeWriteTheorems.

(** ** The operations of the LSPCON device *)

Module ParadeDeviceTheorems.
Import ParadeLspcon ParadeVocabulary ParadeTraffic ParadeWalks ParadeGuard ParadeTheorems.

(** *** The bus address across the operations *)

Lemma WalkDevice_KeepsPage2 : WalkDevice KeepsPage2.
Proof.
  split. intros w w' Ht Ha. unfold KeepsPage2. apply same_address_keeps.
  split; [exact Ha | exists []; rewrite app_nil_r; exact Ht].
Qed.

Lemma keeps_page2_flash_erase_block bound base_address size :
  steps KeepsPage2 (flash_erase_block bound base_address size).
Proof. apply steps_flash_erase_block; auto with steps. Qed.

#[local] Hint Resolve WalkDevice_KeepsPage2 keeps_page2_flash_read
  keeps_page2_flash_write keeps_page2_probe_active_flash_partition
  keeps_page2_flash_erase_block : steps.

Lemma keeps_page2_reload : steps KeepsPage2 fu_parade_lspcon_device_reload.
Proof.
  assert (Hset : forall p, steps KeepsPage2
                             (fun w => Some (TRUE tt, set_active_partition p w))).
  { intros p w r w' H. inversion H; subst.
    apply (walk_device _ WalkDevice_KeepsPage2); reflexivity. }
  unfold fu_parade_lspcon_device_reload, g_udev_enumerator_execute,
    fu_udev_device_set_physical_id, fu_device_locker_new, fu_udev_device_pread_full.
  walk.
Qed.

Lemma keeps_page2_write_firmware bound firmware :
  steps KeepsPage2 (fu_parade_lspcon_device_write_firmware bound firmware).
Proof.
  unfold fu_parade_lspcon_device_write_firmware, write_firmware_program,
    write_firmware_readback, write_firmware_commit.
  walk.
Qed.

Lemma keeps_page2_dump_firmware : steps KeepsPage2 fu_parade_lspcon_device_dump_firmware.
Proof. unfold fu_parade_lspcon_device_dump_firmware. walk. Qed.

(** X6: opening the device selects page 2, and every operation on the
    device started with page 2 selected returns with page 2 selected,
    whether it succeeds or fails, unless a selection of page 2 itself failed
    (the log then shows the failed attempt). *)
Theorem device_operations_keep_page2 :
  (forall w w', fu_parade_lspcon_device_open w = Some (TRUE tt, w') ->
                i2c_addr w' = I2C_ADDR_PAGE2) /\
  forall w, i2c_addr w = I2C_ADDR_PAGE2 ->
    (forall r w',
        fu_parade_lspcon_device_reload w = Some (r, w') ->
        ~ In (EvIoctl I2C_ADDR_PAGE2 false) (trace w') -> i2c_addr w' = I2C_ADDR_PAGE2) /\
    (forall r w',
        fu_parade_lspcon_device_detach w = Some (r, w') ->
        ~ In (EvIoctl I2C_ADDR_PAGE2 false) (trace w') -> i2c_addr w' = I2C_ADDR_PAGE2) /\
    (forall bound firmware r w',
        fu_parade_lspcon_device_write_firmware bound firmware w = Some (r, w') ->
        ~ In (EvIoctl I2C_ADDR_PAGE2 false) (trace w') -> i2c_addr w' = I2C_ADDR_PAGE2) /\
    (forall r w',
        fu_parade_lspcon_device_attach w = Some (r, w') ->
        ~ In (EvIoctl I2C_ADDR_PAGE2 false) (trace w') -> i2c_addr w' = I2C_ADDR_PAGE2) /\
    (forall r w',
        fu_parade_lspcon_device_dump_firmware w = Some (r, w') ->
        ~ In (EvIoctl I2C_ADDR_PAGE2 false) (trace w') -> i2c_addr w' = I2C_ADDR_PAGE2).
Proof.
  split.
  - intros w w' H. unfold fu_parade_lspcon_device_open in H.
    apply bind_inv in H. destruct H as [(u & w1 & _ & H) | (_ & H)]; [| discriminate].
    apply ensure_i2c_address_inv in H.
    destruct H as [(_ & Ha & _) | (H & _)]; [exact Ha | discriminate].
  - intros w Ha.
    assert (Hinv : page2_or_failed w) by (left; exact Ha).
    assert (Hkeep : forall A (m : M A), steps KeepsPage2 m ->
              forall r w', m w = Some (r, w') ->
                ~ In (EvIoctl I2C_ADDR_PAGE2 false) (trace w') ->
                i2c_addr w' = I2C_ADDR_PAGE2).
    { intros A m Hm r w' H Hno.
      destruct (Hm _ _ _ H Hinv); [assumption | contradiction]. }
    repeat split.
    + apply Hkeep, keeps_page2_reload.
    + apply Hkeep. unfold fu_parade_lspcon_device_detach. auto with steps.
    + intros bound firmware. apply Hkeep, keeps_page2_write_firmware.
    + apply Hkeep. unfold fu_parade_lspcon_device_attach. auto with steps.
    + apply Hkeep, keeps_page2_dump_firmware.
Qed.

(** The window read fails inside a dump of the firmware; the dump returns
    NULL with page 2 selected again. *)
Lemma device_operations_keep_page2_witness :
  let w := opened answers_read_window_fails 1 in
  let w' := world_after (fu_parade_lspcon_device_dump_firmware w) w in
  fu_parade_lspcon_device_dump_firmware w = Some (FALSE, w') /\
  i2c_addr w' = I2C_ADDR_PAGE2.
Proof.
  intros w w'.
  assert (Hrun : fu_parade_lspcon_device_dump_firmware w = Some (FALSE, w')).
  { apply run_shape. vm_compute. reflexivity. }
  split; [exact Hrun |].
  apply (proj2 (proj2 (proj2 (proj2 (proj2 device_operations_keep_page2 w eq_refl))))
           FALSE w' Hrun).
  vm_compute. intros H.
  repeat (destruct H as [H | H]; [discriminate H |]). exact H.
Defined.

(** *** Failures and the error slot *)

(** Releasing a guard neither sets nor clears the error. *)
Lemma i2c_address_guard_dispose_gerror guard w r w' :
  i2c_address_guard_dispose guard w = Some (r, w') -> gerror w' = gerror w.
Proof.
  unfold i2c_address_guard_dispose, attempt, with_error_NULL, bind, mret.
  destruct (ensure_i2c_address I2C_ADDR_PAGE2 (set_gerror None w)) as [[r1 w1]|];
    intros H; inversion H; subst. reflexivity.
Qed.

Lemma reports_g_autoptr_scope {A} guard (body : M A) :
  reports_failure body -> reports_failure (g_autoptr_scope guard body).
Proof.
  intros Hb w r w' H. apply g_autoptr_scope_inv in H.
  destruct H as (rb & w1 & H1 & -> & H2). destruct (Hb _ _ _ H1) as (K1 & F1).
  destruct guard as [g|].
  - apply i2c_address_guard_dispose_gerror in H2. rewrite H2. auto.
  - subst w'. auto.
Qed.

(** The same with the guarded scopes of this plugin. *)
Ltac report_guarded :=
  solve [repeat first [apply reports_g_autoptr_scope | report_step]].

Lemma reports_lspcon_write_register a v : reports_failure (lspcon_write_register a v).
Proof. unfold lspcon_write_register, fu_i2c_device_write_full. report. Qed.

Lemma reports_lspcon_read_register a : reports_failure (lspcon_read_register a).
Proof.
  unfold lspcon_read_register, fu_i2c_device_write, fu_i2c_device_read. report.
Qed.

#[local] Hint Resolve reports_lspcon_write_register reports_lspcon_read_register
  : reports.

Lemma reports_lspcon_map_page a : reports_failure (lspcon_map_page a).
Proof. unfold lspcon_map_page. report. Qed.

Lemma reports_lspcon_poll_register bound a mask expected :
  reports_failure (lspcon_poll_register bound a mask expected).
Proof.
  unfold lspcon_poll_register. induction bound as [|bound IH]; cbn; report.
Qed.

Lemma reports_write_fifo command : reports_failure (write_fifo command).
Proof. induction command as [|b rest IH]; cbn; report. Qed.

Lemma reports_write_map_write values : reports_failure (write_map_write values).
Proof. induction values as [|b rest IH]; cbn; report. Qed.

#[local] Hint Resolve reports_lspcon_map_page reports_lspcon_poll_register
  reports_write_fifo reports_write_map_write : reports.

(** A command of a length the FIFO takes. *)
Lemma reports_flash_transmit_command command :
  (0 < List.length command <= 16)%nat ->
  reports_failure (flash_transmit_command command).
Proof.
  intros Hl. unfold flash_transmit_command. cbv zeta.
  replace ((0 <? Z.of_nat (List.length command))
           && (Z.of_nat (List.length command) <=? 16)) with true.
  - report.
  - symmetry. apply andb_true_iff. split; [apply Z.ltb_lt | apply Z.leb_le]; lia.
Qed.

Lemma reports_flash_read_status bound : reports_failure (flash_read_status bound).
Proof. unfold flash_read_status. report. Qed.

#[local] Hint Resolve reports_flash_read_status : reports.

Lemma reports_flash_wait_ready bound : reports_failure (flash_wait_ready bound).
Proof.
  unfold flash_wait_ready. generalize bound at 2. intros inner.
  induction bound as [|bound IH]; cbn; unfold g_usleep; report.
Qed.

#[local] Hint Resolve reports_flash_wait_ready : reports.

Lemma reports_ensure_i2c_address address : reports_failure (ensure_i2c_address address).
Proof.
  unfold ensure_i2c_address, fu_udev_device_ioctl_I2C_SLAVE.
  assert (reports_failure (fun w => Some (TRUE tt, set_i2c_addr address w)))
    by (apply (reports_update (fun _ => tt)); reflexivity).
  report.
Qed.

Lemma reports_i2c_address_guard_new address :
  reports_failure (i2c_address_guard_new address).
Proof.
  pose proof reports_ensure_i2c_address. unfold i2c_address_guard_new. report.
Qed.

#[local] Hint Resolve reports_i2c_address_guard_new : reports.

Lemma reports_flash_read_loop rounds : forall target_len base_address len data,
  reports_failure (flash_read_loop rounds target_len base_address len data).
Proof.
  induction rounds as [|rounds IH]; intros; cbn [flash_read_loop]; cbv zeta;
    unfold fu_i2c_device_read_full, fu_device_set_progress_full; report_guarded.
Qed.

Lemma reports_flash_read base_address len : reports_failure (flash_read base_address len).
Proof. apply reports_flash_read_loop. Qed.

Lemma reports_fu_memcpy_safe dst_sz dst_offset src src_offset n :
  reports_failure (fu_memcpy_safe dst_sz dst_offset src src_offset n).
Proof. unfold fu_memcpy_safe. report. Qed.

#[local] Hint Resolve reports_flash_read reports_fu_memcpy_safe : reports.

Lemma reports_flash_write_loop rounds base_address data : forall bytes_written,
  reports_failure (flash_write_loop rounds base_address data bytes_written).
Proof.
  induction rounds as [|rounds IH]; intros; cbn [flash_write_loop]; cbv zeta;
    unfold fu_i2c_device_write_full, fu_device_set_progress_full; report_guarded.
Qed.

#[local] Hint Resolve reports_flash_write_loop : reports.

(** A write at a page boundary. *)
Lemma reports_flash_write base_address data :
  Z.land base_address 0xFF = 0 -> reports_failure (flash_write base_address data).
Proof.
  intros Ha. unfold flash_write, g_usleep. apply Z.eqb_eq in Ha. rewrite Ha. report.
Qed.

(** An erase of one block at a block boundary. *)
Lemma reports_flash_erase_block bound base_address :
  Z.land base_address (FLASH_BLOCK_SIZE - 1) = 0 ->
  reports_failure (flash_erase_block bound base_address FLASH_BLOCK_SIZE).
Proof.
  intros Ha. unfold flash_erase_block, flash_enable_write. cbv zeta.
  apply Z.eqb_eq in Ha. rewrite Ha, Z.eqb_refl.
  pose proof reports_flash_transmit_command.
  repeat (first [ apply reports_flash_transmit_command; cbn; lia | report_step ]).
Qed.

#[local] Hint Resolve reports_flash_write reports_flash_erase_block : reports.

Lemma target_address_aligned active :
  Z.land (target_address_of (target_partition_of active)) (FLASH_BLOCK_SIZE - 1) = 0
  /\ Z.land (target_address_of (target_partition_of active)) 0xFF = 0.
Proof. unfold target_partition_of. destruct (active =? 1); split; reflexivity. Qed.

Lemma reports_write_firmware bound firmware :
  reports_failure (fu_parade_lspcon_device_write_firmware bound firmware).
Proof.
  unfold fu_parade_lspcon_device_write_firmware.
  apply reports_bind; [apply (reports_update active_partition (fun w => w)); reflexivity |].
  intros active. cbv zeta.
  destruct (target_address_aligned active) as (Hblock & Hpage).
  apply reports_bind; [unfold fu_firmware_get_bytes; report | intros blob_fw].
  destruct (Z.of_nat (List.length blob_fw) =? FLASH_BLOCK_SIZE) eqn:E;
    cbn [negb]; [| report].
  apply Z.eqb_eq in E.
  unfold write_firmware_program, write_firmware_readback, write_firmware_commit,
    write_firmware_relock, fu_device_set_status.
  cbv zeta. rewrite E.
  repeat (first [ apply reports_flash_transmit_command; cbn; lia
                | apply reports_flash_erase_block; solve [assumption | reflexivity]
                | apply reports_flash_write; solve [assumption | reflexivity]
                | report_step ]).
Qed.

Lemma reports_reload : reports_failure fu_parade_lspcon_device_reload.
Proof.
  unfold fu_parade_lspcon_device_reload, probe_active_flash_partition,
    g_udev_enumerator_execute, fu_udev_device_set_physical_id, fu_device_locker_new,
    fu_udev_device_pread_full, fu_device_set_version.
  repeat (first [ apply (reports_update (fun _ => tt)); reflexivity
                | apply (reports_update aux_device_name (fun w => w)); reflexivity
                | apply reports_g_autoptr_scope
                | report_step ]).
Qed.

Lemma reports_set_mpu_running running : reports_failure (set_mpu_running running).
Proof. unfold set_mpu_running. report. Qed.

Lemma reports_dump_firmware : reports_failure fu_parade_lspcon_device_dump_firmware.
Proof.
  unfold fu_parade_lspcon_device_dump_firmware.
  apply reports_bind; [apply (reports_update active_partition (fun w => w)); reflexivity |].
  intros active. apply reports_flash_read.
Qed.

Lemma reports_open : reports_failure fu_parade_lspcon_device_open.
Proof.
  pose proof reports_ensure_i2c_address. unfold fu_parade_lspcon_device_open. report.
Qed.

(** X7: no operation of the device returns failure without an error: when
    the opening, the reload, the detach, the update, the attach or the dump
    of the firmware returns FALSE (or NULL), the error slot holds an
    error. *)
Theorem failures_set_an_error w w' :
  fu_parade_lspcon_device_open w = Some (FALSE, w') \/
  fu_parade_lspcon_device_reload w = Some (FALSE, w') \/
  fu_parade_lspcon_device_detach w = Some (FALSE, w') \/
  (exists bound firmware,
      fu_parade_lspcon_device_write_firmware bound firmware w = Some (FALSE, w')) \/
  fu_parade_lspcon_device_attach w = Some (FALSE, w') \/
  fu_parade_lspcon_device_dump_firmware w = Some (FALSE, w') ->
  gerror w' <> None.
Proof.
  intros [H | [H | [H | [(bound & firmware & H) | [H | H]]]]].
  - apply (reports_open _ _ _ H). reflexivity.
  - apply (reports_reload _ _ _ H). reflexivity.
  - apply (reports_set_mpu_running false _ _ _ H). reflexivity.
  - apply (reports_write_firmware bound firmware _ _ _ H). reflexivity.
  - apply (reports_set_mpu_running true _ _ _ H). reflexivity.
  - apply (reports_dump_firmware _ _ _ H). reflexivity.
Qed.

(** A dump of the firmware whose window read fails. *)
Lemma failures_set_an_error_witness :
  let w := opened answers_read_window_fails 1 in
  let w' := world_after (fu_parade_lspcon_device_dump_firmware w) w in
  fu_parade_lspcon_device_dump_firmware w = Some (FALSE, w') /\
  gerror w' <> None.
Proof.
  intros w w'.
  assert (Hrun : fu_parade_lspcon_device_dump_firmware w = Some (FALSE, w')).
  { apply run_shape. vm_compute. reflexivity. }
  split; [exact Hrun |].
  apply (failures_set_an_error w w').
  do 5 right. exact Hrun.
Defined.

End ParadeDeviceTheorems.

(** ** The reload of the LSPCON device *)

Module ParadeReloadTheorems.
Import ParadeLspcon ParadeVocabulary ParadeTraffic ParadeWalks ParadeGuard
  ParadeTheorems ParadeTrafficTheorems ParadeReadTheorems ParadeWriteTheorems.

Lemma same_fields_emit ev : steps SameFields (emit ev).
Proof. eapply steps_emit; eauto with steps. Qed.

Lemma same_fields_addr address :
  steps SameFields (fun w => Some (TRUE tt, set_i2c_addr address w)).
Proof. intros w r w' H. inversion H; subst. repeat split. Qed.

Lemma same_fields_library_call ev : steps SameFields (library_call ev).
Proof. eapply any_library_call; eauto with steps; reflexivity. Qed.

Lemma same_fields_library_read ev n : steps SameFields (library_read ev n).
Proof. eapply any_library_read; eauto with steps; reflexivity. Qed.

Lemma same_fields_probe : steps SameFields probe_active_flash_partition.
Proof.
  eapply any_probe_active_flash_partition; eauto with steps;
    first [reflexivity | intros; apply same_fields_emit | apply same_fields_addr].
Qed.

Lemma same_fields_enumerate : steps SameFields g_udev_enumerator_execute.
Proof.
  pose proof same_fields_emit. unfold g_udev_enumerator_execute. walk.
Qed.

Lemma same_fields_set_error_FALSE {A} c m w r w' :
  (g_set_error c m ;; @return_FALSE A) w = Some (r, w') ->
  r = FALSE /\ SameFields w w'.
Proof.
  unfold bind, g_set_error, return_FALSE.
  destruct (gerror w); intros H; inversion H; subst; repeat split.
Qed.

Lemma onward_set_i2c_addr address :
  steps Onward (fun w => Some (TRUE tt, set_i2c_addr address w)).
Proof. intros w r w' H. inversion H; subst. apply onward_same; reflexivity. Qed.

#[local] Hint Resolve onward_set_i2c_addr : onward.

Lemma onward_ensure_i2c_address address : steps Onward (ensure_i2c_address address).
Proof.
  unfold ensure_i2c_address, fu_udev_device_ioctl_I2C_SLAVE. onward.
Qed.

#[local] Hint Resolve onward_ensure_i2c_address : onward.

Lemma onward_probe : steps Onward probe_active_flash_partition.
Proof.
  unfold probe_active_flash_partition, i2c_address_guard_new, g_autoptr_scope,
    i2c_address_guard_dispose, lspcon_read_register, fu_i2c_device_write,
    fu_i2c_device_read.
  onward.
Qed.

Lemma onward_enumerate : steps Onward g_udev_enumerator_execute.
Proof. unfold g_udev_enumerator_execute. onward. Qed.



Lemma probe_active_flash_partition_answered partition rest w :
  byteb partition = true ->
  script w = answers_probe partition ++ rest ->
  probe_active_flash_partition w
  = Some (TRUE partition,
          set_i2c_addr I2C_ADDR_PAGE2 (answered rest probe_events w)).
Proof.
  intros Hb Hs. unfold answers_probe in Hs. cbn [app] in Hs.
  unfold probe_active_flash_partition, i2c_address_guard_new.
  erewrite bind_TRUE;
    [| erewrite bind_TRUE; [| apply ensure_i2c_address_answered; eassumption];
       reflexivity].
  unfold g_autoptr_scope.
  erewrite bind_TRUE;
    [| unfold attempt; erewrite lspcon_read_register_answered;
       [reflexivity | reflexivity | exact Hb]].
  erewrite bind_TRUE; [| apply i2c_address_guard_dispose_answered; reflexivity].
  unfold mret, answered, probe_events. cbn. rewrite <- !app_assoc. reflexivity.
Qed.

(** X9: a partition number other than 1, 2 or 3 ends the reload with the
    error "unexpected active flash partition", before the DP aux device is
    looked for; the number has by then been stored as the active partition.
    The version is left as it was. *)
Theorem reload_rejects_unexpected_partition partition rest w :
  byteb partition = true -> partition < 1 \/ 3 < partition ->
  gerror w = None ->
  script w = answers_probe partition ++ rest ->
  observed (fun w' => (script w', gerror w', active_partition w', version w'))
           (fu_parade_lspcon_device_reload w)
  = Some (FALSE,
          (rest, Some (unexpected_partition partition), partition, version w)).
Proof.
  intros Hb Hp He Hs. unfold fu_parade_lspcon_device_reload.
  erewrite bind_TRUE; [| apply probe_active_flash_partition_answered; eassumption].
  erewrite bind_TRUE; [| reflexivity].
  erewrite bind_TRUE; [| reflexivity].
  replace ((partition <? 1) || (3 <? partition)) with true.
  - unfold bind, g_set_error, return_FALSE. cbn. rewrite He. reflexivity.
  - symmetry. apply orb_true_iff.
    destruct Hp; [left; apply Z.ltb_lt | right; apply Z.ltb_lt]; assumption.
Qed.

Lemma reload_rejects_unexpected_partition_witness :
  let w := opened (answers_probe 0 ++ [RCount 1]) 1 in
  observed (fun w' => (script w', gerror w', active_partition w', version w'))
           (fu_parade_lspcon_device_reload w)
  = Some (FALSE, ([RCount 1], Some (unexpected_partition 0), 0, None)).
Proof.
  intros w.
  exact (reload_rejects_unexpected_partition 0 [RCount 1] w eq_refl
           ltac:(left; lia) eq_refl eq_refl).
Defined.

(** The reload as far as the search for the DP aux device. *)
Lemma reload_enumerates partition name count rest w :
  byteb partition = true -> 1 <= partition <= 3 ->
  aux_device_name w = Some name ->
  script w = answers_probe partition ++ RCount count :: rest ->
  exists w1,
    script w1 = rest /\ gerror w1 = gerror w /\ version w1 = version w /\
    fu_parade_lspcon_device_reload w
    = match count with
      | O => (g_set_error (code (no_aux_device name)) (message (no_aux_device name)) ;;
              return_FALSE) w1
      | S (S _) =>
          (g_set_error (code (multiple_aux_devices name))
                       (message (multiple_aux_devices name)) ;;
           return_FALSE) w1
      | S O =>
          (emit (EvDebug "using aux dev %s") ;;
           fu_udev_device_set_physical_id ;;
           fu_device_locker_new ;;
           oui_bytes <- fu_udev_device_pread_full 0x500 3 ;;
           let oui := nth 0 oui_bytes 0 * 65536 + nth 1 oui_bytes 0 * 256
                      + nth 2 oui_bytes 0 in
           if negb (oui =? 0x001CF8) then
             g_set_error FWUPD_ERROR_NOT_SUPPORTED
               (Format "device OUI %06X does not match expected value for Paradetech"
                       [oui]) ;;
             return_FALSE
           else
           version_buf <- fu_udev_device_pread_full 0x50a 2 ;;
           fu_device_set_version
             (VersionPair (nth 0 version_buf 0) (nth 1 version_buf 0))) w1
      end.
Proof.
  intros Hb Hp Hn Hs. unfold fu_parade_lspcon_device_reload.
  erewrite bind_TRUE; [| apply probe_active_flash_partition_answered; eassumption].
  erewrite bind_TRUE; [| reflexivity].
  erewrite bind_TRUE; [| reflexivity].
  replace ((partition <? 1) || (3 <? partition)) with false
    by (symmetry; apply orb_false_iff; split; apply Z.ltb_ge; lia).
  erewrite bind_TRUE; [| reflexivity].
  cbn [aux_device_name set_trace set_active_partition set_i2c_addr answered set_script].
  rewrite Hn.
  erewrite bind_TRUE; [| reflexivity].
  match goal with
  | |- exists w1, _ /\ _ /\ _ /\ _ ?W = _ => exists W
  end.
  repeat split. destruct count as [|[|count]]; reflexivity.
Qed.

(** X10: the reload reads the revision only from the one DP aux device of
    the configured name that carries the OUI of Parade: when no device or
    more than one is found it fails with the error that names the device,
    and when the three OUI bytes, most significant first, are not 00 1C F8
    it fails with the error that shows them; in each case before the
    revision is read, and with the version left as it was. *)
Theorem reload_requires_parade_aux_device partition name rest w :
  byteb partition = true -> 1 <= partition <= 3 ->
  aux_device_name w = Some name -> gerror w = None ->
  (script w = answers_probe partition ++ RCount 0 :: rest ->
   observed (fun w' => (script w', gerror w', version w'))
            (fu_parade_lspcon_device_reload w)
   = Some (FALSE, (rest, Some (no_aux_device name), version w)))
  /\
  (forall count,
     script w = answers_probe partition ++ RCount (S (S count)) :: rest ->
     observed (fun w' => (script w', gerror w', version w'))
              (fu_parade_lspcon_device_reload w)
     = Some (FALSE, (rest, Some (multiple_aux_devices name), version w)))
  /\
  (forall b0 b1 b2,
     forallb byteb [b0; b1; b2] = true ->
     b0 * 65536 + b1 * 256 + b2 <> 0x001CF8 ->
     script w = answers_probe partition
                ++ RCount 1 :: RDone :: RDone :: RBytes [b0; b1; b2] :: rest ->
     observed (fun w' => (script w', gerror w', version w'))
              (fu_parade_lspcon_device_reload w)
     = Some (FALSE,
             (rest, Some (unexpected_oui (b0 * 65536 + b1 * 256 + b2)), version w))).
Proof.
  intros Hb Hp Hn He. repeat split.
  - intros Hs.
    destruct (reload_enumerates _ _ _ _ _ Hb Hp Hn Hs) as (w1 & Hs1 & He1 & Hv1 & ->).
    unfold bind, g_set_error, return_FALSE. rewrite He1, He. cbn.
    rewrite Hs1, Hv1. reflexivity.
  - intros count Hs.
    destruct (reload_enumerates _ _ _ _ _ Hb Hp Hn Hs) as (w1 & Hs1 & He1 & Hv1 & ->).
    unfold bind, g_set_error, return_FALSE. rewrite He1, He. cbn.
    rewrite Hs1, Hv1. reflexivity.
  - intros b0 b1 b2 Hbytes Houi Hs.
    destruct (reload_enumerates _ _ _ _ _ Hb Hp Hn Hs) as (w1 & Hs1 & He1 & Hv1 & ->).
    erewrite bind_TRUE; [| reflexivity].
    unfold fu_udev_device_set_physical_id, fu_device_locker_new,
      fu_udev_device_pread_full.
    erewrite bind_TRUE; [| apply library_call_answered; cbn; rewrite Hs1; reflexivity].
    erewrite bind_TRUE; [| apply library_call_answered; reflexivity].
    erewrite bind_TRUE;
      [| apply library_read_answered; [reflexivity | reflexivity | exact Hbytes]].
    cbv zeta. cbn [nth].
    replace (b0 * 65536 + b1 * 256 + b2 =? 0x001CF8) with false
      by (symmetry; apply Z.eqb_neq; exact Houi).
    cbn [negb]. unfold bind, g_set_error, return_FALSE. cbn.
    rewrite He1, He. cbn. rewrite Hv1. reflexivity.
Qed.

Lemma reload_requires_parade_aux_device_witness :
  let w := opened (answers_probe 1 ++ [RCount 1; RDone; RDone; RBytes [0; 0x1C; 0xF9];
                                       RBytes [1; 7]]) 0 in
  observed (fun w' => (script w', gerror w', version w'))
           (fu_parade_lspcon_device_reload w)
  = Some (FALSE, ([RBytes [1; 7]], Some (unexpected_oui 0x001CF9), None)).
Proof.
  intros w.
  exact (proj2 (proj2 (reload_requires_parade_aux_device 1 "DPDDC-B"%string
                         [RBytes [1; 7]] w eq_refl ltac:(lia) eq_refl eq_refl))
           0 0x1C 0xF9 eq_refl ltac:(lia) eq_refl).
Defined.

End ParadeReloadTheorems.

(** ** The status reports of an update *)

Module ParadeStatusTheorems.
Import ParadeLspcon ParadeVocabulary ParadeTraffic ParadeGuard ParadeWriteTheorems.

(** The flash functions along a relation that overlooks the bus traffic,
    the progress reports and the announcements of flash operations. *)
Section AnyFlash.
Variable q : Event -> bool.
Variable R : World -> World -> Prop.
Hypothesis HR : Walk q R.
Hypothesis Hwarning : forall m, q (EvWarning m) = true.
Hypothesis Hcritical : q EvCritical = true.
Hypothesis Hioctl : forall address ok, steps R (emit (EvIoctl address ok)).
Hypothesis Haddr : forall address,
  steps R (fun w => Some (TRUE tt, set_i2c_addr address w)).
Hypothesis Hwrite : forall bs, q (EvI2cWrite bs) = true.
Hypothesis Hread : forall n, q (EvI2cRead n) = true.
Hypothesis Hsleep : forall t, q (EvSleep t) = true.
Hypothesis Hprogress : forall c t, q (EvProgress c t) = true.
Hypothesis Herase : forall a, q (EvDebugFlashErase a) = true.
Hypothesis Hflash_write : forall data a, q (EvDebugFlashWrite data a) = true.

Ltac leaf lem := eapply lem; eauto.

Lemma flash_lspcon_write_register a v : steps R (lspcon_write_register a v).
Proof. leaf any_lspcon_write_register. Qed.

Lemma flash_lspcon_read_register a : steps R (lspcon_read_register a).
Proof. leaf any_lspcon_read_register. Qed.

Lemma flash_g_return_val_if_fail c : steps R (g_return_val_if_fail c).
Proof. leaf any_g_return_val_if_fail. Qed.

Lemma flash_g_timer_elapsed : steps R g_timer_elapsed.
Proof. unfold g_timer_elapsed. walk. Qed.

#[local] Hint Resolve flash_lspcon_write_register flash_lspcon_read_register
  flash_g_return_val_if_fail flash_g_timer_elapsed : steps.

Lemma flash_lspcon_map_page a : steps R (lspcon_map_page a).
Proof. unfold lspcon_map_page. walk. Qed.

Lemma flash_lspcon_poll_register bound a mask expected :
  steps R (lspcon_poll_register bound a mask expected).
Proof.
  unfold lspcon_poll_register. induction bound as [|bound IH]; cbn; walk.
Qed.

Lemma flash_write_fifo command : steps R (write_fifo command).
Proof. induction command as [|b rest IH]; cbn; walk. Qed.

Lemma flash_write_map_write values : steps R (write_map_write values).
Proof. induction values as [|b rest IH]; cbn; walk. Qed.

#[local] Hint Resolve flash_lspcon_map_page flash_lspcon_poll_register
  flash_write_fifo flash_write_map_write : steps.

Lemma flash_flash_transmit_command command : steps R (flash_transmit_command command).
Proof. unfold flash_transmit_command. walk. Qed.

#[local] Hint Resolve flash_flash_transmit_command : steps.

Lemma flash_flash_read_status bound : steps R (flash_read_status bound).
Proof. unfold flash_read_status. walk. Qed.

#[local] Hint Resolve flash_flash_read_status : steps.

Lemma flash_flash_wait_ready bound : steps R (flash_wait_ready bound).
Proof.
  unfold flash_wait_ready. generalize bound at 2. intros inner.
  induction bound as [|bound IH]; cbn; unfold g_usleep; walk.
Qed.

#[local] Hint Resolve flash_flash_wait_ready : steps.

Lemma flash_flash_erase_block bound base_address size :
  steps R (flash_erase_block bound base_address size).
Proof. unfold flash_erase_block, flash_enable_write. walk. Qed.

Lemma flash_guard_new address : steps R (i2c_address_guard_new address).
Proof. leaf any_i2c_address_guard_new. Qed.

Lemma flash_g_autoptr_scope {A} guard (body : M A) :
  steps R body -> steps R (g_autoptr_scope guard body).
Proof. intros Hb. leaf (@any_g_autoptr_scope q R). Qed.

#[local] Hint Resolve flash_guard_new : steps.

Lemma flash_flash_read_loop rounds : forall target_len base_address len data,
  steps R (flash_read_loop rounds target_len base_address len data).
Proof.
  pose proof (any_library_read q R HR Hwarning).
  induction rounds as [|rounds IH]; intros; cbn [flash_read_loop]; cbv zeta;
    unfold fu_i2c_device_read_full, fu_device_set_progress_full;
    repeat first [apply flash_g_autoptr_scope | walk_step].
Qed.

Lemma flash_flash_read base_address len : steps R (flash_read base_address len).
Proof. apply flash_flash_read_loop. Qed.

Lemma flash_flash_write_loop rounds base_address data : forall bytes_written,
  steps R (flash_write_loop rounds base_address data bytes_written).
Proof.
  pose proof (any_library_call q R HR Hwarning).
  pose proof (any_fu_memcpy_safe q R HR Hwarning).
  induction rounds as [|rounds IH]; intros; cbn [flash_write_loop]; cbv zeta;
    unfold fu_i2c_device_write_full, fu_device_set_progress_full;
    repeat first [apply flash_g_autoptr_scope | walk_step].
Qed.

#[local] Hint Resolve flash_flash_write_loop : steps.

Lemma flash_flash_write base_address data : steps R (flash_write base_address data).
Proof. unfold flash_write, g_usleep. walk. Qed.

End AnyFlash.

Lemma Walk_not_status : Walk not_status (Emits (unkept is_status)).
Proof. apply Walk_Emits. intros ev H. apply negb_true_iff in H. exact H. Qed.

Lemma not_status_warning m : not_status (EvWarning m) = true.
Proof. reflexivity. Qed.

#[local] Hint Resolve Walk_not_status not_status_warning : steps.

(** What reports no status. *)
Ltac no_status lem :=
  eapply lem; eauto with steps;
  first [ reflexivity
        | intros; eapply steps_emit; eauto with steps; reflexivity
        | intros ? ? ? ? H; inversion H; subst; exists []; rewrite app_nil_r; auto ].

Lemma no_status_lspcon_write_register a v :
  steps (Emits (unkept is_status)) (lspcon_write_register a v).
Proof. no_status flash_lspcon_write_register. Qed.

Lemma no_status_flash_transmit_command command :
  steps (Emits (unkept is_status)) (flash_transmit_command command).
Proof. no_status flash_flash_transmit_command. Qed.

Lemma no_status_flash_wait_ready bound :
  steps (Emits (unkept is_status)) (flash_wait_ready bound).
Proof. no_status flash_flash_wait_ready. Qed.

Lemma no_status_flash_erase_block bound base_address size :
  steps (Emits (unkept is_status)) (flash_erase_block bound base_address size).
Proof. no_status flash_flash_erase_block. Qed.

Lemma no_status_flash_write base_address data :
  steps (Emits (unkept is_status)) (flash_write base_address data).
Proof. no_status flash_flash_write. Qed.

Lemma no_status_flash_read base_address len :
  steps (Emits (unkept is_status)) (flash_read base_address len).
Proof. no_status flash_flash_read. Qed.

#[local] Hint Resolve no_status_lspcon_write_register no_status_flash_transmit_command
  no_status_flash_wait_ready no_status_flash_erase_block no_status_flash_write
  no_status_flash_read : steps.

Ltac unreported := apply proto_silent; [walk | reflexivity].
Ltac then_ tac := eapply proto_bind; [tac | intros ? | reflexivity].
Ltac reported := apply proto_emit; reflexivity.

Lemma proto_status_program bound target_partition target_address blob_fw :
  proto is_status
        [EvStatus FWUPD_STATUS_DEVICE_ERASE; EvStatus FWUPD_STATUS_DEVICE_WRITE]
        (write_firmware_program bound target_partition target_address blob_fw).
Proof.
  unfold write_firmware_program, fu_device_set_status.
  do 4 then_ unreported.
  then_ reported. then_ unreported. then_ reported. unreported.
Qed.

Lemma proto_status_readback target_address firmware_size :
  proto is_status [EvStatus FWUPD_STATUS_DEVICE_VERIFY]
        (write_firmware_readback target_address firmware_size).
Proof.
  unfold write_firmware_readback, fu_device_set_status.
  then_ reported. unreported.
Qed.

Lemma proto_status_commit bound flag_data :
  proto is_status
        [EvStatus FWUPD_STATUS_DEVICE_ERASE; EvStatus FWUPD_STATUS_DEVICE_WRITE;
         EvStatus FWUPD_STATUS_DEVICE_VERIFY]
        (write_firmware_commit bound flag_data).
Proof.
  unfold write_firmware_commit, fu_device_set_status.
  then_ reported. then_ unreported. then_ reported. then_ unreported. then_ reported. unreported.
Qed.

(** X11: an update reports the statuses erase, write and verify for the
    target partition and then erase, write and verify for the flag
    partition, in this order and no other status: all six when it returns
    TRUE, the first of them when it returns FALSE. *)
Theorem write_firmware_status_order bound firmware w r w' :
  fu_parade_lspcon_device_write_firmware bound firmware w = Some (r, w') ->
  exists evs, trace w' = trace w ++ evs /\
    match r with
    | TRUE _ => filter is_status evs = status_plan
    | FALSE => prefix (filter is_status evs) status_plan
    end.
Proof.
  revert w r w'.
  change (proto is_status status_plan
                (fu_parade_lspcon_device_write_firmware bound firmware)).
  assert (Hfail : forall c m L,
            proto is_status L (g_set_error c m ;; @return_FALSE unit)).
  { intros c m L. apply proto_failing; [walk |].
    intros w r w' H. apply bind_inv in H.
    destruct H as [(u & w1 & _ & H) | (_ & ->)]; [inversion H |]; reflexivity. }
  unfold fu_parade_lspcon_device_write_firmware, status_plan.
  then_ unreported. cbv zeta.
  then_ ltac:(unfold fu_firmware_get_bytes; unreported).
  destruct (negb _); [apply Hfail |].
  then_ ltac:(apply proto_status_program).
  then_ ltac:(apply proto_status_readback).
  destruct (memcmp_differs _ _ _); [apply Hfail |].
  then_ ltac:(apply proto_status_commit).
  unfold write_firmware_relock. unreported.
Qed.

(** An update that fails on the first register write of the image write has
    reported erase and write. *)
Lemma write_firmware_status_order_witness :
  let firmware := mkFirmware (Some image) in
  let w := opened answers_update_write_fails 1 in
  let w' := world_after (fu_parade_lspcon_device_write_firmware 3 firmware w) w in
  fu_parade_lspcon_device_write_firmware 3 firmware w = Some (FALSE, w') /\
  exists evs, trace w' = trace w ++ evs /\ prefix (filter is_status evs) status_plan.
Proof.
  intros firmware w w'.
  assert (Hrun : fu_parade_lspcon_device_write_firmware 3 firmware w = Some (FALSE, w')).
  { apply run_shape. vm_compute. reflexivity. }
  split; [exact Hrun |].
  exact (write_firmware_status_order 3 firmware w FALSE w' Hrun).
Defined.

End ParadeStatusTheorems.

(** ** The package exchange of the fingerprint device *)

Module GoodixExchangeTheorems.
Import GoodixFp GoodixVocabulary GoodixExchange GoodixTheorems.

Lemma uint32_le_round_trip v tail :
  0 <= v < 4294967296 -> uint32_from_le (uint32_le v ++ tail) = v.
Proof.
  intros Hv. unfold uint32_from_le, uint32_le. cbn [app nth].
  change 0xFF with (Z.ones 8). rewrite !Z.land_ones by lia.
  rewrite !Z.shiftl_mul_pow2, !Z.shiftr_div_pow2 by lia.
  change (2 ^ 8) with 256. change (2 ^ 16) with 65536. change (2 ^ 24) with 16777216.
  Z.to_euclidean_division_equations. lia.
Qed.

Section Exchange.
Context {P : GxProto}.

(** X12: a package that [goodixfp_device_cmd_send] lays out passes the
    checksum test of [goodixfp_device_cmd_recv]: the four bytes behind
    header and payload, read as a little-endian number, are the checksum
    computed over header and payload, whatever follows the package in the
    buffer.  The header laid out has to be as long as the header size says,
    and the length parsed from it has to be that of the payload. *)
Theorem built_package_carries_its_checksum cmd0 cmd1 pkg_eop request header tail :
  Z.of_nat (List.length
              (init_pack_header (Z.of_nat (List.length request)) cmd0 cmd1 pkg_eop))
  = PACKAGE_HEADER_SIZE ->
  len header = Z.of_nat (List.length request) ->
  let buf := build_package cmd0 cmd1 pkg_eop request ++ tail in
  computed_crc buf header = carried_crc buf header.
Proof.
  intros Hh Hl buf. unfold computed_crc, carried_crc, buf, build_package. cbv zeta.
  rewrite Hl.
  set (head := init_pack_header (Z.of_nat (List.length request)) cmd0 cmd1 pkg_eop
               ++ request).
  assert (Hn : Z.to_nat (PACKAGE_HEADER_SIZE + Z.of_nat (List.length request))
               = List.length head).
  { unfold head. rewrite length_app. lia. }
  rewrite Hn, <- app_assoc.
  rewrite !firstn_app, !Nat.sub_diag, !firstn_all. cbn [firstn]. rewrite !app_nil_r.
  rewrite skipn_app, Nat.sub_diag, skipn_all. cbn [skipn app].
  rewrite uint32_le_round_trip; [reflexivity |].
  unfold u32. apply Z.mod_pos_bound. lia.
Qed.

(** *** Failures of one exchange *)

Lemma bulk_transfer_out_fails data rest w :
  script w = RFail :: rest -> gerror w = None ->
  bulk_transfer_out data w
  = Some (FALSE, set_gerror (Some library_error) (answered rest [EvBulkOut data] w)).
Proof.
  destruct w as [s t e a p n v f]. cbn. intros -> ->. reflexivity.
Qed.

Lemma bulk_transfer_in_fails size rest w :
  script w = RFail :: rest -> gerror w = None ->
  bulk_transfer_in size w
  = Some (FALSE, set_gerror (Some library_error) (answered rest [EvBulkIn size] w)).
Proof.
  destruct w as [s t e a p n v f]. cbn. intros -> ->. reflexivity.
Qed.

(** A failed call whose error is then prefixed. *)
Lemma on_failure_prefixed {A} (m : M A) prefix w w1 :
  m w = Some (FALSE, set_gerror (Some library_error) w1) ->
  on_failure m (g_prefix_error prefix []) w
  = Some (FALSE,
          set_gerror (Some (mkGError LIBRARY_ERROR (Prefixed prefix [] LibraryText))) w1).
Proof.
  intros H. unfold on_failure, attempt, bind. rewrite H.
  destruct w1 as [s t e a p n v f]. reflexivity.
Qed.

(** X13: sending a request fails in three ways, each with its error and
    with nothing sent after the failure: the zero-length package is refused
    (the package itself is then never sent), the package is refused, or the
    device takes fewer bytes than the package has. *)
Theorem cmd_send_failures cmd0 cmd1 pkg_eop request rest w :
  gerror w = None ->
  let package := build_package cmd0 cmd1 pkg_eop request in
  (script w = RFail :: rest ->
   goodixfp_device_cmd_send cmd0 cmd1 pkg_eop request w
   = Some (FALSE,
           set_gerror (Some failed_to_request) (answered rest [EvBulkOut []] w)))
  /\
  (script w = RDone :: RFail :: rest ->
   goodixfp_device_cmd_send cmd0 cmd1 pkg_eop request w
   = Some (FALSE,
           set_gerror (Some failed_to_request)
             (answered rest [EvBulkOut []; EvBulkOut package] w)))
  /\
  (forall actual_len sent,
     0 <= actual_len < Z.of_nat (List.length package) ->
     script w = RDone :: RBulk actual_len sent :: rest ->
     goodixfp_device_cmd_send cmd0 cmd1 pkg_eop request w
     = Some (FALSE,
             set_gerror (Some invalid_length)
               (answered rest [EvBulkOut []; EvBulkOut package] w))).
Proof.
  intros He package. unfold goodixfp_device_cmd_send. cbv zeta. fold package.
  repeat split.
  - intros Hs. erewrite bind_FALSE; [reflexivity |].
    apply on_failure_prefixed. apply library_call_fails; assumption.
  - intros Hs.
    rewrite (bind_TRUE _ _ _ _ _ (bulk_transfer_out_zlp_answered _ _ _ Hs)).
    erewrite bind_FALSE;
      [| apply on_failure_prefixed; apply bulk_transfer_out_fails;
         [reflexivity | exact He]].
    destruct w as [s t e a p n v f]. unfold answered. cbn.
    rewrite <- app_assoc. reflexivity.
  - intros actual_len sent Hlen Hs.
    rewrite (bind_TRUE _ _ _ _ _ (bulk_transfer_out_zlp_answered _ _ _ Hs)).
    erewrite bind_TRUE;
      [| apply (bulk_transfer_out_answered package actual_len sent rest);
         [reflexivity | lia]].
    replace (actual_len =? Z.of_nat (List.length package)) with false
      by (symmetry; apply Z.eqb_neq; lia).
    cbn [negb]. unfold bind, g_set_error, return_FALSE.
    destruct w as [s t e a p n v f]. cbn in He. subst e. unfold answered. cbn.
    rewrite <- app_assoc. reflexivity.
Qed.

(** X14: receiving a reply fails, with its error and without another read,
    when the transfer fails, when the header of a package does not parse, and
    when the body of a package with the right checksum does not parse. *)
Theorem cmd_recv_failures bound presponse data_reply rest w :
  gerror w = None ->
  (script w = RFail :: rest ->
   goodixfp_device_cmd_recv (S bound) presponse data_reply w
   = Some (FALSE,
           set_gerror (Some failed_to_reply)
             (answered rest [EvBulkIn GX_FLASH_TRANSFER_BLOCK_SIZE] w)))
  /\
  (forall actual_len buf,
     script w = RBulk actual_len buf :: rest ->
     read_answer actual_len buf -> actual_len <> 0 ->
     gx_proto_parse_header buf actual_len = None ->
     goodixfp_device_cmd_recv (S bound) presponse data_reply w
     = Some (FALSE, set_gerror (Some invalid_value) (after_read rest w)))
  /\
  (forall actual_len buf header,
     script w = RBulk actual_len buf :: rest ->
     holds_package actual_len buf header ->
     computed_crc buf header = carried_crc buf header ->
     gx_proto_parse_body (cmd0 header) (skipn (Z.to_nat PACKAGE_HEADER_SIZE) buf)
                         (len header) presponse = None ->
     goodixfp_device_cmd_recv (S bound) presponse data_reply w
     = Some (FALSE, set_gerror (Some invalid_value) (after_read rest w))).
Proof.
  intros He. unfold goodixfp_device_cmd_recv. cbn [goodixfp_device_cmd_recv_loop].
  assert (Hset : forall c m w1, gerror w1 = None ->
            (g_set_error c m ;; @return_FALSE gxfp_cmd_response_t) w1
            = Some (FALSE, set_gerror (Some (mkGError c m)) w1)).
  { intros c m w1 H1. unfold bind, g_set_error, return_FALSE. rewrite H1. reflexivity. }
  repeat split.
  - intros Hs. erewrite bind_FALSE; [reflexivity |].
    apply on_failure_prefixed. apply bulk_transfer_in_fails; assumption.
  - intros actual_len buf Hs Ha Hn Hh.
    rewrite (bind_TRUE _ _ _ _ _ (bulk_transfer_in_answered _ _ _ _ _ Hs Ha)).
    apply Z.eqb_neq in Hn. rewrite Hn, Hh. apply Hset. exact He.
  - intros actual_len buf header Hs (Ha & Hn & Hh & H0 & H1 & H2) Hc Hb.
    rewrite (bind_TRUE _ _ _ _ _ (bulk_transfer_in_answered _ _ _ _ _ Hs Ha)).
    apply Z.eqb_neq in Hn. rewrite Hn, Hh.
    apply Z.leb_le in H0, H1, H2. rewrite H0, H1, H2. cbn [andb negb].
    unfold computed_crc, carried_crc in Hc. apply Z.eqb_eq in Hc. rewrite Hc.
    cbn [negb]. rewrite Hb. apply Hset. exact He.
Qed.

(** *** The version string *)

Lemma g_strdup_terminated (buf : list Z) :
  (List.length (g_strdup (buf ++ [0%Z])) <= List.length buf)%nat /\
  ~ In 0 (g_strdup (buf ++ [0])) /\
  prefix (g_strdup (buf ++ [0])) buf.
Proof.
  induction buf as [|b buf (IHl & IHn & IHp)]; cbn.
  - split; [lia | split; [tauto | apply prefix_nil]].
  - destruct (b =? 0) eqn:E; cbn.
    + split; [lia | split; [tauto | apply prefix_nil]].
    + apply Z.eqb_neq in E. split; [lia |]. split.
      * intros [H | H]; [congruence | contradiction].
      * destruct IHp as (tail & Ht). exists tail. cbn. f_equal. exact Ht.
Qed.

(** X15: the version the device is asked for is a string of at most eight
    bytes that holds no NUL, also when the eight bytes of the response are
    not terminated. *)
Theorem get_version_is_short_string bound w ver w' :
  fu_goodixfp_device_get_version bound w = Some (TRUE ver, w') ->
  exists text, ver = VersionPlain text /\
    (List.length text <= 8)%nat /\ ~ In 0 text.
Proof.
  unfold fu_goodixfp_device_get_version. cbv zeta. intros H.
  apply bind_inv in H. destruct H as [(reponse & w1 & _ & H) | (_ & H)];
    [| discriminate].
  unfold mret in H.
  destruct (g_strdup_terminated (firstn 8 (fwversion reponse))) as (Hl & Hn & _).
  exists (g_strdup (firstn 8 (fwversion reponse) ++ [0])).
  split; [congruence |]. split; [| exact Hn].
  pose proof (firstn_le_length 8 (fwversion reponse)). lia.
Qed.

(** *** Failures and the error slot *)

Lemma reports_bulk_transfer_out data : reports_failure (bulk_transfer_out data).
Proof. unfold bulk_transfer_out. report. Qed.

Lemma reports_bulk_transfer_in size : reports_failure (bulk_transfer_in size).
Proof. unfold bulk_transfer_in. report. Qed.

#[local] Hint Resolve reports_bulk_transfer_out reports_bulk_transfer_in : reports.

Lemma reports_cmd_send cmd0 cmd1 pkg_eop request :
  reports_failure (goodixfp_device_cmd_send cmd0 cmd1 pkg_eop request).
Proof. unfold goodixfp_device_cmd_send, bulk_transfer_out_zlp. cbv zeta. report. Qed.

Lemma reports_cmd_recv bound : forall presponse data_reply,
  reports_failure (goodixfp_device_cmd_recv bound presponse data_reply).
Proof.
  unfold goodixfp_device_cmd_recv.
  induction bound as [|bound IH]; intros; cbn [goodixfp_device_cmd_recv_loop];
    [report |].
  apply reports_bind; [report | intros [actual_len reply_data]].
  cbv zeta. report.
Qed.

#[local] Hint Resolve reports_cmd_send reports_cmd_recv : reports.

Lemma reports_cmd_xfer bound cmd0 cmd1 pkg_eop request presponse data_reply :
  reports_failure
    (fu_goodixfp_device_cmd_xfer bound cmd0 cmd1 pkg_eop request presponse data_reply).
Proof. unfold fu_goodixfp_device_cmd_xfer. report. Qed.

#[local] Hint Resolve reports_cmd_xfer : reports.

Lemma reports_get_version bound : reports_failure (fu_goodixfp_device_get_version bound).
Proof. unfold fu_goodixfp_device_get_version. cbv zeta. report. Qed.

(** X16: an exchange and the query of the version never fail without an
    error, so the setup, which reads the message of the error when the query
    fails, has a result whenever the query has one. *)
Theorem version_query_reports_its_failure bound :
  (forall cmd0 cmd1 pkg_eop request presponse data_reply w w',
     fu_goodixfp_device_cmd_xfer bound cmd0 cmd1 pkg_eop request presponse data_reply w
     = Some (FALSE, w') ->
     gerror w' <> None) /\
  (forall w w',
     fu_goodixfp_device_get_version bound w = Some (FALSE, w') -> gerror w' <> None) /\
  (forall w r w1,
     fu_goodixfp_device_get_version bound (set_gerror None w) = Some (r, w1) ->
     exists w', fu_goodixfp_device_setup bound w = Some (TRUE tt, w')).
Proof.
  repeat split.
  - intros cmd0 cmd1 pkg_eop request presponse data_reply w w' H.
    apply (reports_cmd_xfer _ _ _ _ _ _ _ _ _ _ H). reflexivity.
  - intros w w' H. apply (reports_get_version _ _ _ _ H). reflexivity.
  - intros w r w1 H. unfold fu_goodixfp_device_setup.
    erewrite bind_TRUE; [| unfold with_error_local; rewrite H; reflexivity].
    destruct r as [ver|].
    + eexists. reflexivity.
    + destruct (gerror w1) as [error_local|] eqn:E.
      * eexists. reflexivity.
      * exfalso. apply (reports_get_version _ _ _ _ H); [reflexivity | exact E].
Qed.

(** *** Commands the device refuses *)

Lemma clean_bulk_transfer_out data : succeeds_cleanly (bulk_transfer_out data).
Proof. unfold bulk_transfer_out. clean. Qed.

Lemma clean_bulk_transfer_in size : succeeds_cleanly (bulk_transfer_in size).
Proof. unfold bulk_transfer_in. clean. Qed.

#[local] Hint Resolve clean_bulk_transfer_out clean_bulk_transfer_in : clean.

Lemma clean_cmd_send cmd0 cmd1 pkg_eop request :
  succeeds_cleanly (goodixfp_device_cmd_send cmd0 cmd1 pkg_eop request).
Proof. unfold goodixfp_device_cmd_send, bulk_transfer_out_zlp. cbv zeta. clean. Qed.

Lemma clean_cmd_recv bound : forall presponse data_reply,
  succeeds_cleanly (goodixfp_device_cmd_recv bound presponse data_reply).
Proof.
  unfold goodixfp_device_cmd_recv.
  induction bound as [|bound IH]; intros; cbn [goodixfp_device_cmd_recv_loop];
    [clean |].
  apply clean_bind; [clean | intros [actual_len reply_data]].
  cbv zeta. clean.
Qed.

#[local] Hint Resolve clean_cmd_send clean_cmd_recv : clean.

Lemma clean_cmd_xfer bound cmd0 cmd1 pkg_eop request presponse data_reply :
  succeeds_cleanly
    (fu_goodixfp_device_cmd_xfer bound cmd0 cmd1 pkg_eop request presponse data_reply).
Proof. unfold fu_goodixfp_device_cmd_xfer. clean. Qed.

Lemma same_fields_cmd_xfer bound cmd0 cmd1 pkg_eop request presponse data_reply :
  steps SameFields
    (fu_goodixfp_device_cmd_xfer bound cmd0 cmd1 pkg_eop request presponse data_reply).
Proof.
  apply (steps_fu_goodixfp_device_cmd_xfer any_event); auto with steps; reflexivity.
Qed.

Lemma grows_cmd_xfer bound cmd0 cmd1 pkg_eop request presponse data_reply :
  steps Grows
    (fu_goodixfp_device_cmd_xfer bound cmd0 cmd1 pkg_eop request presponse data_reply).
Proof.
  apply (steps_fu_goodixfp_device_cmd_xfer any_event);
    [apply Walk_Grows | reflexivity | reflexivity | reflexivity].
Qed.

(** X17: an attach reports the status restart before anything else, and
    asks for a replug exactly when it returns TRUE: then the flag is added
    and the error slot is as it was; when it returns FALSE the flags are as
    they were.  No other field of the device is touched. *)
Theorem attach_outcome bound w r w' :
  fu_goodixfp_device_attach bound w = Some (r, w') ->
  (exists evs,
      trace w' = trace w ++ EvStatus FWUPD_STATUS_DEVICE_RESTART :: evs) /\
  version w' = version w /\
  match r with
  | TRUE _ =>
      flags w' = FWUPD_DEVICE_FLAG_WAIT_FOR_REPLUG :: flags w /\ gerror w' = gerror w
  | FALSE => flags w' = flags w
  end.
Proof.
  unfold fu_goodixfp_device_attach, fu_device_set_status. cbv zeta. intros H.
  erewrite bind_TRUE in H; [| reflexivity].
  match type of H with bind _ _ ?W = _ => set (w0 := W) in H end.
  apply bind_inv in H. destruct H as [(reponse & w1 & H1 & H) | (H1 & ->)].
  - destruct (same_fields_cmd_xfer _ _ _ _ _ _ _ _ _ _ H1) as (_ & _ & Hv & Hf).
    destruct (grows_cmd_xfer _ _ _ _ _ _ _ _ _ _ H1) as (evs & Ht).
    pose proof (clean_cmd_xfer _ _ _ _ _ _ _ _ _ _ H1) as He.
    destruct (negb (result reponse =? 0)); inversion H; subst; cbn;
      (split; [exists evs; rewrite Ht; subst w0; cbn; rewrite <- app_assoc; reflexivity |]);
      (split; [exact Hv |]); [exact Hf | split; [rewrite Hf; reflexivity | exact He]].
  - destruct (same_fields_cmd_xfer _ _ _ _ _ _ _ _ _ _ H1) as (_ & _ & Hv & Hf).
    destruct (grows_cmd_xfer _ _ _ _ _ _ _ _ _ _ H1) as (evs & Ht).
    split; [exists evs; rewrite Ht; subst w0; cbn; rewrite <- app_assoc; reflexivity |].
    auto.
Qed.

(** X18: a command the device answers with a result other than 0 fails
    without an error: the start of an update and the attach return FALSE
    and leave the error slot as it was.  The update asks for the start with
    an empty [error_local] and reads the message of the error when the
    start fails, so it has no result when the device refuses the start. *)
Theorem refused_commands_fail_silently bound reponse w1 :
  result reponse <> 0 ->
  (forall w,
     fu_goodixfp_device_cmd_xfer bound GX_CMD_UPGRADE GX_CMD_UPGRADE_INIT 0 []
       reponse_zero true w = Some (TRUE reponse, w1) ->
     fu_goodixfp_device_update_init bound w = Some (FALSE, w1) /\
     gerror w1 = gerror w) /\
  (forall w,
     fu_goodixfp_device_cmd_xfer bound GX_CMD_RESET 0x03 0 [] reponse_zero false
       (set_trace (trace w ++ [EvStatus FWUPD_STATUS_DEVICE_RESTART]) w)
     = Some (TRUE reponse, w1) ->
     fu_goodixfp_device_attach bound w = Some (FALSE, w1) /\
     gerror w1 = gerror w) /\
  (forall w firmware fw,
     blob firmware = Some fw ->
     fu_goodixfp_device_cmd_xfer bound GX_CMD_UPGRADE GX_CMD_UPGRADE_INIT 0 []
       reponse_zero true (at_update_init w) = Some (TRUE reponse, w1) ->
     fu_goodixfp_device_write_firmware bound firmware w = None).
Proof.
  intros Hr. apply Z.eqb_neq in Hr.
  assert (Hinit : forall w,
            fu_goodixfp_device_cmd_xfer bound GX_CMD_UPGRADE GX_CMD_UPGRADE_INIT 0 []
              reponse_zero true w = Some (TRUE reponse, w1) ->
            fu_goodixfp_device_update_init bound w = Some (FALSE, w1) /\
            gerror w1 = gerror w).
  { intros w H. split; [| apply (clean_cmd_xfer _ _ _ _ _ _ _ _ _ _ H)].
    unfold fu_goodixfp_device_update_init. cbv zeta.
    rewrite (bind_TRUE _ _ _ _ _ H), Hr. reflexivity. }
  split; [exact Hinit |]. split.
  - intros w H. split; [| apply (clean_cmd_xfer _ _ _ _ _ _ _ _ _ _ H)].
    unfold fu_goodixfp_device_attach, fu_device_set_status. cbv zeta.
    erewrite bind_TRUE; [| reflexivity].
    rewrite (bind_TRUE _ _ _ _ _ H), Hr. reflexivity.
  - intros w firmware fw Hb H.
    destruct (Hinit _ H) as (Hi & He).
    unfold fu_goodixfp_device_write_firmware, fu_firmware_get_image_default_bytes,
      fu_device_set_status.
    cbv zeta. rewrite Hb.
    erewrite bind_TRUE; [| reflexivity].
    erewrite bind_TRUE; [| reflexivity].
    erewrite bind_TRUE;
      [| unfold with_error_local; fold (at_update_init w); rewrite Hi; reflexivity].
    rewrite He. reflexivity.
Qed.

(** *** The errors of an update *)

Lemma with_error_local_inv {A} (m : M A) w x w1 :
  with_error_local m w = Some (x, w1) -> gerror w1 = gerror w /\ x <> FALSE.
Proof.
  unfold with_error_local.
  destruct (m (set_gerror None w)) as [[r w2]|]; intros H; inversion H; subst.
  split; [reflexivity | discriminate].
Qed.

Lemma with_error_local_run {A} (m : M A) w r e w1 :
  with_error_local m w = Some (TRUE (r, e), w1) ->
  exists wb, m (set_gerror None w) = Some (r, wb) /\ gerror wb = e /\
    w1 = set_gerror (gerror w) wb.
Proof.
  unfold with_error_local.
  destruct (m (set_gerror None w)) as [[r' wb]|]; intros H; inversion H; subst.
  exists wb. auto.
Qed.

(** A loop over the chunks that returns FALSE has come to a chunk whose
    exchange failed: the loop ends there, with the message of the error of
    that exchange behind "failed to write". *)
Lemma write_firmware_loop_failure bound chunks :
  forall chunks_len i wait_data_reply pkg_eop reponse w w',
    gerror w = None ->
    write_firmware_loop bound chunks chunks_len i wait_data_reply pkg_eop reponse w
    = Some (FALSE, w') ->
    exists chk pkg_eop' reponse' wait_data_reply' wa wb e,
      In chk chunks /\ gerror wa = None /\ Grows w wa /\
      fu_goodixfp_device_cmd_xfer bound GX_CMD_UPGRADE GX_CMD_UPGRADE_DATA pkg_eop'
        (data chk) reponse' wait_data_reply' wa = Some (FALSE, wb) /\
      gerror wb = Some e /\ trace w' = trace wb /\
      gerror w' = Some (mkGError FWUPD_ERROR_WRITE
                          (FormatMessage "failed to write: %s" (message e))).
Proof.
  induction chunks as [|chk chunks IH];
    intros chunks_len i wait_data_reply pkg_eop reponse w w' He H.
  - discriminate H.
  - cbn [write_firmware_loop] in H. cbv zeta in H.
    apply bind_inv in H. destruct H as [(x & w1 & H1 & H) | (H1 & _)].
    + destruct x as [r e].
      apply with_error_local_run in H1. destruct H1 as (wb & Hx & Hee & ->).
      destruct r as [reponse'|].
      * erewrite bind_TRUE in H; [| reflexivity].
        apply IH in H; [| cbn; exact He].
        destruct H as (chk' & p' & r' & d' & wa & wb' & e' & Hin & Ha & Hg & Hrun & K).
        exists chk', p', r', d', wa, wb', e'.
        split; [right; exact Hin |]. split; [exact Ha |]. split; [| auto].
        destruct (grows_cmd_xfer _ _ _ _ _ _ _ _ _ _ Hx) as (e1 & T1).
        destruct Hg as (e2 & T2). cbn in T1, T2.
        exists (e1 ++ [EvProgress i chunks_len] ++ e2).
        rewrite T2, T1, <- !app_assoc. reflexivity.
      * destruct e as [error_local|]; [| discriminate H].
        unfold bind, g_set_error, return_FALSE in H. cbn in H. rewrite He in H.
        inversion H; subst. cbn.
        eexists chk, _, _, _, (set_gerror None w), wb, error_local.
        split; [left; reflexivity |]. split; [reflexivity |].
        split; [exists []; cbn; rewrite app_nil_r; reflexivity |].
        split; [exact Hx |]. auto.
    + unfold with_error_local in H1.
      destruct (fu_goodixfp_device_cmd_xfer _ _ _ _ _ _ _ _) as [[r wb]|];
        discriminate H1.
Qed.

(** X19: an update that returns FALSE reports a write error that quotes
    the error of the exchange that failed.  Either the start of the update,
    asked for in the world the status report left and with an empty
    [error_local], returned FALSE with an error: then the message is "failed
    to init update: " followed by the message of that error.  Or the start
    succeeded and the exchange of one of the chunks of the image, begun
    later in the run with an empty [error_local], returned FALSE with an
    error: then the message is "failed to write: " followed by the message
    of that error.  In both cases the code is FWUPD_ERROR_WRITE and nothing
    is sent or logged after the exchange that failed. *)
Theorem update_failures_are_write_errors bound firmware fw w w' :
  blob firmware = Some fw -> gerror w = None ->
  fu_goodixfp_device_write_firmware bound firmware w = Some (FALSE, w') ->
  (exists w1 e,
      fu_goodixfp_device_update_init bound (at_update_init w) = Some (FALSE, w1) /\
      gerror w1 = Some e /\ trace w' = trace w1 /\
      gerror w' = Some (mkGError FWUPD_ERROR_WRITE
                          (FormatMessage "failed to init update: %s" (message e))))
  \/
  (exists w1 chk pkg_eop reponse wait_data_reply wa wb e,
      fu_goodixfp_device_update_init bound (at_update_init w) = Some (TRUE tt, w1) /\
      In chk (fu_chunk_array_new_from_bytes fw 0 GX_FLASH_TRANSFER_BLOCK_SIZE) /\
      gerror wa = None /\ Grows w1 wa /\
      fu_goodixfp_device_cmd_xfer bound GX_CMD_UPGRADE GX_CMD_UPGRADE_DATA pkg_eop
        (data chk) reponse wait_data_reply wa = Some (FALSE, wb) /\
      gerror wb = Some e /\ trace w' = trace wb /\
      gerror w' = Some (mkGError FWUPD_ERROR_WRITE
                          (FormatMessage "failed to write: %s" (message e)))).
Proof.
  intros Hb He H.
  unfold fu_goodixfp_device_write_firmware, fu_firmware_get_image_default_bytes,
    fu_device_set_status in H.
  cbv zeta in H. rewrite Hb in H.
  erewrite bind_TRUE in H; [| reflexivity].
  erewrite bind_TRUE in H; [| reflexivity].
  apply bind_inv in H. destruct H as [(x & w1 & H1 & H) | (H1 & _)].
  - destruct x as [r e].
    apply with_error_local_run in H1. destruct H1 as (wb & Hx & Hee & ->).
    change (set_gerror None
              (set_trace (trace w ++ [EvStatus FWUPD_STATUS_DEVICE_WRITE]) w))
      with (at_update_init w) in Hx.
    destruct r as [[]|].
    + right. apply write_firmware_loop_failure in H; [| cbn; exact He].
      destruct H as (chk & p' & r' & d' & wa & wb' & e' & Hin & Ha & Hg & Hrun & K).
      exists wb, chk, p', r', d', wa, wb', e'.
      split; [exact Hx |]. split; [exact Hin |]. split; [exact Ha |].
      split; [| auto]. destruct Hg as (e2 & T2). cbn in T2. exists e2. exact T2.
    + left. destruct e as [error_local|]; [| discriminate H].
      unfold bind, g_set_error, return_FALSE in H. cbn in H. rewrite He in H.
      inversion H; subst. cbn. exists wb, error_local. auto.
  - unfold with_error_local in H1.
    destruct (fu_goodixfp_device_update_init _ _) as [[r wb]|]; discriminate H1.
Qed.

End Exchange.

Lemma built_package_carries_its_checksum_witness :
  let buf := build_package (P := example_proto) 0xD0 0 0 [0] ++ repeat 0 989 in
  computed_crc (P := example_proto) buf (mkHeader 1 0xD0 0 0)
  = carried_crc (P := example_proto) buf (mkHeader 1 0xD0 0 0).
Proof.
  exact (built_package_carries_its_checksum (P := example_proto) 0xD0 0 0 [0]
           (mkHeader 1 0xD0 0 0) (repeat 0 989) eq_refl eq_refl).
Defined.

(** The device takes three bytes of the ten of a version query. *)
Lemma cmd_send_failures_witness :
  let w := plugged [RDone; RBulk 3 []; RDone] in
  goodixfp_device_cmd_send (P := example_proto) 0xD0 0 0 [0] w
  = Some (FALSE,
          set_gerror (Some invalid_length)
            (answered [RDone]
               [EvBulkOut []; EvBulkOut (example_package 0xD0 0 0 [0])] w)).
Proof.
  intros w.
  exact (proj2 (proj2 (cmd_send_failures (P := example_proto) 0xD0 0 0 [0] [RDone] w
                         eq_refl))
           3 [] ltac:(split; [vm_compute; discriminate | vm_compute; reflexivity])
           eq_refl).
Defined.

(** Three bytes are too few for a header. *)
Lemma cmd_recv_failures_witness :
  let w := plugged [RBulk 3 (repeat 0 1000); RDone] in
  goodixfp_device_cmd_recv (P := example_proto) 2 reponse_zero true w
  = Some (FALSE, set_gerror (Some invalid_value) (after_read [RDone] w)).
Proof.
  intros w.
  assert (Ha : read_answer 3 (repeat 0 1000)).
  { split; [split; vm_compute; discriminate | split; vm_compute; reflexivity]. }
  exact (proj1 (proj2 (cmd_recv_failures (P := example_proto) 1 reponse_zero true
                         [RDone] w eq_refl))
           3 (repeat 0 1000) eq_refl Ha ltac:(discriminate) eq_refl).
Defined.

Lemma get_version_is_short_string_witness :
  let w := plugged answers_version in
  let w' := world_after (fu_goodixfp_device_get_version (P := example_proto) 3 w) w in
  fu_goodixfp_device_get_version (P := example_proto) 3 w
  = Some (TRUE (VersionPlain [49; 50; 51; 52; 53; 54; 55; 56]), w') /\
  exists text, VersionPlain [49; 50; 51; 52; 53; 54; 55; 56] = VersionPlain text /\
    (List.length text <= 8)%nat /\ ~ In 0 text.
Proof.
  intros w w'.
  assert (Hrun : fu_goodixfp_device_get_version (P := example_proto) 3 w
                 = Some (TRUE (VersionPlain [49; 50; 51; 52; 53; 54; 55; 56]), w')).
  { apply run_shape. vm_compute. reflexivity. }
  split; [exact Hrun |].
  exact (get_version_is_short_string (P := example_proto) 3 w _ w' Hrun).
Defined.

(** The reply to the query of the version has a wrong checksum. *)
Lemma version_query_reports_its_failure_witness :
  let w := plugged answers_version_corrupted in
  exists w', fu_goodixfp_device_setup (P := example_proto) 3 w = Some (TRUE tt, w').
Proof.
  intros w.
  assert (Hrun : fu_goodixfp_device_get_version (P := example_proto) 3 (set_gerror None w)
                 = Some (FALSE,
                         world_after
                           (fu_goodixfp_device_get_version (P := example_proto) 3
                              (set_gerror None w)) w)).
  { apply run_shape. vm_compute. reflexivity. }
  exact (proj2 (proj2 (version_query_reports_its_failure (P := example_proto) 3))
           w FALSE _ Hrun).
Defined.

(** The device acknowledges the reset. *)
Lemma attach_outcome_witness :
  let w := plugged answers_reset in
  let w' := world_after (fu_goodixfp_device_attach (P := example_proto) 3 w) w in
  fu_goodixfp_device_attach (P := example_proto) 3 w = Some (TRUE tt, w') /\
  (exists evs,
      trace w' = trace w ++ EvStatus FWUPD_STATUS_DEVICE_RESTART :: evs) /\
  version w' = version w /\
  flags w' = FWUPD_DEVICE_FLAG_WAIT_FOR_REPLUG :: flags w /\ gerror w' = gerror w.
Proof.
  intros w w'.
  assert (Hrun : fu_goodixfp_device_attach (P := example_proto) 3 w = Some (TRUE tt, w')).
  { apply run_shape. vm_compute. reflexivity. }
  split; [exact Hrun |].
  exact (attach_outcome (P := example_proto) 3 w (TRUE tt) w' Hrun).
Defined.

(** The device replies to the start of an update with the result 1. *)
Lemma refused_commands_fail_silently_witness :
  let w := plugged answers_init_refused in
  fu_goodixfp_device_write_firmware (P := example_proto) 3 (mkFirmware (Some [0x5A])) w
  = None.
Proof.
  intros w.
  assert (Hrun : fu_goodixfp_device_cmd_xfer (P := example_proto) 3
                   (GX_CMD_UPGRADE (GxProto := example_proto))
                   (GX_CMD_UPGRADE_INIT (GxProto := example_proto)) 0 []
                   (reponse_zero (GxProto := example_proto)) true (at_update_init w)
                 = Some (TRUE (mkResponse 1 (repeat 0 8)),
                         world_after
                           (fu_goodixfp_device_cmd_xfer (P := example_proto) 3
                              (GX_CMD_UPGRADE (GxProto := example_proto))
                              (GX_CMD_UPGRADE_INIT (GxProto := example_proto)) 0 []
                              (reponse_zero (GxProto := example_proto)) true
                              (at_update_init w)) w)).
  { apply run_shape. vm_compute. reflexivity. }
  exact (proj2 (proj2 (refused_commands_fail_silently (P := example_proto) 3
                         (mkResponse 1 (repeat 0 8)) _ ltac:(discriminate)))
           w (mkFirmware (Some [0x5A])) [0x5A] eq_refl Hrun).
Defined.

(** The device does not take the zero-length package of the start of an
    update; and the device accepts the start of the update and then does
    not take the zero-length package of the first chunk. *)
Lemma update_failures_are_write_errors_witness :
  let firmware := mkFirmware (Some [0x5A]) in
  let w := plugged [RFail] in
  let w' := world_after
              (fu_goodixfp_device_write_firmware (P := example_proto) 3 firmware w) w in
  let v := plugged (answers_init_accepted ++ [RFail]) in
  let v' := world_after
              (fu_goodixfp_device_write_firmware (P := example_proto) 3 firmware v) v in
  (gerror w'
   = Some (mkGError FWUPD_ERROR_WRITE
             (FormatMessage "failed to init update: %s" (message failed_to_request))) /\
   exists w1 e,
     fu_goodixfp_device_update_init (P := example_proto) 3 (at_update_init w)
     = Some (FALSE, w1) /\
     gerror w1 = Some e /\ trace w' = trace w1 /\
     gerror w' = Some (mkGError FWUPD_ERROR_WRITE
                         (FormatMessage "failed to init update: %s" (message e)))) /\
  (gerror v'
   = Some (mkGError FWUPD_ERROR_WRITE
             (FormatMessage "failed to write: %s" (message failed_to_request))) /\
   exists w1 chk pkg_eop reponse wait_data_reply wa wb e,
     fu_goodixfp_device_update_init (P := example_proto) 3 (at_update_init v)
     = Some (TRUE tt, w1) /\
     In chk (fu_chunk_array_new_from_bytes [0x5A] 0 GX_FLASH_TRANSFER_BLOCK_SIZE) /\
     gerror wa = None /\ Grows w1 wa /\
     fu_goodixfp_device_cmd_xfer (P := example_proto) 3
       (GX_CMD_UPGRADE (GxProto := example_proto))
       (GX_CMD_UPGRADE_DATA (GxProto := example_proto)) pkg_eop
       (data chk) reponse wait_data_reply wa = Some (FALSE, wb) /\
     gerror wb = Some e /\ trace v' = trace wb /\
     gerror v' = Some (mkGError FWUPD_ERROR_WRITE
                         (FormatMessage "failed to write: %s" (message e)))).
Proof.
  intros firmware w w' v v'.
  assert (Hw : fu_goodixfp_device_write_firmware (P := example_proto) 3 firmware w
               = Some (FALSE, w')).
  { apply run_shape. vm_compute. reflexivity. }
  assert (Hv : fu_goodixfp_device_write_firmware (P := example_proto) 3 firmware v
               = Some (FALSE, v')).
  { apply run_shape. vm_compute. reflexivity. }
  assert (Hiw : fu_goodixfp_device_update_init (P := example_proto) 3 (at_update_init w)
                = Some (FALSE,
                        world_after
                          (fu_goodixfp_device_update_init (P := example_proto) 3
                             (at_update_init w)) w)).
  { apply run_shape. vm_compute. reflexivity. }
  assert (Hiv : fu_goodixfp_device_update_init (P := example_proto) 3 (at_update_init v)
                = Some (TRUE tt,
                        world_after
                          (fu_goodixfp_device_update_init (P := example_proto) 3
                             (at_update_init v)) v)).
  { apply run_shape. vm_compute. reflexivity. }
  split; (split; [vm_compute; reflexivity |]).
  - destruct (update_failures_are_write_errors (P := example_proto) 3 firmware [0x5A]
                w w' eq_refl eq_refl Hw)
      as [K | (w1 & chk & p & r & d & wa & wb & e & K & _)]; [exact K |].
    rewrite Hiw in K. discriminate K.
  - destruct (update_failures_are_write_errors (P := example_proto) 3 firmware [0x5A]
                v v' eq_refl eq_refl Hv)
      as [(w1 & e & K & _) | K]; [| exact K].
    rewrite Hiv in K. discriminate K.
Defined.

End GoodixExchangeTheorems.

(** ** The pages a read maps and reads *)

Module ParadeMapTheorems.
Import ParadeLspcon ParadeVocabulary ParadeTraffic ParadeGuard ParadeReadTheorems
  ParadeWriteTheorems.

Lemma Walk_not_page_access : Walk not_page_access (Emits (unkept is_page_access)).
Proof. apply Walk_Emits. intros ev H. apply negb_true_iff in H. exact H. Qed.

Lemma not_page_access_warning m : not_page_access (EvWarning m) = true.
Proof. reflexivity. Qed.

#[local] Hint Resolve Walk_not_page_access not_page_access_warning : steps.

Lemma no_page_access_emit ev :
  not_page_access ev = true -> steps (Emits (unkept is_page_access)) (emit ev).
Proof. intros H. eapply steps_emit; eauto with steps. Qed.

Lemma no_page_access_addr address :
  steps (Emits (unkept is_page_access))
        (fun w => Some (TRUE tt, set_i2c_addr address w)).
Proof.
  intros w r w' H. inversion H; subst. exists []. rewrite app_nil_r. auto.
Qed.

Lemma no_page_access_guard_new address :
  steps (Emits (unkept is_page_access)) (i2c_address_guard_new address).
Proof.
  eapply any_i2c_address_guard_new; eauto with steps;
    [intros; apply no_page_access_emit; reflexivity | apply no_page_access_addr].
Qed.

Lemma no_page_access_guard_dispose guard :
  steps (Emits (unkept is_page_access)) (i2c_address_guard_dispose guard).
Proof.
  eapply any_i2c_address_guard_dispose; eauto with steps;
    [intros; apply no_page_access_emit; reflexivity | apply no_page_access_addr].
Qed.

(** A library read is logged whether it succeeds or fails. *)
Lemma proto_library_read keep ev n :
  keep ev = true -> (forall m, keep (EvWarning m) = false) ->
  proto keep [ev] (library_read ev n).
Proof.
  intros Hk Hw w r w' H.
  destruct w as [s t e a p nm v f]. cbn in H.
  destruct s as [|[| |bs| | |] rest]; cbn in H; try discriminate.
  - destruct e; inversion H; subst; cbn.
    + exists [ev; EvWarning LibraryText]. rewrite <- app_assoc. split; [reflexivity |].
      cbn. rewrite Hk, Hw. apply prefix_refl.
    + exists [ev]. split; [reflexivity |]. cbn. rewrite Hk. apply prefix_refl.
  - destruct ((Z.of_nat (List.length bs) =? n) && forallb byteb bs);
      [| discriminate].
    inversion H; subst. exists [ev]. split; [reflexivity |]. cbn. rewrite Hk.
    reflexivity.
Qed.

(** The window is read once, between the selection of page 7 and its
    release. *)
Lemma proto_window_read :
  proto is_page_access [EvI2cRead 256]
        (guard <- i2c_address_guard_new I2C_ADDR_PAGE7 ;;
         g_autoptr_scope (TRUE guard) (fu_i2c_device_read_full 256)).
Proof.
  eapply proto_bind with (L1 := []);
    [apply proto_silent; [apply no_page_access_guard_new | reflexivity]
    | intros guard | reflexivity].
  apply proto_g_autoptr_scope; [apply no_page_access_guard_dispose |].
  apply proto_library_read; reflexivity.
Qed.

(** The page registers take the number of the page that holds the address. *)
Lemma proto_lspcon_map_page address :
  0 <= address < 16777216 ->
  proto is_page_access (page_map_writes (address / 256)) (lspcon_map_page address).
Proof.
  intros Ha. unfold lspcon_map_page, lspcon_write_register, fu_i2c_device_write_full.
  assert (Hhi : u8 (Z.shiftr address 16) = address / 256 / 256).
  { unfold u8. rewrite Z.shiftr_div_pow2 by lia. change (2 ^ 16) with 65536.
    rewrite Z.mod_small; Z.to_euclidean_division_equations; lia. }
  assert (Hlo : u8 (Z.shiftr address 8) = (address / 256) mod 256).
  { unfold u8. rewrite Z.shiftr_div_pow2 by lia. reflexivity. }
  rewrite Hhi, Hlo. unfold page_map_writes.
  eapply proto_bind with (L1 := [_]);
    [apply proto_library_call; reflexivity | intros _ | reflexivity].
  apply proto_library_call; reflexivity.
Qed.

Lemma read_plan_step base_address len :
  0 <= base_address -> 0 < len ->
  let take := Z.min len (256 - base_address mod 256) in
  read_plan base_address len
  = page_access (base_address / 256) ++ read_plan (base_address + take) (len - take).
Proof.
  intros Hb Hl take.
  destruct (pages_spanned_step base_address len Hb Hl) as (Ht & Hp & Hq).
  fold take in Ht, Hp, Hq.
  unfold read_plan. rewrite Hp.
  cbn [seq flat_map]. rewrite Z.add_0_r. f_equal.
  rewrite <- seq_shift, !flat_map_concat_map, map_map. f_equal.
  apply map_ext_in. intros i Hi. f_equal.
  destruct (Z.eq_dec take len) as [E | E].
  - exfalso. rewrite E, Z.sub_diag in Hi. unfold pages_spanned in Hi.
    cbn in Hi. exact Hi.
  - rewrite Hq by lia. lia.
Qed.

Lemma proto_flash_read_loop rounds : forall target_len base_address len data,
  0 <= base_address -> 0 <= len -> base_address + len <= 16777216 ->
  proto is_page_access (read_plan base_address len)
        (flash_read_loop rounds target_len base_address len data).
Proof.
  induction rounds as [|rounds IH]; intros target_len base_address len data Hb Hl Hmax.
  - cbn [flash_read_loop]. destruct (len <=? 0) eqn:E.
    + apply Z.leb_le in E. assert (len = 0) by lia. subst len.
      apply proto_silent; [walk | reflexivity].
    + intros w r w' H. discriminate H.
  - cbn [flash_read_loop]. destruct (len <=? 0) eqn:E.
    + apply Z.leb_le in E. assert (len = 0) by lia. subst len.
      apply proto_silent; [walk | reflexivity].
    + apply Z.leb_gt in E. cbv zeta. rewrite land_0xFF.
      destruct (pages_spanned_step base_address len Hb E) as (Ht & _ & _).
      rewrite (read_plan_step base_address len Hb E).
      set (take := Z.min len (256 - base_address mod 256)) in *.
      assert (Hm : 0 <= base_address mod 256 < 256) by (apply Z.mod_pos_bound; lia).
      unfold page_access. rewrite <- app_assoc.
      eapply proto_bind; [apply proto_lspcon_map_page; lia | intros _ | reflexivity].
      eapply proto_bind;
        [apply proto_window_read | intros page_data | reflexivity].
      eapply proto_bind with (L1 := []);
        [apply proto_silent;
         [apply no_page_access_emit; reflexivity | reflexivity]
        | intros _ | reflexivity].
      unfold u32. rewrite Z.mod_small by lia.
      apply IH; lia.
Qed.

(** X20: a read of [len] bytes at a 24-bit address goes through the pages
    that hold the bytes one at a time and in ascending order: for each page
    it writes the high byte and then the low byte of the page number to the
    page registers and then reads the window once, before it turns to the
    next page.  The writes of the page registers and the reads of the
    window are exactly these, in this order, when the read returns TRUE, and
    the first of them when it returns FALSE; no other page is mapped and the
    window is not read without the page having been mapped just before. *)
Theorem flash_read_maps_pages base_address len w r w' :
  0 <= base_address -> 0 <= len -> base_address + len <= 16777216 ->
  flash_read base_address len w = Some (r, w') ->
  exists evs, trace w' = trace w ++ evs /\
    match r with
    | TRUE _ => filter is_page_access evs = read_plan base_address len
    | FALSE => prefix (filter is_page_access evs) (read_plan base_address len)
    end.
Proof.
  intros Hb Hl Hmax. revert w r w'.
  apply (proto_flash_read_loop (Z.to_nat len) len base_address len [] Hb Hl Hmax).
Qed.

(** Four bytes across the boundary between the pages 0x1FF and 0x200. *)
Lemma flash_read_maps_pages_witness :
  let flash := fun a => a mod 256 in
  let w := opened (answers_flash_read flash 0x1FFFE 4) 1 in
  let w' := world_after (flash_read 0x1FFFE 4 w) w in
  flash_read 0x1FFFE 4 w = Some (TRUE [0xFE; 0xFF; 0x00; 0x01], w') /\
  exists evs, trace w' = trace w ++ evs /\
    filter is_page_access evs
    = [EvI2cWrite [REG_ADDR_FLASH_ADDR_HI; 0x01]; EvI2cWrite [REG_ADDR_FLASH_ADDR_LO; 0xFF];
       EvI2cRead 256;
       EvI2cWrite [REG_ADDR_FLASH_ADDR_HI; 0x02]; EvI2cWrite [REG_ADDR_FLASH_ADDR_LO; 0x00];
       EvI2cRead 256].
Proof.
  intros flash w w'.
  assert (Hrun : flash_read 0x1FFFE 4 w = Some (TRUE [0xFE; 0xFF; 0x00; 0x01], w')).
  { apply run_shape. vm_compute. reflexivity. }
  split; [exact Hrun |].
  exact (flash_read_maps_pages 0x1FFFE 4 w _ w' ltac:(lia) ltac:(lia) ltac:(lia) Hrun).
Defined.

End ParadeMapTheorems.

(** ** Waiting for the flash *)

Module ParadeWaitTheorems.
Import ParadeLspcon ParadeVocabulary ParadeTraffic ParadeTheorems ParadeTrafficTheorems.

Lemma lspcon_read_register_read register_address value rest w :
  script w = answers_register_read value ++ rest -> byteb value = true ->
  lspcon_read_register register_address w
  = Some (TRUE value, answered rest [EvI2cWrite [register_address]; EvI2cRead 1] w).
Proof. intros Hs Hb. apply lspcon_read_register_answered; assumption. Qed.

(** A poll whose first read matches. *)
Lemma lspcon_poll_register_at_once bound register_address mask expected value rest w :
  script w = answers_register_read value ++ rest -> byteb value = true ->
  Z.land value mask = expected ->
  lspcon_poll_register (S bound) register_address mask expected w
  = Some (TRUE tt, answered rest [EvI2cWrite [register_address]; EvI2cRead 1] w).
Proof.
  intros Hs Hb Hv. unfold lspcon_poll_register. cbn [lspcon_poll_register_loop].
  erewrite bind_TRUE; [| apply lspcon_read_register_read; eassumption].
  apply Z.eqb_eq in Hv. rewrite Hv. reflexivity.
Qed.

Lemma flash_read_status_answered bound status rest w :
  script w = answers_status status ++ rest -> byteb status = true ->
  flash_read_status (S bound) w
  = Some (TRUE status, answered rest status_read_events w).
Proof.
  intros Hs Hb. unfold answers_status in Hs. cbn [app] in Hs.
  unfold flash_read_status.
  answered_by lspcon_write_register_answered.
  answered_by lspcon_write_register_answered.
  answered_by lspcon_write_register_answered.
  erewrite bind_TRUE;
    [| eapply lspcon_poll_register_at_once; reflexivity].
  erewrite lspcon_read_register_read; [| reflexivity | exact Hb].
  rewrite !answered_answered. reflexivity.
Qed.

Lemma g_timer_elapsed_read elapsed rest w :
  script w = RElapsed elapsed :: rest -> 0 <= elapsed ->
  g_timer_elapsed w = Some (TRUE elapsed, answered rest [] w).
Proof.
  intros Hs He. rewrite (g_timer_elapsed_answered _ _ _ Hs He).
  unfold answered. destruct w. cbn. rewrite app_nil_r. reflexivity.
Qed.

(** The rounds of [flash_wait_ready] that find the flash busy. *)
Lemma wait_ready_busy inner rounds :
  forall bound w tail,
    Forall busy rounds ->
    script w = flat_map answers_busy_round rounds ++ tail ->
    flash_wait_ready_loop (List.length rounds + bound) (S inner) w
    = flash_wait_ready_loop bound (S inner)
        (answered tail (flat_map (fun _ => busy_round_events) rounds) w).
Proof.
  induction rounds as [|[status elapsed] rounds IH]; intros bound w tail Hb Hs.
  - cbn. rewrite answered_nil; auto.
  - inversion Hb as [|x l (Hbyte & Hbusy & Hel) Hb']; subst. cbn in Hbyte, Hbusy, Hel.
    cbn [flat_map] in Hs. unfold answers_busy_round at 1 in Hs.
    cbn [fst snd] in Hs. rewrite <- !app_assoc in Hs.
    cbn [List.length Nat.add flash_wait_ready_loop].
    erewrite bind_TRUE; [| apply flash_read_status_answered; eassumption].
    apply Z.eqb_neq in Hbusy. rewrite Hbusy.
    unfold g_usleep. erewrite bind_TRUE; [| reflexivity].
    erewrite bind_TRUE; [| apply g_timer_elapsed_read; [reflexivity | lia]].
    unfold within_10_seconds.
    replace (elapsed <=? 10000000) with true by (symmetry; apply Z.leb_le; lia).
    rewrite (IH bound _ tail Hb'); [| reflexivity].
    f_equal. unfold answered, busy_round_events. destruct w. cbn.
    rewrite <- !app_assoc. reflexivity.
Qed.

(** X21: the wait for the flash reads the status register until its BUSY
    bit is clear and sleeps a millisecond after every read that finds it
    set: it returns TRUE at the first read that finds the bit clear, however
    long that took, and FALSE with a time-out error when a read finds the
    bit set and more than ten seconds have passed since the wait began.
    (The controller completes each read of the status at once; the bound of
    the model only has to exceed the number of reads.) *)
Theorem flash_wait_ready_spec rounds status rest bound w :
  Forall busy rounds -> byteb status = true ->
  (List.length rounds < bound)%nat ->
  script w = flat_map answers_busy_round rounds ++ answers_status status ++ rest ->
  (Z.land status 1 = 0 ->
   flash_wait_ready bound w
   = Some (TRUE tt,
           answered rest
             (flat_map (fun _ => busy_round_events) rounds ++ status_read_events) w))
  /\
  (Z.land status 1 <> 0 ->
   forall elapsed rest',
     rest = RElapsed elapsed :: rest' -> 10000000 < elapsed -> gerror w = None ->
     flash_wait_ready bound w
     = Some (FALSE,
             set_gerror (Some flash_not_ready)
               (answered rest'
                  (flat_map (fun _ => busy_round_events) rounds ++ busy_round_events)
                  w))).
Proof.
  intros Hb Hbyte Hbound Hs.
  destruct bound as [|inner]; [inversion Hbound |].
  assert (Hrun : flash_wait_ready (S inner) w
                 = flash_wait_ready_loop (S (inner - List.length rounds)) (S inner)
                     (answered (answers_status status ++ rest)
                        (flat_map (fun _ => busy_round_events) rounds) w)).
  { unfold flash_wait_ready.
    rewrite <- (wait_ready_busy inner rounds (S (inner - List.length rounds)) w _ Hb Hs).
    f_equal. lia. }
  rewrite Hrun. clear Hrun.
  split.
  - intros Hready.
    cbn [flash_wait_ready_loop].
    erewrite bind_TRUE; [| apply flash_read_status_answered; [reflexivity | exact Hbyte]].
    apply Z.eqb_eq in Hready. rewrite Hready.
    rewrite answered_answered. reflexivity.
  - intros Hbusy elapsed rest' -> Hlate He.
    cbn [flash_wait_ready_loop].
    erewrite bind_TRUE; [| apply flash_read_status_answered; [reflexivity | exact Hbyte]].
    apply Z.eqb_neq in Hbusy. rewrite Hbusy.
    unfold g_usleep. erewrite bind_TRUE; [| reflexivity].
    erewrite bind_TRUE; [| apply g_timer_elapsed_read; [reflexivity | lia]].
    unfold within_10_seconds.
    replace (elapsed <=? 10000000) with false by (symmetry; apply Z.leb_gt; lia).
    unfold bind, g_set_error, return_FALSE. cbn. rewrite He.
    unfold answered, busy_round_events. destruct w. cbn.
    rewrite <- !app_assoc. reflexivity.
Qed.

(** The flash is busy at the first two reads, or still busy after more
    than ten seconds. *)
Lemma flash_wait_ready_spec_witness :
  let w := opened (answers_busy_round (1, 300) ++ answers_busy_round (3, 900)
                   ++ answers_status 0 ++ [RDone]) 1 in
  let late := opened (answers_busy_round (1, 300) ++ answers_status 1
                      ++ [RElapsed 10000001; RDone]) 1 in
  flash_wait_ready 3 w
  = Some (TRUE tt,
          answered [RDone]
            (busy_round_events ++ busy_round_events ++ status_read_events) w)
  /\
  flash_wait_ready 3 late
  = Some (FALSE,
          set_gerror (Some flash_not_ready)
            (answered [RDone] (busy_round_events ++ busy_round_events) late)).
Proof.
  intros w late.
  assert (Hbusy : forall status elapsed,
            byteb status = true -> Z.odd status = true -> 0 <= elapsed <= 10000000 ->
            busy (status, elapsed)).
  { intros status elapsed Hb Ho He. split; [exact Hb | split; [| exact He]].
    cbn [fst]. change 1 with (Z.ones 1). rewrite Z.land_ones by lia.
    rewrite Zmod_odd, Ho. discriminate. }
  split.
  - exact (proj1 (flash_wait_ready_spec [(1, 300); (3, 900)] 0 [RDone] 3 w
                    ltac:(repeat constructor; apply Hbusy; first [reflexivity | lia])
                    eq_refl ltac:(cbn; lia) eq_refl)
             eq_refl).
  - exact (proj2 (flash_wait_ready_spec [(1, 300)] 1 [RElapsed 10000001; RDone] 3 late
                    ltac:(repeat constructor; apply Hbusy; first [reflexivity | lia])
                    eq_refl ltac:(cbn; lia) eq_refl)
             ltac:(discriminate) 10000001 [RDone] eq_refl ltac:(lia) eq_refl).
Defined.

(** The bytes of the address in the erase command of a block. *)
Lemma block_address_bytes base_address :
  Z.land base_address (FLASH_BLOCK_SIZE - 1) = 0 -> 0 <= base_address < 16777216 ->
  u8 (Z.shiftr base_address 16) = base_address / 65536 /\
  u8 (Z.shiftr base_address 8) = 0 /\ u8 base_address = 0.
Proof.
  intros Ha Hb. change (FLASH_BLOCK_SIZE - 1) with (Z.ones 16) in Ha.
  rewrite Z.land_ones in Ha by lia. change (2 ^ 16) with 65536 in Ha.
  unfold u8. rewrite !Z.shiftr_div_pow2 by lia.
  change (2 ^ 16) with 65536. change (2 ^ 8) with 256.
  repeat split; Z.to_euclidean_division_equations; lia.
Qed.

Lemma flash_erase_block_answered bound base_address rest w :
  Z.land base_address (FLASH_BLOCK_SIZE - 1) = 0 -> 0 <= base_address < 16777216 ->
  script w = answers_erase ++ rest ->
  flash_erase_block (S bound) base_address FLASH_BLOCK_SIZE w
  = Some (TRUE tt, answered rest (erase_events base_address) w).
Proof.
  intros Ha Hb Hs.
  destruct (block_address_bytes base_address Ha Hb) as (H2 & H1 & H0).
  unfold flash_erase_block, flash_enable_write. cbv zeta.
  apply Z.eqb_eq in Ha. rewrite Ha, Z.eqb_refl, H2, H1, H0.
  cbn [g_return_val_if_fail].
  erewrite bind_TRUE; [| reflexivity].
  erewrite bind_TRUE; [| reflexivity].
  erewrite bind_TRUE; [| reflexivity].
  unfold answers_erase, answers_transmit_command in Hs. rewrite <- !app_assoc in Hs.
  erewrite bind_TRUE;
    [| apply flash_transmit_command_answered; [cbn; lia | cbn [script set_trace]; exact Hs]].
  erewrite bind_TRUE;
    [| apply flash_transmit_command_answered; [cbn; lia | reflexivity]].
  erewrite bind_TRUE;
    [| eapply lspcon_poll_register_at_once; reflexivity].
  unfold flash_wait_ready. cbn [flash_wait_ready_loop].
  erewrite bind_TRUE; [| apply flash_read_status_answered; reflexivity].
  cbn [Z.land Z.eqb].
  rewrite !answered_answered. unfold mret, erase_events, answered.
  destruct w. cbn. rewrite <- !app_assoc. reflexivity.
Qed.

(** X22: the erase of a block at a 24-bit address, before a controller and
    a flash that complete at once, announces the erase, sends the
    write-enable command 06, sends the erase command D8 followed by the
    number of the block and two zero bytes, polls the controller for the end
    of the sector erase and reads the status of the flash once. *)
Theorem flash_erase_block_traffic bound base_address rest w :
  Z.land base_address (FLASH_BLOCK_SIZE - 1) = 0 -> 0 <= base_address < 16777216 ->
  script w = answers_erase ++ rest ->
  flash_erase_block (S bound) base_address FLASH_BLOCK_SIZE w
  = Some (TRUE tt, answered rest (erase_events base_address) w).
Proof.
  apply flash_erase_block_answered.
Qed.

Lemma flash_erase_block_traffic_witness :
  let w := opened (answers_erase ++ [RFail]) 1 in
  flash_erase_block 1 0x20000 FLASH_BLOCK_SIZE w
  = Some (TRUE tt, answered [RFail] (erase_events 0x20000) w).
Proof.
  intros w.
  exact (flash_erase_block_traffic 0 0x20000 [RFail] w eq_refl ltac:(lia) eq_refl).
Defined.

End ParadeWaitTheorems.

(** ** The page of the window reads *)

Module ParadeWindowTheorems.
Import ParadeLspcon ParadeVocabulary ParadeTraffic ParadeGuard ParadeWriteTheorems.

Lemma address_after_app a evs1 evs2 :
  address_after a (evs1 ++ evs2) = address_after (address_after a evs1) evs2.
Proof.
  revert a. induction evs1 as [|ev evs1 IH]; intros a; [reflexivity |].
  destruct ev as [a' [|]| | | | | | | | | | | | | | |]; cbn; apply IH.
Qed.

Lemma window_read_addresses_app a evs1 evs2 :
  window_read_addresses a (evs1 ++ evs2)
  = window_read_addresses a evs1 ++ window_read_addresses (address_after a evs1) evs2.
Proof.
  revert a. induction evs1 as [|ev evs1 IH]; intros a; [reflexivity |].
  destruct ev as [a' [|]| |n| | | | | | | | | | | | |]; cbn; try apply IH.
  destruct (n =? 256); cbn; rewrite IH; reflexivity.
Qed.

Lemma off_window_event a ev :
  off_window ev = true ->
  address_after a [ev] = a /\ window_read_addresses a [ev] = [].
Proof.
  destruct ev as [a' ok| |n| | | | | | | | | | | | |]; cbn; intros H;
    try discriminate H; auto.
  apply negb_true_iff in H. rewrite H. auto.
Qed.

Lemma Walk_ReadsWindowOnPage7 : Walk off_window ReadsWindowOnPage7.
Proof.
  unfold ReadsWindowOnPage7. split.
  - intros w w' Ht (Ha & _). exists []. rewrite app_nil_r. cbn. auto.
  - intros a b c (e1 & T1 & A1 & W1) (e2 & T2 & A2 & W2). exists (e1 ++ e2).
    rewrite T2, T1, app_assoc. split; [reflexivity |].
    rewrite address_after_app, window_read_addresses_app, <- A1.
    split; [exact A2 | apply Forall_app; auto].
  - intros w w' ev Ht (Ha & _) Hq. exists [ev].
    destruct (off_window_event (i2c_addr w) ev Hq) as (-> & ->). auto.
Qed.

Lemma off_window_warning m : off_window (EvWarning m) = true.
Proof. reflexivity. Qed.

#[local] Hint Resolve Walk_ReadsWindowOnPage7 off_window_warning : steps.

(** Selecting an address binds the handle as the log says. *)
Lemma on_page7_ioctl address :
  steps ReadsWindowOnPage7 (fu_udev_device_ioctl_I2C_SLAVE address).
Proof.
  intros w r w' H. destruct w as [s t e a p n v f].
  unfold fu_udev_device_ioctl_I2C_SLAVE, bind, reply, emit, g_set_error,
    return_FALSE, undefined in H.
  cbn in H. destruct s as [|[] rest]; cbn in H; try discriminate H.
  - destruct e; inversion H; subst; cbn.
    + exists [EvIoctl address false; EvWarning LibraryText]. cbn.
      rewrite <- app_assoc. auto.
    + exists [EvIoctl address false]. cbn. auto.
  - inversion H; subst. exists [EvIoctl address true]. cbn. auto.
Qed.

#[local] Hint Resolve on_page7_ioctl : steps.

Lemma on_page7_ensure_i2c_address address :
  steps ReadsWindowOnPage7 (ensure_i2c_address address).
Proof. unfold ensure_i2c_address. walk. Qed.

#[local] Hint Resolve on_page7_ensure_i2c_address : steps.

Lemma on_page7_guard_new address :
  steps ReadsWindowOnPage7 (i2c_address_guard_new address).
Proof. unfold i2c_address_guard_new. walk. Qed.

Lemma on_page7_guard_dispose guard :
  steps ReadsWindowOnPage7 (i2c_address_guard_dispose guard).
Proof. unfold i2c_address_guard_dispose. walk. Qed.

(** A window read issued with page 7 selected. *)
Lemma on_page7_read_full w r w' :
  i2c_addr w = I2C_ADDR_PAGE7 ->
  fu_i2c_device_read_full 256 w = Some (r, w') -> ReadsWindowOnPage7 w w'.
Proof.
  intros Ha H. destruct w as [s t e a p n v f]. cbn in Ha. subst a.
  unfold fu_i2c_device_read_full, library_read, bind, reply, emit, g_set_error,
    return_FALSE, undefined, mret in H.
  cbn in H. destruct s as [|[] rest]; cbn in H; try discriminate H.
  - destruct e; inversion H; subst; cbn.
    + exists [EvI2cRead 256; EvWarning LibraryText]. cbn.
      rewrite <- app_assoc. auto.
    + exists [EvI2cRead 256]. cbn. auto.
  - destruct (_ && _); inversion H; subst. exists [EvI2cRead 256]. cbn. auto.
Qed.

Lemma on_page7_window_read :
  steps ReadsWindowOnPage7
        (guard <- i2c_address_guard_new I2C_ADDR_PAGE7 ;;
         g_autoptr_scope (TRUE guard) (fu_i2c_device_read_full 256)).
Proof.
  intros w r w' H. apply bind_inv in H.
  destruct H as [(guard & w1 & H1 & H) | (H1 & _)].
  - pose proof (on_page7_guard_new _ _ _ _ H1) as R1.
    unfold i2c_address_guard_new in H1. apply bind_inv in H1.
    destruct H1 as [(u & w0 & H0 & H1) | (_ & H1)]; [| discriminate H1].
    inversion H1; subst. clear H1.
    apply ensure_i2c_address_inv in H0.
    destruct H0 as [(_ & Ha & _) | (H0 & _)]; [| discriminate H0].
    apply g_autoptr_scope_inv in H. destruct H as (rb & w2 & Hb & _ & Hd).
    pose proof (on_page7_read_full _ _ _ Ha Hb) as R2.
    pose proof (on_page7_guard_dispose _ _ _ _ Hd) as R3.
    eapply (walk_trans _ _ Walk_ReadsWindowOnPage7); [exact R1 |].
    eapply (walk_trans _ _ Walk_ReadsWindowOnPage7); [exact R2 | exact R3].
  - apply (on_page7_guard_new _ _ _ _ H1).
Qed.

Lemma on_page7_flash_read_loop rounds : forall target_len base_address len data,
  steps ReadsWindowOnPage7 (flash_read_loop rounds target_len base_address len data).
Proof.
  pose proof on_page7_window_read.
  assert (Hmap : forall a, steps ReadsWindowOnPage7 (lspcon_map_page a)).
  { intros a. unfold lspcon_map_page.
    eapply steps_bind; [eauto with steps | | intros _];
      eapply any_lspcon_write_register; eauto with steps. }
  induction rounds as [|rounds IH]; intros; cbn [flash_read_loop]; cbv zeta;
    [walk |].
  destruct (len <=? 0); [walk |].
  eapply steps_bind; [eauto with steps | apply Hmap | intros _].
  eapply steps_bind; [eauto with steps | exact H | intros page_data].
  unfold fu_device_set_progress_full. walk.
Qed.

(** X23: a read never reads the window from another page than page 7,
    whatever the device answers and wherever the read fails: every window
    read of a run was issued with page 7 bound to the handle. *)
Theorem flash_read_reads_window_on_page7 base_address len w r w' :
  flash_read base_address len w = Some (r, w') ->
  exists evs, trace w' = trace w ++ evs /\
    i2c_addr w' = address_after (i2c_addr w) evs /\
    Forall (fun a => a = I2C_ADDR_PAGE7) (window_read_addresses (i2c_addr w) evs).
Proof. apply on_page7_flash_read_loop. Qed.

(** One byte is read: page 7 is selected, the window is read, and the
    release of the guard fails, so that page 7 stays selected. *)
Lemma flash_read_reads_window_on_page7_witness :
  let w := opened answers_read_release_fails 1 in
  let w' := world_after (flash_read 0 1 w) w in
  flash_read 0 1 w = Some (TRUE [0xFF], w') /\
  window_read_addresses (i2c_addr w) (trace w') = [I2C_ADDR_PAGE7] /\
  i2c_addr w' = I2C_ADDR_PAGE7 /\
  exists evs, trace w' = trace w ++ evs /\
    i2c_addr w' = address_after (i2c_addr w) evs /\
    Forall (fun a => a = I2C_ADDR_PAGE7) (window_read_addresses (i2c_addr w) evs).
Proof.
  intros w w'.
  assert (Hrun : flash_read 0 1 w = Some (TRUE [0xFF], w')).
  { apply run_shape. vm_compute. reflexivity. }
  split; [exact Hrun |].
  split; [vm_compute; reflexivity |].
  split; [vm_compute; reflexivity |].
  exact (flash_read_reads_window_on_page7 0 1 w (TRUE [0xFF]) w' Hrun).
Defined.

End ParadeWindowTheorems.

(** ** An update that the device accepts *)

Module ParadeUpdateTheorems.
Import ParadeLspcon ParadeVocabulary ParadeTraffic ParadeTheorems
  ParadeTrafficTheorems ParadeReadTheorems ParadeWriteTheorems ParadeWaitTheorems.

Lemma completes_answered {A} (m : M A) x rest evs w :
  m w = Some (TRUE x, answered rest evs w) -> completes m x rest w.
Proof.
  intros H. exists (answered rest evs w). destruct w. repeat split; assumption.
Qed.

Lemma completes_bind {A B} (m : M A) (k : A -> M B) x y r1 r2 w :
  completes m x r1 w ->
  (forall w1, script w1 = r1 -> gerror w1 = gerror w -> i2c_addr w1 = i2c_addr w ->
     completes (k x) y r2 w1) ->
  completes (bind m k) y r2 w.
Proof.
  intros (w1 & Hm & Hs & He & Ha) Hk.
  destruct (Hk w1 Hs He Ha) as (w2 & Hk2 & Hs2 & He2 & Ha2).
  exists w2. rewrite (bind_TRUE _ _ _ _ _ Hm). repeat split; congruence.
Qed.

Lemma completes_emit ev w : completes (emit ev) tt (script w) w.
Proof.
  exists (set_trace (trace w ++ [ev]) w). destruct w. repeat split.
Qed.

Lemma completes_mret {A} (x : A) w : completes (mret x) x (script w) w.
Proof.
  exists w. repeat split.
Qed.

Lemma completes_on_failure {A} (m : M A) h x rest w :
  completes m x rest w -> completes (on_failure m h) x rest w.
Proof.
  intros (w1 & Hm & H). exists w1. split; [| exact H].
  unfold on_failure, bind, attempt. rewrite Hm. reflexivity.
Qed.

Lemma completes_write_register register_addr value rest w :
  script w = RDone :: rest ->
  completes (lspcon_write_register register_addr value) tt rest w.
Proof.
  intros Hs. eapply completes_answered.
  apply lspcon_write_register_answered. exact Hs.
Qed.

Lemma completes_transmit_command command rest w :
  (0 < List.length command <= 16)%nat ->
  script w = answers_transmit_command (List.length command) ++ rest ->
  completes (flash_transmit_command command) tt rest w.
Proof.
  intros Hl Hs. eapply completes_answered.
  apply flash_transmit_command_answered; assumption.
Qed.

Lemma completes_wait_ready bound rest w :
  script w = answers_wait_ready ++ rest ->
  completes (flash_wait_ready (S bound)) tt rest w.
Proof.
  intros Hs. unfold flash_wait_ready. cbn [flash_wait_ready_loop].
  eapply completes_bind.
  - eapply completes_answered.
    apply (flash_read_status_answered bound 0); [exact Hs | reflexivity].
  - intros w1 Hs1 _ _. cbn [Z.land Z.eqb]. rewrite <- Hs1. apply completes_mret.
Qed.

Lemma completes_erase bound base_address rest w :
  Z.land base_address (FLASH_BLOCK_SIZE - 1) = 0 -> 0 <= base_address < 16777216 ->
  script w = answers_erase ++ rest ->
  completes (flash_erase_block (S bound) base_address FLASH_BLOCK_SIZE) tt rest w.
Proof.
  intros Ha Hb Hs. eapply completes_answered.
  apply flash_erase_block_answered; assumption.
Qed.

Lemma completes_flash_read flash base_address len rest w :
  (forall a, byteb (flash a) = true) ->
  0 <= base_address -> 0 <= len -> base_address + len <= 16777216 ->
  i2c_addr w = I2C_ADDR_PAGE2 ->
  script w = answers_flash_read flash base_address len ++ rest ->
  completes (flash_read base_address len)
            (flash_bytes flash base_address (Z.to_nat len)) rest w.
Proof.
  intros Hflash Hb Hl Hmax Ha Hs. unfold flash_read.
  destruct (flash_read_loop_answered flash Hflash (Z.to_nat len) len base_address len
              [] rest w Hb Hl Hmax (Nat.le_refl _) Ha Hs)
    as (w' & Hrun & Hs' & He' & Ha').
  exists w'. cbn [app] in Hrun. repeat split; congruence.
Qed.

(** The loop of [flash_write] before a device that takes every page. *)
Lemma flash_write_loop_answered base_address data :
  forall pages rounds bytes_written rest w,
    (pages <= rounds)%nat ->
    256 * (Z.of_nat pages - 1) < Z.of_nat (List.length data) - bytes_written
      <= 256 * Z.of_nat pages ->
    0 <= bytes_written ->
    i2c_addr w = I2C_ADDR_PAGE2 ->
    script w = List.concat (repeat answers_write_page pages) ++ rest ->
    completes (flash_write_loop rounds base_address data bytes_written) tt rest w.
Proof.
  induction pages as [|pages IH]; intros rounds bytes_written rest w Hr Hl Hb Ha Hs.
  - cbn [repeat List.concat app] in Hs. subst rest.
    replace (flash_write_loop rounds base_address data bytes_written)
      with (mret (A := unit) tt); [apply completes_mret |].
    destruct rounds; cbn [flash_write_loop]; cbv zeta;
      replace (Z.of_nat (List.length data) <=? bytes_written) with true
        by (symmetry; apply Z.leb_le; lia); reflexivity.
  - destruct rounds as [|rounds]; [lia |].
    cbn [flash_write_loop]. cbv zeta.
    replace (Z.of_nat (List.length data) <=? bytes_written) with false
      by (symmetry; apply Z.leb_gt; lia).
    rewrite fu_memcpy_safe_page by lia.
    cbn [repeat List.concat] in Hs. rewrite <- app_assoc in Hs.
    unfold answers_write_page in Hs. cbn [app] in Hs.
    eapply completes_bind;
      [eapply completes_answered; apply lspcon_map_page_answered; exact Hs
      | intros w1 Hs1 He1 Ha1].
    eapply completes_bind.
    + set (chunk := firstn 256 _). clearbody chunk.
      destruct w1 as [s t e a p n v f]. cbn in Hs1, Ha1. subst s.
      rewrite Ha in Ha1. subst a.
      unfold completes. eexists. split; [cbn; reflexivity |].
      cbn. repeat split.
    + intros w2 Hs2 He2 Ha2.
      eapply completes_bind.
      * unfold fu_device_set_progress_full. apply completes_emit.
      * intros w3 Hs3 He3 Ha3.
        destruct (IH rounds (bytes_written + 256) rest w3) as (w4 & Hrun & Hs4 & He4 & Ha4);
          [lia | lia | lia | congruence | rewrite Hs3; exact Hs2 |].
        exists w4. repeat split; congruence.
Qed.

(** One more call of a run that completes: [tac] shows that the call
    completes on the answers at the head of the script. *)
Ltac next tac :=
  eapply completes_bind;
  [ tac
  | let w1 := fresh "w" in
    let Hs1 := fresh "Hs1" in
    let Ha1 := fresh "Ha1" in
    intros w1 Hs1 _ Ha1;
    match goal with
    | Hs : script ?w = _, Ha : i2c_addr ?w = I2C_ADDR_PAGE2 |- _ =>
        rewrite Ha in Ha1; try rewrite Hs in Hs1; clear Hs Ha;
        rename Hs1 into Hs; rename Ha1 into Ha
    end ].
Ltac next_emit := next ltac:(apply completes_emit).
Ltac next_write :=
  match goal with
  | Hs : script _ = _ |- _ =>
      next ltac:(apply completes_write_register; exact Hs)
  end.

Lemma completes_write_map_write values : forall rest w,
  script w = repeat RDone (List.length values) ++ rest ->
  completes (write_map_write values) tt rest w.
Proof.
  induction values as [|v values IH]; intros rest w Hs.
  - cbn in Hs. subst rest. apply completes_mret.
  - cbn [write_map_write]. cbn [List.length repeat app] in Hs.
    eapply completes_bind; [apply completes_write_register; exact Hs |].
    intros w1 Hs1 _ _. apply IH. exact Hs1.
Qed.

Lemma completes_flash_write base_address data pages rest w :
  Z.land base_address 0xFF = 0 ->
  256 * (Z.of_nat pages - 1) < Z.of_nat (List.length data) <= 256 * Z.of_nat pages ->
  i2c_addr w = I2C_ADDR_PAGE2 ->
  script w = answers_write pages ++ rest ->
  completes (flash_write base_address data) tt rest w.
Proof.
  intros Hb Hl Ha Hs. unfold flash_write.
  rewrite Hb. cbn [Z.eqb g_return_val_if_fail].
  unfold answers_write in Hs. cbn [repeat app] in Hs. rewrite <- app_assoc in Hs.
  cbn [app] in Hs.
  next ltac:(apply completes_mret).
  next_emit.
  next ltac:(apply (completes_write_map_write unlock_writes); exact Hs).
  next_write. unfold g_usleep. next_emit. next_write.
  next ltac:(apply (flash_write_loop_answered base_address data pages);
             [lia | lia | lia | exact Ha | exact Hs]).
  apply completes_write_register. exact Hs.
Qed.

Lemma bytes_eqb_refl a : bytes_eqb a a = true.
Proof.
  induction a as [|x a IH]; cbn; [reflexivity |]. rewrite Z.eqb_refl. exact IH.
Qed.

Lemma memcmp_same a n : memcmp_differs a a n = false.
Proof.
  unfold memcmp_differs. rewrite bytes_eqb_refl. reflexivity.
Qed.

Lemma target_partition_cases active :
  target_partition_of active = 1 \/ target_partition_of active = 2.
Proof.
  unfold target_partition_of. destruct (active =? 1); auto.
Qed.

Lemma target_address_cases target_partition :
  target_partition = 1 \/ target_partition = 2 ->
  Z.land (target_address_of target_partition) (FLASH_BLOCK_SIZE - 1) = 0 /\
  Z.land (target_address_of target_partition) 0xFF = 0 /\
  0 <= target_address_of target_partition /\
  target_address_of target_partition + FLASH_BLOCK_SIZE <= 16777216.
Proof.
  intros [-> | ->]; cbn; repeat split; lia.
Qed.

Lemma write_firmware_program_completes bound target_partition image rest w :
  target_partition = 1 \/ target_partition = 2 ->
  Z.of_nat (List.length image) = FLASH_BLOCK_SIZE ->
  i2c_addr w = I2C_ADDR_PAGE2 ->
  script w = answers_unlock ++ answers_erase ++ answers_write 256 ++ rest ->
  completes (write_firmware_program (S bound) target_partition
               (target_address_of target_partition) image) tt rest w.
Proof.
  intros Ht Hlen Ha Hs.
  destruct (target_address_cases _ Ht) as (Hblock & Hpage & Hlo & Hhi).
  unfold write_firmware_program. cbv zeta. rewrite Hlen.
  unfold answers_unlock in Hs. rewrite <- !app_assoc in Hs. cbn [app] in Hs.
  next_write.
  next ltac:(apply completes_transmit_command; [cbn; lia | exact Hs]).
  next ltac:(apply completes_transmit_command; [cbn; lia | exact Hs]).
  next ltac:(apply completes_wait_ready; exact Hs).
  unfold fu_device_set_status. next_emit.
  next ltac:(apply completes_on_failure, completes_erase;
             [exact Hblock | unfold FLASH_BLOCK_SIZE in Hhi; lia | exact Hs]).
  next_emit.
  apply completes_on_failure, (completes_flash_write _ _ 256);
    [exact Hpage | rewrite Hlen; unfold FLASH_BLOCK_SIZE; lia | exact Ha | exact Hs].
Qed.

Lemma write_firmware_commit_completes bound flash target_partition rest w :
  (forall a, byteb (flash a) = true) ->
  flash_bytes flash 0 4 = flag_data_of target_partition ->
  i2c_addr w = I2C_ADDR_PAGE2 ->
  script w = answers_erase ++ answers_write 1 ++ answers_flash_read flash 0 4 ++ rest ->
  completes (write_firmware_commit (S bound) (flag_data_of target_partition)) tt rest w.
Proof.
  intros Hflash Hflag Ha Hs.
  unfold write_firmware_commit, fu_device_set_status. cbv zeta.
  next_emit.
  next ltac:(apply completes_erase; [reflexivity | lia | exact Hs]).
  next_emit.
  next ltac:(apply (completes_flash_write _ _ 1);
             [reflexivity | cbn; lia | exact Ha | exact Hs]).
  next_emit.
  next ltac:(apply (completes_flash_read flash);
             [exact Hflash | lia | cbn; lia | cbn; lia | exact Ha | exact Hs]).
  change (Z.to_nat (Z.of_nat (List.length (flag_data_of target_partition)))) with 4%nat.
  rewrite Hflag, memcmp_same. rewrite <- Hs. apply completes_mret.
Qed.

Lemma write_firmware_relock_completes rest w :
  i2c_addr w = I2C_ADDR_PAGE2 ->
  script w = answers_relock ++ rest ->
  completes write_firmware_relock tt rest w.
Proof.
  intros Ha Hs. unfold write_firmware_relock.
  unfold answers_relock in Hs. rewrite <- !app_assoc in Hs.
  next ltac:(apply completes_transmit_command; [cbn; lia | exact Hs]).
  next ltac:(apply completes_transmit_command; [cbn; lia | exact Hs]).
  apply completes_write_register. exact Hs.
Qed.

Lemma write_firmware_completes bound image flash rest w target_partition :
  target_partition_of (active_partition w) = target_partition ->
  (forall a, byteb (flash a) = true) ->
  flash_bytes flash (target_address_of target_partition) (Z.to_nat FLASH_BLOCK_SIZE)
  = image ->
  flash_bytes flash 0 4 = flag_data_of target_partition ->
  i2c_addr w = I2C_ADDR_PAGE2 ->
  script w
  = answers_unlock ++ answers_erase ++ answers_write 256
    ++ answers_flash_read flash (target_address_of target_partition) FLASH_BLOCK_SIZE
    ++ answers_erase ++ answers_write 1 ++ answers_flash_read flash 0 4
    ++ answers_relock ++ rest ->
  completes (fu_parade_lspcon_device_write_firmware (S bound) (mkFirmware (Some image)))
            tt rest w.
Proof.
  intros Hp Hflash Himage Hflag Ha Hs.
  assert (Ht : target_partition = 1 \/ target_partition = 2)
    by (rewrite <- Hp; apply target_partition_cases).
  destruct (target_address_cases _ Ht) as (Hblock & Hpage & Hlo & Hhi).
  assert (Hlen : Z.of_nat (List.length image) = FLASH_BLOCK_SIZE)
    by (rewrite <- Himage, flash_bytes_length; reflexivity).
  unfold fu_parade_lspcon_device_write_firmware.
  next ltac:(exists w; repeat split).
  cbv beta zeta. rewrite Hp.
  unfold fu_firmware_get_bytes. cbn [blob].
  next ltac:(apply completes_mret).
  rewrite Hlen, Z.eqb_refl. cbn [negb].
  next ltac:(apply write_firmware_program_completes;
             [exact Ht | exact Hlen | exact Ha | exact Hs]).
  unfold write_firmware_readback, fu_device_set_status.
  next ltac:(eapply completes_bind;
             [apply completes_emit
             | intros w' Hs' _ Ha'; rewrite Hs in Hs'; rewrite Ha in Ha';
               apply (completes_flash_read flash);
               [exact Hflash | exact Hlo | unfold FLASH_BLOCK_SIZE; lia
               | exact Hhi | exact Ha' | exact Hs']]).
  rewrite Himage, memcmp_same.
  next ltac:(apply (write_firmware_commit_completes bound flash);
             [exact Hflash | exact Hflag | exact Ha | exact Hs]).
  apply write_firmware_relock_completes; [exact Ha | exact Hs].
Qed.

(** X24: an update with an image of 0x10000 bytes succeeds before a device
    that accepts every call, reports the controller and the flash ready at
    once, and shows at the read backs a flash that holds the image in the
    block of the target partition and the flag record of the target
    partition at address 0: the function returns TRUE after exactly the
    calls of the unlock, the erase and the write of the block in 256 pages,
    its read back, the erase, write and read back of the flag, and the
    relock; it sets no error and leaves page 2 selected. *)
Theorem update_succeeds bound image flash rest w :
  let target_partition := target_partition_of (active_partition w) in
  let target_address := target_address_of target_partition in
  (forall a, byteb (flash a) = true) ->
  flash_bytes flash target_address (Z.to_nat FLASH_BLOCK_SIZE) = image ->
  flash_bytes flash 0 4 = flag_data_of target_partition ->
  i2c_addr w = I2C_ADDR_PAGE2 ->
  script w
  = answers_unlock ++ answers_erase ++ answers_write 256
    ++ answers_flash_read flash target_address FLASH_BLOCK_SIZE
    ++ answers_erase ++ answers_write 1 ++ answers_flash_read flash 0 4
    ++ answers_relock ++ rest ->
  observed (fun w' => (script w', gerror w', i2c_addr w'))
    (fu_parade_lspcon_device_write_firmware (S bound) (mkFirmware (Some image)) w)
  = Some (TRUE tt, (rest, gerror w, I2C_ADDR_PAGE2)).
Proof.
  intros target_partition target_address Hflash Himage Hflag Ha Hs.
  destruct (write_firmware_completes bound image flash rest w target_partition
              eq_refl Hflash Himage Hflag Ha Hs)
    as (w' & Hrun & Hs' & He' & Ha').
  rewrite Hrun. cbn [observed]. rewrite Hs', He', Ha', Ha. reflexivity.
Qed.

(** An image of 0xA5 bytes for partition 2, and a flash that holds it
    behind the flag record of partition 2. *)
Lemma update_succeeds_witness :
  let flash := fun a => if a <? 4 then nth (Z.to_nat a) (flag_data_of 2) 0xFF else 0xA5 in
  let w :=
    opened (answers_unlock ++ answers_erase ++ answers_write 256
            ++ answers_flash_read flash 0x20000 FLASH_BLOCK_SIZE
            ++ answers_erase ++ answers_write 1 ++ answers_flash_read flash 0 4
            ++ answers_relock ++ [RFail]) 1 in
  observed (fun w' => (script w', gerror w', i2c_addr w'))
    (fu_parade_lspcon_device_write_firmware 1 (mkFirmware (Some image)) w)
  = Some (TRUE tt, ([RFail], None, I2C_ADDR_PAGE2)).
Proof.
  intros flash w.
  assert (Hflash : forall a, byteb (flash a) = true).
  { intros a. unfold flash. destruct (a <? 4); [| reflexivity].
    destruct (Z.to_nat a) as [|[|[|[|[|n]]]]]; reflexivity. }
  assert (Himage : flash_bytes flash 0x20000 (Z.to_nat FLASH_BLOCK_SIZE) = image).
  { unfold flash_bytes, image.
    transitivity (map (fun _ : nat => 0xA5) (seq 0 (Z.to_nat FLASH_BLOCK_SIZE))).
    - apply map_ext_in. intros i _. unfold flash.
      replace (0x20000 + Z.of_nat i <? 4) with false
        by (symmetry; apply Z.ltb_ge; lia).
      reflexivity.
    - rewrite map_const, length_seq. reflexivity. }
  exact (update_succeeds 0 image flash [RFail] w Hflash Himage eq_refl eq_refl eq_refl).
Defined.

End ParadeUpdateTheorems.
